(** * Drag-and-drop engine of blockblast_99: a shallow embedding

    The engine lives in [src/frontend/src/lib/dnd]: [types.ts], [utils.ts],
    [context.tsx] (the coordinator), [useDraggable.ts] (the per-item
    controller), [useDropZone.ts] (the per-target controller) and
    [DragOverlay.tsx] (the item shown under the pointer).  The game that
    uses it, [hooks/useDragDrop.ts] and [game/gameLogic.ts], follows in a
    part of its own.

    JavaScript numbers are embedded as rationals [Q]: every arithmetic
    operation the engine performs ([+], [-], [*], [/], [Math.min],
    [Math.max], comparisons) is exact on [Q]; rounding, [NaN] and the
    infinities are left out.  [Math.sqrt] occurs only in [distance], a real
    number, whose result is only ever compared with a threshold; the
    comparison is decided on the squared distance (see [Utils]), and proved
    to be the comparison with the square root.  The code computes in
    doubles, so a property whose truth turns on an exact sum, difference,
    quotient or square root is stated for the inputs on which the doubles
    agree with the rationals (points with integer coordinates, see
    [integral]), or in terms of the very expression the code evaluates.

    React state is embedded synchronously: a [setState] takes effect at
    once, and the effects that depend on the changed state run right after
    the handler that changed it.  This is the schedule in which the tree
    renders after every call on the coordinator and after every event,
    before the next one arrives.  Two calls made in one tick with no
    render in between are outside it: [endDrag] and [cancelDrag] read the
    state of the last render, and the event of [updateDrag] fires when its
    queued updater runs.  The callbacks and the accept list of a drop zone
    are taken to be the same from one render to the next, so that its
    effect re-runs for a change of the drag state only. *)

From Stdlib Require Import QArith Qminmax Qround Reals Qreals Bool List String Lia Lra.
From Stdlib Require Lqa.
Import ListNotations.
Open Scope string_scope.
Open Scope list_scope.
Open Scope Q_scope.

Set Implicit Arguments.

(** ** JavaScript comparisons on numbers *)

Module Num.
Definition geb (a b : Q) : bool := Qle_bool b a.
Definition leb (a b : Q) : bool := Qle_bool a b.
Definition gtb (a b : Q) : bool := negb (Qle_bool a b).
Definition ltb (a b : Q) : bool := negb (Qle_bool b a).
End Num.

Infix ">=?" := Num.geb (at level 70, no associativity) : Q_scope.
Infix "<=?" := Num.leb (at level 70, no associativity) : Q_scope.
Infix ">?" := Num.gtb (at level 70, no associativity) : Q_scope.
Infix "<?" := Num.ltb (at level 70, no associativity) : Q_scope.

(** ** types.ts *)

Module Point.
Record t : Type := mk { x : Q; y : Q }.
End Point.
Abbreviation Point := Point.t.

Module Rect.
Record t : Type := mk {
  top : Q; left : Q; right : Q; bottom : Q; width : Q; height : Q }.
End Rect.
Abbreviation Rect := Rect.t.

Definition DraggableId := string.
Definition DropZoneId := string.
Definition DragType := string.

Module DragData.
Record t (T : Type) : Type := mk {
  id : DraggableId; type : DragType; payload : T }.
Arguments mk {T} _ _ _.
End DragData.
Abbreviation DragData := DragData.t.

Module DragPhase.
Inductive t : Type := idle | pending | dragging | dropping.
End DragPhase.
Abbreviation DragPhase := DragPhase.t.

Module DragState.
Record t (T : Type) : Type := mk {
  phase : DragPhase;
  isDragging : bool;
  data : option (DragData T);
  position : option Point;
  initialPosition : option Point;
  offset : Point;
  delta : Point;
  overDropZoneId : option DropZoneId }.
Arguments mk {T} _ _ _ _ _ _ _ _.
End DragState.
Abbreviation DragState := DragState.t.

Definition INITIAL_DRAG_STATE {T : Type} : DragState T :=
  DragState.mk DragPhase.idle false None None None
               (Point.mk 0 0) (Point.mk 0 0) None.

Module DropState.
Record t (T : Type) : Type := mk {
  isOver : bool; canDrop : bool; dragData : option (DragData T) }.
Arguments mk {T} _ _ _.
End DropState.
Abbreviation DropState := DropState.t.

Definition INITIAL_DROP_STATE {T : Type} : DropState T :=
  DropState.mk false false None.

(** Optional fields are options; the defaults are applied where the source
    destructures them. *)
Module ActivationConstraints.
Record t : Type := mk {
  distance : option Q; delay : option Q; tolerance : option Q }.
End ActivationConstraints.
Abbreviation ActivationConstraints := ActivationConstraints.t.

Module DraggableConfig.
Record t (T : Type) : Type := mk {
  id : DraggableId;
  type : DragType;
  data : T;
  disabled : option bool;
  activation : option ActivationConstraints }.
Arguments mk {T} _ _ _ _ _.
End DraggableConfig.
Abbreviation DraggableConfig := DraggableConfig.t.

(** [accept: DragType | DragType[]] *)
Inductive Accept : Type :=
| AcceptOne (type : DragType)
| AcceptMany (types : list DragType).

(** The callbacks [onDrop], [onDragEnter], [onDragOver] and [onDragLeave]
    return nothing; a call to one of them is recorded in the trace (see
    [ZoneCallback]).  [canDrop] is the only callback whose result is used. *)
Module DropZoneConfig.
Record t (T : Type) : Type := mk {
  id : DropZoneId;
  accept : Accept;
  canDrop : option (T -> bool);
  disabled : option bool }.
Arguments mk {T} _ _ _ _.
End DropZoneConfig.
Abbreviation DropZoneConfig := DropZoneConfig.t.

(** [DragStartEvent | DragMoveEvent | DragEndEvent], handed to the
    provider's [onDragStart], [onDragMove], [onDragEnd]. *)
Inductive DragEvent (T : Type) : Type :=
| DragStartEvent (data : DragData T) (position : Point)
| DragMoveEvent (data : DragData T) (position : Point) (delta : Point)
| DragEndEvent (data : DragData T) (position : option Point)
               (dropZoneId : option DropZoneId) (cancelled : bool).
Arguments DragStartEvent {T} _ _.
Arguments DragMoveEvent {T} _ _ _.
Arguments DragEndEvent {T} _ _ _ _.

(** ** utils.ts *)

Module Utils.

Definition point (x y : Q) : Point := Point.mk x y.

(** [Math.pow(b.x - a.x, 2) + Math.pow(b.y - a.y, 2)], the argument of
    [Math.sqrt] in [distance]. *)
Definition distanceSquared (a b : Point) : Q :=
  (Point.x b - Point.x a) * (Point.x b - Point.x a)
  + (Point.y b - Point.y a) * (Point.y b - Point.y a).

(** [Math.sqrt(...)]: the distance, a real number. *)
Definition distance (a b : Point) : R := sqrt (Q2R (distanceSquared a b)).

(** [distance(a, b) >= m], decided on the rationals: the square root of a
    non-negative [d] is at least [m] exactly when [m <= 0] or [m * m <= d]
    (lemma [distance_geb_spec]). *)
Definition distance_geb (a b : Point) (m : Q) : bool :=
  (m <=? 0) || (m * m <=? distanceSquared a b).

(** [distance(a, b) > m]: [m < 0] or [m * m < d] (lemma
    [distance_gtb_spec]). *)
Definition distance_gtb (a b : Point) (m : Q) : bool :=
  (m <? 0) || (m * m <? distanceSquared a b).

Definition delta (from to : Point) : Point :=
  Point.mk (Point.x to - Point.x from) (Point.y to - Point.y from).

Definition add (a b : Point) : Point :=
  Point.mk (Point.x a + Point.x b) (Point.y a + Point.y b).

Definition subtract (a b : Point) : Point :=
  Point.mk (Point.x a - Point.x b) (Point.y a - Point.y b).

Definition center (rect : Rect) : Point :=
  Point.mk (Rect.left rect + Rect.width rect / 2)
           (Rect.top rect + Rect.height rect / 2).

Definition isPointInRect (pt : Point) (rect : Rect) : bool :=
  (Point.x pt >=? Rect.left rect) &&
  (Point.x pt <=? Rect.right rect) &&
  (Point.y pt >=? Rect.top rect) &&
  (Point.y pt <=? Rect.bottom rect).

Definition rectsIntersect (a b : Rect) : bool :=
  negb ((Rect.right a <? Rect.left b) ||
        (Rect.left a >? Rect.right b) ||
        (Rect.bottom a <? Rect.top b) ||
        (Rect.top a >? Rect.bottom b)).

Definition intersectionArea (a b : Rect) : Q :=
  let xOverlap :=
    Qmax 0 (Qmin (Rect.right a) (Rect.right b)
            - Qmax (Rect.left a) (Rect.left b)) in
  let yOverlap :=
    Qmax 0 (Qmin (Rect.bottom a) (Rect.bottom b)
            - Qmax (Rect.top a) (Rect.top b)) in
  xOverlap * yOverlap.

(** The quotient of two numbers, where it is a number: a division by
    zero yields [NaN] or an infinity in JavaScript, here [None]. *)
Definition divide (n d : Q) : option Q :=
  if Qeq_bool d 0 then None else Some (n / d).

Definition intersectionRatio (a b : Rect) : option Q :=
  let area := intersectionArea a b in
  let aArea := Rect.width a * Rect.height a in
  if aArea >? 0 then divide area aArea else Some 0.

Definition pointerCollision (pointer : Point) (rect : Rect) : bool :=
  isPointInRect pointer rect.

Definition rectCollision (draggableRect dropZoneRect : Rect) : bool :=
  rectsIntersect draggableRect dropZoneRect.

Definition closestCenterDistance (draggableRect dropZoneRect : Rect) : R :=
  distance (center draggableRect) (center dropZoneRect).

End Utils.

(** ** context.tsx: the drag coordinator

    Each operation is a function of the provider's drag state; it returns
    the new state and the events handed to the provider's callbacks, in
    order.  [endDrag] and [cancelDrag] read [stateRef.current], which is
    the drag state of the last render. *)

Module DnDContext.
Section Coordinator.
Context {T : Type}.

Definition startDrag (data : DragData T) (position offset : Point)
    (prev : DragState T) : DragState T * list (DragEvent T) :=
  let newState :=
    DragState.mk DragPhase.dragging true (Some data) (Some position) (Some position)
                 offset (Point.mk 0 0) None in
  (newState, [DragStartEvent data position]).

Definition updateDrag (position : Point) (prev : DragState T)
    : DragState T * list (DragEvent T) :=
  match DragState.initialPosition prev with
  | Some initialPosition =>
      if negb (DragState.isDragging prev) then (prev, [])
      else
        let newDelta := Utils.delta initialPosition position in
        (DragState.mk (DragState.phase prev) (DragState.isDragging prev)
                      (DragState.data prev) (Some position)
                      (DragState.initialPosition prev)
                      (DragState.offset prev) newDelta
                      (DragState.overDropZoneId prev),
         match DragState.data prev with
         | Some data => [DragMoveEvent data position newDelta]
         | None => []
         end)
  | None => (prev, [])
  end.

Definition endDrag (currentState : DragState T)
    : DragState T * list (DragEvent T) :=
  (INITIAL_DRAG_STATE,
   match DragState.data currentState with
   | Some data =>
       [DragEndEvent data (DragState.position currentState)
                     (DragState.overDropZoneId currentState) false]
   | None => []
   end).

Definition cancelDrag (currentState : DragState T)
    : DragState T * list (DragEvent T) :=
  (INITIAL_DRAG_STATE,
   match DragState.data currentState with
   | Some data =>
       [DragEndEvent data (DragState.position currentState) None true]
   | None => []
   end).

(** [prev.overDropZoneId === id] *)
Definition sameDropZoneId (a b : option DropZoneId) : bool :=
  match a, b with
  | None, None => true
  | Some i, Some j => String.eqb i j
  | _, _ => false
  end.

Definition setOverDropZone (id : option DropZoneId) (prev : DragState T)
    : DragState T :=
  if sameDropZoneId (DragState.overDropZoneId prev) id then prev
  else
    DragState.mk (DragState.phase prev) (DragState.isDragging prev)
                 (DragState.data prev) (DragState.position prev)
                 (DragState.initialPosition prev)
                 (DragState.offset prev) (DragState.delta prev) id.

(** The document [keydown] listener of the provider: installed only
    while [dragState.isDragging]; it reacts to [Escape] alone. *)
Definition handleKeyDown (key : string) (dragState : DragState T)
    : DragState T * list (DragEvent T) :=
  if negb (DragState.isDragging dragState) then (dragState, [])
  else if String.eqb key "Escape" then cancelDrag dragState
  else (dragState, []).

(** The operations of [DnDContextValue] that change the drag state. *)
Inductive Operation : Type :=
| StartDrag (data : DragData T) (position offset : Point)
| UpdateDrag (position : Point)
| EndDrag
| CancelDrag
| SetOverDropZone (id : option DropZoneId).

Definition perform (op : Operation) (s : DragState T)
    : DragState T * list (DragEvent T) :=
  match op with
  | StartDrag data position offset => startDrag data position offset s
  | UpdateDrag position => updateDrag position s
  | EndDrag => endDrag s
  | CancelDrag => cancelDrag s
  | SetOverDropZone id => (setOverDropZone id s, [])
  end.

(** A sequence of calls, from a given state: the final state and all the
    events, in order.  Each call starts from the state the previous one
    left, as it does when the provider renders between two calls. *)
Fixpoint performAll (ops : list Operation) (s : DragState T)
    : DragState T * list (DragEvent T) :=
  match ops with
  | [] => (s, [])
  | op :: rest =>
      let (s1, evs1) := perform op s in
      let (s2, evs2) := performAll rest s1 in
      (s2, evs1 ++ evs2)
  end.

Definition reachable (s : DragState T) : Prop :=
  exists ops, fst (performAll ops INITIAL_DRAG_STATE) = s.

End Coordinator.
Arguments Operation T : clear implicits.
End DnDContext.

(** ** The mounted components and what they are observed to do *)

(** Calls of a drop zone's callbacks. *)
Inductive ZoneCallback (T : Type) : Type :=
| OnDrop (payload : T) (position : Point)
| OnDragEnter (payload : T)
| OnDragOver (payload : T) (position : Point)
| OnDragLeave.
Arguments OnDrop {T} _ _.
Arguments OnDragEnter {T} _.
Arguments OnDragOver {T} _ _.
Arguments OnDragLeave {T}.

(** What one run of a drop zone's effect does besides updating its own
    state, in the order of the source. *)
Inductive ZoneOutput (T : Type) : Type :=
| Callback (cb : ZoneCallback T)
| CallSetOverDropZone (id : option DropZoneId).
Arguments Callback {T} _.
Arguments CallSetOverDropZone {T} _.

(** The trace of a run: calls on the coordinator, events handed to the
    provider's callbacks, calls of a drop zone's callbacks. *)
Inductive Observation (T : Type) : Type :=
| Called (op : DnDContext.Operation T)
| Fired (e : DragEvent T)
| Zone (id : DropZoneId) (cb : ZoneCallback T).
Arguments Called {T} _.
Arguments Fired {T} _.
Arguments Zone {T} _ _.

(** [pendingStartRef.current]; [timer] is the handle of [setTimeout]. *)
Module PendingStart.
Record t : Type := mk {
  position : Point; offset : Point; timer : option nat }.
End PendingStart.
Abbreviation PendingStart := PendingStart.t.

(** The state and the refs of one [useDraggable] instance. *)
Module Draggable.
Record t : Type := mk {
  isPending : bool;
  isOurDragRef : bool;
  pendingStartRef : option PendingStart }.
End Draggable.
Abbreviation Draggable := Draggable.t.

(** The state and the refs of one [useDropZone] instance.  [elementRef] is
    the element the zone is attached to, given by the rectangle
    [getBoundingClientRect] answers for it at present. *)
Module DropZone.
Record t (T : Type) : Type := mk {
  config : DropZoneConfig T;
  elementRef : option Rect;
  dropState : DropState T;
  prevIsOverRef : bool }.
Arguments mk {T} _ _ _ _.
End DropZone.
Abbreviation DropZone := DropZone.t.

(** A timeout scheduled by [handleDragStart]: its delay and the position
    and offset its callback has captured. *)
Module Timeout.
Record t : Type := mk { delay : Q; position : Point; offset : Point }.
End Timeout.
Abbreviation Timeout := Timeout.t.

(** A provider with one draggable and some drop zones below it.
    [effectsDue] says that a render with changed [dragState.isDragging],
    [dragState.data] or [dragState.position] is outstanding, after which
    the drop zones' drag-state effects run. *)
Module World.
Record t (T : Type) : Type := mk {
  dragState : DragState T;
  draggableConfig : DraggableConfig T;
  draggable : Draggable;
  dropZones : list (DropZone T);
  timeouts : list (nat * Timeout);
  nextTimeout : nat;
  effectsDue : bool }.
Arguments mk {T} _ _ _ _ _ _ _.

Section Setters.
Context {T : Type}.
Definition setDragState (s : DragState T) (w : t T) : t T :=
  mk s (draggableConfig w) (draggable w) (dropZones w) (timeouts w)
     (nextTimeout w) (effectsDue w).
Definition setDraggable (d : Draggable) (w : t T) : t T :=
  mk (dragState w) (draggableConfig w) d (dropZones w) (timeouts w)
     (nextTimeout w) (effectsDue w).
Definition setDropZones (zs : list (DropZone T)) (w : t T) : t T :=
  mk (dragState w) (draggableConfig w) (draggable w) zs (timeouts w)
     (nextTimeout w) (effectsDue w).
Definition setTimeouts (ts : list (nat * Timeout)) (n : nat) (w : t T)
    : t T :=
  mk (dragState w) (draggableConfig w) (draggable w) (dropZones w) ts n
     (effectsDue w).
Definition setEffectsDue (b : bool) (w : t T) : t T :=
  mk (dragState w) (draggableConfig w) (draggable w) (dropZones w)
     (timeouts w) (nextTimeout w) b.
End Setters.
End World.
Abbreviation World := World.t.

(** Handlers run in a state monad over the world that also collects the
    trace. *)
Module Run.
Section Monad.
Context {T : Type}.

Definition M (A : Type) : Type :=
  World T -> A * World T * list (Observation T).

Definition ret {A} (a : A) : M A := fun w => (a, w, []).

Definition bind {A B} (m : M A) (k : A -> M B) : M B :=
  fun w =>
    let '(a, w1, o1) := m w in
    let '(b, w2, o2) := k a w1 in
    (b, w2, o1 ++ o2).

Definition gets {A} (f : World T -> A) : M A := fun w => (f w, w, []).
Definition modify (f : World T -> World T) : M unit :=
  fun w => (tt, f w, []).
Definition observe (os : list (Observation T)) : M unit :=
  fun w => (tt, w, os).

Definition value {A} (r : A * World T * list (Observation T)) : A :=
  fst (fst r).
Definition world {A} (r : A * World T * list (Observation T)) : World T :=
  snd (fst r).
Definition trace {A} (r : A * World T * list (Observation T))
    : list (Observation T) :=
  snd r.
End Monad.
Arguments M : clear implicits.
End Run.

Notation "x <- c1 ;; c2" := (Run.bind c1 (fun x => c2))
  (at level 61, c1 at next level, right associativity).
Notation "c1 ;; c2" := (Run.bind c1 (fun _ => c2))
  (at level 61, right associativity).

Definition orDefault {A : Type} (o : option A) (d : A) : A :=
  match o with Some a => a | None => d end.

(** ** The context value, as the hooks use it *)

Module Provider.
Section Value.
Context {T : Type}.

(** Whether a call gives [dragState.isDragging], [dragState.data] or
    [dragState.position] a new value: [startDrag] builds a new state with
    a new data object, [updateDrag] stores a new position when a drag is
    active, [endDrag] and [cancelDrag] reset the three.
    [setOverDropZone] touches none of them. *)
Definition changesEffectDeps (op : DnDContext.Operation T)
    (prev : DragState T) : bool :=
  match op with
  | DnDContext.StartDrag _ _ _ => true
  | DnDContext.UpdateDrag _ =>
      DragState.isDragging prev &&
      match DragState.initialPosition prev with
      | Some _ => true | None => false end
  | DnDContext.EndDrag | DnDContext.CancelDrag =>
      DragState.isDragging prev ||
      match DragState.data prev with Some _ => true | None => false end ||
      match DragState.position prev with Some _ => true | None => false end
  | DnDContext.SetOverDropZone _ => false
  end.

Definition call (op : DnDContext.Operation T) : Run.M T unit :=
  fun w =>
    let prev := World.dragState w in
    let (s, evs) := DnDContext.perform op prev in
    (tt,
     World.setEffectsDue (World.effectsDue w || changesEffectDeps op prev)
                         (World.setDragState s w),
     Called op :: map Fired evs).

Definition startDrag (data : DragData T) (position offset : Point) :=
  call (DnDContext.StartDrag data position offset).
Definition updateDrag (position : Point) :=
  call (DnDContext.UpdateDrag position).
Definition endDrag := call DnDContext.EndDrag.
Definition cancelDrag := call DnDContext.CancelDrag.
Definition setOverDropZone (id : option DropZoneId) :=
  call (DnDContext.SetOverDropZone id).

(** The provider's document [keydown] listener. *)
Definition handleKeyDown (key : string) : Run.M T unit :=
  isDragging <- Run.gets (fun w => DragState.isDragging (World.dragState w)) ;;
  if negb isDragging then Run.ret tt
  else if String.eqb key "Escape" then cancelDrag
  else Run.ret tt.

End Value.
End Provider.

(** ** useDraggable.ts *)

Module UseDraggable.
Section Hook.
Context {T : Type}.

Definition DEFAULT_ACTIVATION : ActivationConstraints :=
  ActivationConstraints.mk (Some 0) (Some 0) (Some 5).

Definition disabled (w : World T) : bool :=
  orDefault (DraggableConfig.disabled (World.draggableConfig w)) false.

Definition activation (w : World T) : ActivationConstraints :=
  orDefault (DraggableConfig.activation (World.draggableConfig w))
            DEFAULT_ACTIVATION.

(** [{ id, type, payload: data }] *)
Definition dragData (w : World T) : DragData T :=
  let config := World.draggableConfig w in
  DragData.mk (DraggableConfig.id config) (DraggableConfig.type config)
              (DraggableConfig.data config).

(** [dragState.isDragging && dragState.data?.id === id] *)
Definition isDragging (w : World T) : bool :=
  DragState.isDragging (World.dragState w) &&
  match DragState.data (World.dragState w) with
  | Some d =>
      String.eqb (DragData.id d) (DraggableConfig.id (World.draggableConfig w))
  | None => false
  end.

Definition isPending (w : World T) : bool :=
  Draggable.isPending (World.draggable w).
Definition isOurDragRef (w : World T) : bool :=
  Draggable.isOurDragRef (World.draggable w).
Definition pendingStartRef (w : World T) : option PendingStart :=
  Draggable.pendingStartRef (World.draggable w).

Definition setIsPending (b : bool) : Run.M T unit :=
  Run.modify (fun w =>
    let d := World.draggable w in
    World.setDraggable
      (Draggable.mk b (Draggable.isOurDragRef d) (Draggable.pendingStartRef d))
      w).
Definition setIsOurDragRef (b : bool) : Run.M T unit :=
  Run.modify (fun w =>
    let d := World.draggable w in
    World.setDraggable
      (Draggable.mk (Draggable.isPending d) b (Draggable.pendingStartRef d))
      w).
Definition setPendingStartRef (p : option PendingStart) : Run.M T unit :=
  Run.modify (fun w =>
    let d := World.draggable w in
    World.setDraggable
      (Draggable.mk (Draggable.isPending d) (Draggable.isOurDragRef d) p)
      w).

(** [setTimeout]: the new handle is fresh; handles start at 1. *)
Definition setTimeout (t : Timeout) : Run.M T nat :=
  fun w =>
    let id := World.nextTimeout w in
    (id, World.setTimeouts ((id, t) :: World.timeouts w) (S id) w, []).

Definition clearTimeout (id : nat) : Run.M T unit :=
  Run.modify (fun w =>
    World.setTimeouts
      (filter (fun e => negb (Nat.eqb (fst e) id)) (World.timeouts w))
      (World.nextTimeout w) w).

Definition shouldActivate (activation : ActivationConstraints)
    (initialPosition currentPosition : Point) : bool :=
  let minDistance := orDefault (ActivationConstraints.distance activation) 0 in
  if minDistance <=? 0 then true
  else Utils.distance_geb initialPosition currentPosition minDistance.

Definition clearPending : Run.M T unit :=
  pend <- Run.gets pendingStartRef ;;
  match pend with
  | Some {| PendingStart.timer := Some id |} => clearTimeout id
  | _ => Run.ret tt
  end ;;
  setPendingStartRef None ;;
  setIsPending false.

(** The callback [handleDragStart] hands to [setTimeout]. *)
Definition onTimeout (position offset : Point) : Run.M T unit :=
  pend <- Run.gets pendingStartRef ;;
  match pend with
  | Some _ =>
      setIsOurDragRef true ;;
      data <- Run.gets dragData ;;
      Provider.startDrag data position offset ;;
      clearPending
  | None => Run.ret tt
  end.

Definition handleDragStart (position offset : Point) : Run.M T unit :=
  isDisabled <- Run.gets disabled ;;
  if isDisabled then Run.ret tt
  else
    act <- Run.gets activation ;;
    let delay := orDefault (ActivationConstraints.delay act) 0 in
    let minDistance := orDefault (ActivationConstraints.distance act) 0 in
    if (delay <=? 0) && (minDistance <=? 0) then
      setIsOurDragRef true ;;
      data <- Run.gets dragData ;;
      Provider.startDrag data position offset
    else
      setIsPending true ;;
      setPendingStartRef (Some (PendingStart.mk position offset None)) ;;
      if delay >? 0 then
        id <- setTimeout (Timeout.mk delay position offset) ;;
        setPendingStartRef (Some (PendingStart.mk position offset (Some id)))
      else Run.ret tt.

Definition handleMove (position : Point) : Run.M T unit :=
  pend <- Run.gets pendingStartRef ;;
  ours <- Run.gets isOurDragRef ;;
  match pend with
  | Some pending =>
      if negb ours then
        act <- Run.gets activation ;;
        let tolerance := orDefault (ActivationConstraints.tolerance act) 5 in
        let timerArmed :=
          match PendingStart.timer pending with
          | Some _ => true | None => false end in
        if timerArmed &&
           Utils.distance_gtb (PendingStart.position pending) position
                              tolerance
        then clearPending
        else if shouldActivate act (PendingStart.position pending) position
        then
          setIsOurDragRef true ;;
          data <- Run.gets dragData ;;
          Provider.startDrag data position (PendingStart.offset pending) ;;
          clearPending
        else Run.ret tt
      else Provider.updateDrag position
  | None =>
      if ours then Provider.updateDrag position else Run.ret tt
  end.

Definition handleDragEnd : Run.M T unit :=
  clearPending ;;
  ours <- Run.gets isOurDragRef ;;
  if ours then setIsOurDragRef false ;; Provider.endDrag else Run.ret tt.

Definition handleCancel : Run.M T unit :=
  clearPending ;;
  ours <- Run.gets isOurDragRef ;;
  if ours then setIsOurDragRef false ;; Provider.cancelDrag else Run.ret tt.

(** [rect] is the bounding rectangle of the element at the event. *)
Definition handleMouseDown (button : Z) (client : Point) (rect : Rect)
    : Run.M T unit :=
  isDisabled <- Run.gets disabled ;;
  if isDisabled then Run.ret tt
  else if negb (Z.eqb button 0) then Run.ret tt
  else
    let position := client in
    let offset :=
      Point.mk (Point.x client - Rect.left rect)
               (Point.y client - Rect.top rect) in
    handleDragStart position offset.

Definition handleTouchStart (touch : Point) (rect : Rect) : Run.M T unit :=
  isDisabled <- Run.gets disabled ;;
  if isDisabled then Run.ret tt
  else
    let position := touch in
    let offset :=
      Point.mk (Point.x touch - Rect.left rect)
               (Point.y touch - Rect.top rect) in
    handleDragStart position offset.

Definition handleKeyDown (key : string) (rect : Rect) : Run.M T unit :=
  isDisabled <- Run.gets disabled ;;
  if isDisabled then Run.ret tt
  else if String.eqb key " " || String.eqb key "Enter" then
    let position :=
      Point.mk (Rect.left rect + Rect.width rect / 2)
               (Rect.top rect + Rect.height rect / 2) in
    let offset := Point.mk (Rect.width rect / 2) (Rect.height rect / 2) in
    handleDragStart position offset
  else Run.ret tt.

(** The document listeners for movement and release are attached while
    [isDragging || isPending]. *)
Definition listening (w : World T) : bool := isDragging w || isPending w.

End Hook.
End UseDraggable.

(** ** useDropZone.ts *)

Module UseDropZone.
Section Hook.
Context {T : Type}.

Definition disabled (config : DropZoneConfig T) : bool :=
  orDefault (DropZoneConfig.disabled config) false.

Definition isAcceptedType (config : DropZoneConfig T) (type : DragType)
    : bool :=
  if disabled config then false
  else
    let acceptTypes :=
      match DropZoneConfig.accept config with
      | AcceptMany types => types
      | AcceptOne t => [t]
      end in
    existsb (String.eqb type) acceptTypes.

Definition isPositionOver (elementRef : option Rect)
    (position : option Point) : bool :=
  match position, elementRef with
  | Some p, Some rect => Utils.isPointInRect p rect
  | _, _ => false
  end.

Definition checkCanDrop (config : DropZoneConfig T) (payload : T) : bool :=
  if disabled config then false
  else
    match DropZoneConfig.canDrop config with
    | Some canDrop => canDrop payload
    | None => true
    end.

(** The branch of the drag-state effect for "not dragging or drag type
    not accepted". *)
Definition notCandidate (z : DropZone T)
    : DropZone T * list (ZoneOutput T) :=
  if DropZone.prevIsOverRef z then
    (DropZone.mk (DropZone.config z) (DropZone.elementRef z)
                 (DropState.mk false false None) false,
     [Callback OnDragLeave; CallSetOverDropZone None])
  else (z, []).

(** The drag-state effect, run with the drag state of the render. *)
Definition dragStateEffect (dragState : DragState T) (z : DropZone T)
    : DropZone T * list (ZoneOutput T) :=
  let currentConfig := DropZone.config z in
  match DragState.data dragState with
  | None => notCandidate z
  | Some data =>
      if negb (DragState.isDragging dragState)
         || negb (isAcceptedType currentConfig (DragData.type data))
      then notCandidate z
      else
        let isOver :=
          isPositionOver (DropZone.elementRef z)
                         (DragState.position dragState) in
        let canDropHere :=
          isOver && checkCanDrop currentConfig (DragData.payload data) in
        if negb (Bool.eqb isOver (DropZone.prevIsOverRef z)) then
          if isOver then
            (DropZone.mk currentConfig (DropZone.elementRef z)
                         (DropState.mk true canDropHere (Some data)) isOver,
             [CallSetOverDropZone (Some (DropZoneConfig.id currentConfig));
              Callback (OnDragEnter (DragData.payload data))])
          else
            (DropZone.mk currentConfig (DropZone.elementRef z)
                         (DropState.mk false false None) isOver,
             [CallSetOverDropZone None; Callback OnDragLeave])
        else if isOver then
          (DropZone.mk currentConfig (DropZone.elementRef z)
                       (DropState.mk (DropState.isOver (DropZone.dropState z))
                                     canDropHere (Some data))
                       (DropZone.prevIsOverRef z),
           match DragState.position dragState with
           | Some position =>
               [Callback (OnDragOver (DragData.payload data) position)]
           | None => []
           end)
        else (z, [])
  end.

(** The capture-phase [mouseup]/[touchend] listener; it reads the refs
    [dropStateRef] and [dragStateRef]. *)
Definition handleDrop (currentDragState : DragState T) (z : DropZone T)
    : list (ZoneCallback T) :=
  let currentDropState := DropZone.dropState z in
  match DragState.data currentDragState,
        DragState.position currentDragState with
  | Some data, Some position =>
      if DropState.isOver currentDropState
         && DropState.canDrop currentDropState
      then [OnDrop (DragData.payload data) position]
      else []
  | _, _ => []
  end.

(** What a release does at this zone: [handleDrop] is attached to the
    document only while [dragState.isDragging]. *)
Definition onRelease (dragState : DragState T) (z : DropZone T)
    : list (ZoneCallback T) :=
  if negb (DragState.isDragging dragState) then []
  else handleDrop dragState z.

(** A zone as [useDropZone] first renders it. *)
Definition mount (config : DropZoneConfig T) (element : option Rect)
    : DropZone T :=
  DropZone.mk config element (DropState.mk false false None) false.

End Hook.
End UseDropZone.

(** ** The event loop *)

Module App.

(** What the browser delivers.  [rect] in [MouseDown], [TouchStart] and
  [KeyDown] is the bounding rectangle of the draggable element, the
  target of the event; a [KeyDown] with no target goes to the document
  alone.  [Reflow] is a change of layout: the element of a drop zone gets
  a new bounding rectangle. *)
Inductive Input : Type :=
| MouseDown (button : Z) (client : Point) (rect : Rect)
| TouchStart (touch : Point) (rect : Rect)
| KeyDown (key : string) (target : option Rect)
| MouseMove (client : Point)
| TouchMove (touch : option Point)
| MouseUp
| TouchEnd
| TouchCancel
| TimeoutFires (id : nat)
| Reflow (zone : DropZoneId) (rect : Rect).

Section Loop.
Context {T : Type}.

Definition emit (id : DropZoneId) (out : ZoneOutput T) : Run.M T unit :=
  match out with
  | Callback cb => Run.observe [Zone id cb]
  | CallSetOverDropZone over => Provider.setOverDropZone over
  end.

Fixpoint emitAll (id : DropZoneId) (outs : list (ZoneOutput T))
    : Run.M T unit :=
  match outs with
  | [] => Run.ret tt
  | out :: rest => emit id out ;; emitAll id rest
  end.

Fixpoint runEffects (snapshot : DragState T) (zs : list (DropZone T))
    : Run.M T (list (DropZone T)) :=
  match zs with
  | [] => Run.ret []
  | z :: rest =>
      let (z', outs) := UseDropZone.dragStateEffect snapshot z in
      emitAll (DropZoneConfig.id (DropZone.config z)) outs ;;
      rest' <- runEffects snapshot rest ;;
      Run.ret (z' :: rest')
  end.

(** The render after a handler: when the effect's dependencies changed,
    every drop zone runs its drag-state effect. *)
Definition flushEffects : Run.M T unit :=
  due <- Run.gets (@World.effectsDue T) ;;
  if due then
    snapshot <- Run.gets (@World.dragState T) ;;
    zs <- Run.gets (@World.dropZones T) ;;
    zs' <- runEffects snapshot zs ;;
    Run.modify (World.setDropZones zs') ;;
    Run.modify (World.setEffectsDue false)
  else Run.ret tt.

(** The drop zones' capture-phase release listeners. *)
Definition dropListeners : Run.M T unit :=
  dragState <- Run.gets (@World.dragState T) ;;
  zs <- Run.gets (@World.dropZones T) ;;
  Run.observe
    (flat_map
       (fun z => map (Zone (DropZoneConfig.id (DropZone.config z)))
                     (UseDropZone.onRelease dragState z))
       zs).

Definition reflow (zone : DropZoneId) (rect : Rect) (z : DropZone T)
    : DropZone T :=
  if String.eqb (DropZoneConfig.id (DropZone.config z)) zone then
    match DropZone.elementRef z with
    | Some _ =>
        DropZone.mk (DropZone.config z) (Some rect) (DropZone.dropState z)
                    (DropZone.prevIsOverRef z)
    | None => z
    end
  else z.

Definition lookupTimeout (id : nat) (w : World T) : option Timeout :=
  option_map snd
    (find (fun e => Nat.eqb (fst e) id) (World.timeouts w)).

Definition handle (ev : Input) : Run.M T unit :=
  match ev with
  | MouseDown button client rect =>
      UseDraggable.handleMouseDown button client rect
  | TouchStart touch rect => UseDraggable.handleTouchStart touch rect
  | KeyDown key target =>
      match target with
      | Some rect => UseDraggable.handleKeyDown key rect
      | None => Run.ret tt
      end ;;
      Provider.handleKeyDown key
  | MouseMove client =>
      listening <- Run.gets UseDraggable.listening ;;
      if listening then UseDraggable.handleMove client else Run.ret tt
  | TouchMove touch =>
      listening <- Run.gets UseDraggable.listening ;;
      match touch with
      | Some position =>
          if listening then UseDraggable.handleMove position
          else Run.ret tt
      | None => Run.ret tt
      end
  | MouseUp | TouchEnd =>
      listening <- Run.gets UseDraggable.listening ;;
      dropListeners ;;
      if listening then UseDraggable.handleDragEnd else Run.ret tt
  | TouchCancel =>
      listening <- Run.gets UseDraggable.listening ;;
      if listening then UseDraggable.handleCancel else Run.ret tt
  | TimeoutFires id =>
      due <- Run.gets (lookupTimeout id) ;;
      match due with
      | Some t =>
          UseDraggable.clearTimeout id ;;
          UseDraggable.onTimeout (Timeout.position t) (Timeout.offset t)
      | None => Run.ret tt
      end
  | Reflow zone rect =>
      Run.modify (fun w =>
        World.setDropZones (map (reflow zone rect) (World.dropZones w)) w)
  end.

(** One event and the render that follows it. *)
Definition dispatch (ev : Input) : Run.M T unit :=
  handle ev ;; flushEffects.

(** A sequence of events, the tree rendering after each of them. *)
Fixpoint dispatchAll (evs : list Input) : Run.M T unit :=
  match evs with
  | [] => Run.ret tt
  | ev :: rest => dispatch ev ;; dispatchAll rest
  end.

(** The tree as first rendered. *)
Definition mount (config : DraggableConfig T) (zs : list (DropZone T))
    : World T :=
  World.mk INITIAL_DRAG_STATE config (Draggable.mk false false None) zs
           [] 1%nat false.

End Loop.
End App.

(** ** Vocabulary of the properties *)

(** What every drag state the coordinator can reach satisfies: the phase is
    [idle] or [dragging], [isDragging] says which, a dragging state has its
    item and both positions, an idle state has none of them and zero
    [delta] and [offset]. *)
Definition Invariant {T : Type} (s : DragState T) : Prop :=
  (DragState.phase s = DragPhase.idle \/
   DragState.phase s = DragPhase.dragging) /\
  (DragState.isDragging s = true <->
   DragState.phase s = DragPhase.dragging) /\
  (DragState.phase s = DragPhase.dragging ->
   DragState.data s <> None /\
   DragState.position s <> None /\
   DragState.initialPosition s <> None) /\
  (DragState.phase s = DragPhase.idle ->
   DragState.data s = None /\
   DragState.position s = None /\
   DragState.initialPosition s = None /\
   DragState.delta s = Point.mk 0 0 /\
   DragState.offset s = Point.mk 0 0).

(** The ref [prevIsOverRef] and the state [dropState.isOver] of a drop zone
    agree: so it is at mount, and the drag-state effect keeps it so. *)
Definition inStep {T : Type} (z : DropZone T) : Prop :=
  DropZone.prevIsOverRef z = DropState.isOver (DropZone.dropState z).

(** The parts of a trace. *)
Section Projections.
Context {T : Type}.

(** The calls of [startDrag], [updateDrag], [endDrag] and [cancelDrag]. *)
Fixpoint commands (tr : list (Observation T)) : list (DnDContext.Operation T) :=
  match tr with
  | [] => []
  | Called (DnDContext.SetOverDropZone _) :: rest => commands rest
  | Called op :: rest => op :: commands rest
  | _ :: rest => commands rest
  end.

(** The events handed to the provider's callbacks. *)
Fixpoint fired (tr : list (Observation T)) : list (DragEvent T) :=
  match tr with
  | [] => []
  | Fired e :: rest => e :: fired rest
  | _ :: rest => fired rest
  end.

(** The calls of [onDrop]: zone, payload, position. *)
Fixpoint drops (tr : list (Observation T))
    : list (DropZoneId * T * Point) :=
  match tr with
  | [] => []
  | Zone id (OnDrop payload position) :: rest =>
      (id, payload, position) :: drops rest
  | _ :: rest => drops rest
  end.
End Projections.

(** A trace with no call of [startDrag], [updateDrag], [endDrag] or
    [cancelDrag], no event for the provider and no [onDrop]. *)
Definition quiet {T : Type} (tr : list (Observation T)) : Prop :=
  commands tr = [] /\ fired tr = [] /\ drops tr = [].

(** A drag state with another hovered drop zone, and the worlds that differ
    from a given one in the hovered drop zone alone. *)
Definition withOver {T : Type} (over : option DropZoneId) (s : DragState T)
    : DragState T :=
  DragState.mk (DragState.phase s) (DragState.isDragging s)
               (DragState.data s) (DragState.position s)
               (DragState.initialPosition s) (DragState.offset s)
               (DragState.delta s) over.

Definition sameButOver {T : Type} (w w' : World T) : Prop :=
  exists over,
    w' = World.setDragState (withOver over (World.dragState w)) w.

(** An output of the drag-state effect other than a call of [onDrop]. *)
Definition notDrop {T : Type} (out : ZoneOutput T) : Prop :=
  match out with
  | Callback (OnDrop _ _) => False
  | _ => True
  end.

(** ** A sample tree

    The block and the grid of the game: a draggable tile of type "block"
    whose element is the square (40,40)-(60,60), and a drop zone "grid" on
    the square (0,0)-(400,400) that accepts blocks. *)

Module Sample.

Definition Shape : Type := list (list bool).

Definition block (activation : option ActivationConstraints)
    : DraggableConfig Shape :=
  DraggableConfig.mk "b1" "block" [[true]] None activation.

Definition item : DragData Shape := DragData.mk "b1" "block" [[true]].

Definition tile : Rect := Rect.mk 40 40 60 60 20 20.

Definition grid : DropZone Shape :=
  UseDropZone.mount
    (DropZoneConfig.mk "grid" (AcceptOne "block") (Some (fun _ => true))
                       None)
    (Some (Rect.mk 0 0 400 400 400 400)).

(** [{ distance: 0 }], [{ distance: 10 }], [{ delay: 300, tolerance: 5 }] *)
Definition immediate : option ActivationConstraints :=
  Some (ActivationConstraints.mk (Some 0) None None).
Definition byDistance : option ActivationConstraints :=
  Some (ActivationConstraints.mk (Some 10) None None).
Definition byDelay : option ActivationConstraints :=
  Some (ActivationConstraints.mk None (Some 300) (Some 5)).

End Sample.

(** The events a hand on the pointer alone can cause, and the timeouts. *)
Definition passive (ev : App.Input) : Prop :=
  match ev with
  | App.MouseMove _ | App.TouchMove _ | App.MouseUp | App.TouchEnd
  | App.TouchCancel | App.TimeoutFires _ => True
  | _ => False
  end.

(** A world at rest: no drag, the draggable neither pending nor holding a
    drag of its own ([isOurDragRef] is false, as it is at the mount and
    after a release or a touch cancel, but not after a drag that Escape
    cancelled), no timeout scheduled, no render outstanding. *)
Definition atRest {T : Type} (w : World T) : Prop :=
  DragState.isDragging (World.dragState w) = false /\
  World.draggable w = Draggable.mk false false None /\
  World.timeouts w = [] /\
  World.effectsDue w = false.

(** The activation constraints in force, defaults applied: [delay] and
    [distance] as [handleDragStart] reads them. *)
Definition minDelay {T : Type} (w : World T) : Q :=
  orDefault (ActivationConstraints.delay (UseDraggable.activation w)) 0.
Definition minDistance {T : Type} (w : World T) : Q :=
  orDefault (ActivationConstraints.distance (UseDraggable.activation w)) 0.

(** The drag state [startDrag] builds. *)
Definition started {T : Type} (data : DragData T) (position offset : Point)
    : DragState T :=
  DragState.mk DragPhase.dragging true (Some data) (Some position)
               (Some position) offset (Point.mk 0 0) None.

(** The verdict of a drop zone on a drag state: a drag is active, its type
    is accepted, its position is over the element of the zone as it lies
    now, and the payload can be dropped. *)
Definition accepts {T : Type} (s : DragState T) (z : DropZone T) : bool :=
  match DragState.data s with
  | Some data =>
      DragState.isDragging s
      && UseDropZone.isAcceptedType (DropZone.config z) (DragData.type data)
      && UseDropZone.isPositionOver (DropZone.elementRef z)
                                    (DragState.position s)
      && UseDropZone.checkCanDrop (DropZone.config z) (DragData.payload data)
  | None => false
  end.

(** A settled world: no render is outstanding and the state of every drop
    zone is in step with the drag state and the layout as they are now. *)
Definition settled {T : Type} (w : World T) : Prop :=
  World.effectsDue w = false /\
  Forall (fun z => inStep z /\
                   DropState.isOver (DropZone.dropState z)
                   && DropState.canDrop (DropZone.dropState z)
                   = accepts (World.dragState w) z)
         (World.dropZones w).

(** The events that leave the layout as it is. *)
Definition static (ev : App.Input) : Prop :=
  match ev with
  | App.Reflow _ _ => False
  | _ => True
  end.

(** The fields of the drag state the drop zones' effect depends on. *)
Definition effectDeps {T : Type} (s : DragState T)
    : bool * option (DragData T) * option Point :=
  (DragState.isDragging s, DragState.data s, DragState.position s).

(** A handler that leaves the drop zones alone, never takes back an
    outstanding render, and requests one whenever it changes a field the
    drop zones' effect depends on. *)
Definition tame {T A : Type} (m : Run.M T A) : Prop :=
  forall w : World T,
    World.dropZones (Run.world (m w)) = World.dropZones w /\
    (World.effectsDue w = true ->
     World.effectsDue (Run.world (m w)) = true) /\
    (World.effectsDue (Run.world (m w)) = false ->
     effectDeps (World.dragState (Run.world (m w)))
     = effectDeps (World.dragState w)).

(** A rectangle whose right and bottom edges are exactly the left and top
    edges plus the extents, and whose extents are not negative.
    [getBoundingClientRect], which [getRect] copies field by field, yields
    such a rectangle up to the rounding of the two sums. *)
Definition isBoundingRect (r : Rect) : Prop :=
  Rect.right r == Rect.left r + Rect.width r /\
  Rect.bottom r == Rect.top r + Rect.height r /\
  0 <= Rect.width r /\ 0 <= Rect.height r.

(** The width and height of a rectangle are the differences of its
    edges. *)
Definition extentsOfEdges (r : Rect) : Prop :=
  Rect.right r - Rect.left r == Rect.width r /\
  Rect.bottom r - Rect.top r == Rect.height r.

(** A point with integer coordinates.  Between two such points of ordinary
    size the differences, squares and sum that [distance] takes are exact
    in doubles too, and its rounded square root compares with an integer
    threshold as the exact distance does. *)
Definition integral (p : Point) : Prop :=
  exists x y : Z, Point.x p == inject_Z x /\ Point.y p == inject_Z y.

(** Two points with equal coordinates. *)
Definition samePoint (p q : Point) : Prop :=
  Point.x p == Point.x q /\ Point.y p == Point.y q.

(** The events of a stream fit together, [current] being the item of the
    open drag, if any: a drag-start opens a drag of its item; a drag-move
    and a drag-end carry the item of the open drag, and a drag-end closes
    it. *)
Fixpoint coherent {T : Type} (current : option (DragData T))
    (evs : list (DragEvent T)) : Prop :=
  match evs with
  | [] => True
  | DragStartEvent data _ :: rest => coherent (Some data) rest
  | DragMoveEvent data _ _ :: rest =>
      current = Some data /\ coherent current rest
  | DragEndEvent data _ _ _ :: rest =>
      current = Some data /\ coherent None rest
  end.

(** Positions and delta agree: delta is position minus initial position. *)
Definition deltaAgrees {T : Type} (s : DragState T) : Prop :=
  forall position initialPosition,
    DragState.position s = Some position ->
    DragState.initialPosition s = Some initialPosition ->
    samePoint (DragState.delta s) (Utils.delta initialPosition position).

(** The coordinator operations other than [startDrag]. *)
Definition notStart {T : Type} (op : DnDContext.Operation T) : Prop :=
  match op with
  | DnDContext.StartDrag _ _ _ => False
  | _ => True
  end.

(** A world in the middle of a drag that the draggable owns: the draggable
    is not pending, [isOurDragRef] is set, no timeout is scheduled, no
    render is outstanding, and the coordinator holds the drag of the
    draggable's item that began at [initial] with grab offset [offset] and
    is now at [current]. *)
Definition owned {T : Type} (w : World T) (initial offset current : Point)
    : Prop :=
  World.draggable w = Draggable.mk false true None /\
  World.timeouts w = [] /\
  World.effectsDue w = false /\
  exists over del,
    World.dragState w
    = DragState.mk DragPhase.dragging true (Some (UseDraggable.dragData w))
                   (Some current) (Some initial) offset del over /\
    samePoint del (Utils.delta initial current).

(** The events of a gesture of the pointer, by mouse or by touch: a press
    of the primary button or a touch on the draggable element, a movement,
    a release. *)
Module Gesture.
Definition down (touch : bool) (client : Point) (rect : Rect) : App.Input :=
  if touch then App.TouchStart client rect else App.MouseDown 0 client rect.
Definition move (touch : bool) (p : Point) : App.Input :=
  if touch then App.TouchMove (Some p) else App.MouseMove p.
Definition up (touch : bool) : App.Input :=
  if touch then App.TouchEnd else App.MouseUp.
End Gesture.

(** The presses and keys a draggable does not take: any press while it is
    disabled, a mouse button other than the primary one, and, with no drag
    active, a key other than Space and Enter. *)
Definition ignored {T : Type} (w : World T) (ev : App.Input) : Prop :=
  match ev with
  | App.MouseDown button _ _ =>
      UseDraggable.disabled w = true \/ button <> 0%Z
  | App.TouchStart _ _ => UseDraggable.disabled w = true
  | App.KeyDown key target =>
      DragState.isDragging (World.dragState w) = false /\
      (target = None \/ UseDraggable.disabled w = true \/
       (key <> " " /\ key <> "Enter"))
  | _ => False
  end.

(** The callbacks among the outputs of a drop zone's effect, and the
    hovered drop zones it asks the coordinator for. *)
Fixpoint callbacks {T : Type} (outs : list (ZoneOutput T))
    : list (ZoneCallback T) :=
  match outs with
  | [] => []
  | Callback cb :: rest => cb :: callbacks rest
  | CallSetOverDropZone _ :: rest => callbacks rest
  end.

Fixpoint hovers {T : Type} (outs : list (ZoneOutput T))
    : list (option DropZoneId) :=
  match outs with
  | [] => []
  | Callback _ :: rest => hovers rest
  | CallSetOverDropZone id :: rest => id :: hovers rest
  end.

(** The renders of one drop zone in a row: each runs the drag-state effect
    with the drag state of the render, the element of the zone having the
    bounding rectangle given with it (none when the zone has no element). *)
Fixpoint renders {T : Type} (steps : list (DragState T * option Rect))
    (z : DropZone T) : DropZone T * list (ZoneOutput T) :=
  match steps with
  | [] => (z, [])
  | (dragState, rect) :: rest =>
      let (z1, outs1) :=
        UseDropZone.dragStateEffect dragState
          (DropZone.mk (DropZone.config z) rect (DropZone.dropState z)
                       (DropZone.prevIsOverRef z)) in
      let (z2, outs2) := renders rest z1 in
      (z2, outs1 ++ outs2)
  end.

(** The order of a zone's hover callbacks, [over] saying whether the zone
    is entered: [onDragEnter] comes when it is not, [onDragOver] and
    [onDragLeave] when it is, and [onDrop] does not come from the effect. *)
Fixpoint protocol {T : Type} (over : bool) (cbs : list (ZoneCallback T))
    : Prop :=
  match cbs with
  | [] => True
  | OnDragEnter _ :: rest => over = false /\ protocol true rest
  | OnDragOver _ _ :: rest => over = true /\ protocol true rest
  | OnDragLeave :: rest => over = true /\ protocol false rest
  | OnDrop _ _ :: _ => False
  end.

(** The hovered drop zones a zone asks for go with its callbacks: its own
    id with each [onDragEnter], none with each [onDragLeave]. *)
Definition hoverOf {T : Type} (id : DropZoneId) (cb : ZoneCallback T)
    : list (option DropZoneId) :=
  match cb with
  | OnDragEnter _ => [Some id]
  | OnDragLeave => [None]
  | _ => []
  end.

(** A drag state hovers over a rectangle for a zone: a drag is active, at
    [position] inside the rectangle, of an item with [payload] whose type
    the zone accepts. *)
Definition hovering {T : Type} (config : DropZoneConfig T)
    (dragState : DragState T) (rect : Rect) (payload : T)
    (position : Point) : Prop :=
  DragState.isDragging dragState = true /\
  DragState.position dragState = Some position /\
  Utils.isPointInRect position rect = true /\
  exists data,
    DragState.data dragState = Some data /\
    DragData.payload data = payload /\
    UseDropZone.isAcceptedType config (DragData.type data) = true.

(** ** DragOverlay.tsx *)

Module DragOverlay.

(** The entries of the overlay's CSS transform: [translate3d(x px, y px, 0)],
    [translate(-50%, -50%)] and [scale(s)]. *)
Inductive Transform : Type :=
| Translate3d (x y : Q)
| TranslateBack
| Scale (scale : Q).

(** The transform list of the overlay, [None] when the component renders
    nothing. *)
Definition transforms {T : Type} (centered : bool) (scale : Q)
    (dragState : DragState T) : option (list Transform) :=
  if negb (DragState.isDragging dragState) then None
  else
    match DragState.position dragState, DragState.data dragState with
    | Some position, Some _ =>
        let offset := DragState.offset dragState in
        let x := if centered then Point.x position
                 else Point.x position - Point.x offset in
        let y := if centered then Point.y position
                 else Point.y position - Point.y offset in
        Some ([Translate3d x y]
              ++ (if centered then [TranslateBack] else [])
              ++ (if negb (Qeq_bool scale 1) then [Scale scale] else []))
    | _, _ => None
    end.

End DragOverlay.

(** * The game on top of the engine

    The grid of the game is the one drop zone of the tree: its [onDrop] is
    [handleDrop] of [useDragDrop.ts], which turns the position of the
    pointer into a cell of the grid and asks [gameLogic.ts] whether the
    block fits there.

    Grid positions and loop indices are integers [Z]: the positions the
    game computes are results of [Math.floor] and of loop counters.  An
    array is a list; reading an index that is not one of the array's gives
    [undefined], and the functions below say what the source does with it:
    [None] is a thrown [TypeError] (a property of [undefined] is read or
    set) or, where stated, a write past the end of a row, which makes the
    JavaScript array grow and is not covered. *)

(** ** types/game.ts *)

Module Position.
Record t : Type := mk { row : Z; col : Z }.
End Position.
Abbreviation Position := Position.t.

Module Cell.
Record t : Type := mk { filled : bool; color : option string }.
End Cell.
Abbreviation Cell := Cell.t.

Definition ShapeMatrix : Type := list (list bool).

Module Block.
Record t : Type := mk {
  id : string; shape : ShapeMatrix; color : string; name : string }.
End Block.
Abbreviation Block := Block.t.

Module TrayBlock.
Record t : Type := mk { block : Block; used : bool }.
End TrayBlock.
Abbreviation TrayBlock := TrayBlock.t.

Module Line.
Inductive Kind : Type := row | col.
Record t : Type := mk { type : Kind; index : Z }.
End Line.
Abbreviation Line := Line.t.

Module PlacementResult.
Record t : Type := mk {
  newGrid : list (list Cell);
  linesCleared : list Line;
  pointsEarned : Q;
  isCombo : bool }.
End PlacementResult.
Abbreviation PlacementResult := PlacementResult.t.

Definition GRID_SIZE : Z := 8.

(** ** game/gameLogic.ts *)

Module GameLogic.

Definition Grid : Type := list (list Cell).

(** [array[i]]: [None] is [undefined]. *)
Definition index {A : Type} (array : list A) (i : Z) : option A :=
  if (i <? 0)%Z then None else nth_error array (Z.to_nat i).

(** [grid[r][c]]: [None] when it is [undefined] or reading it throws. *)
Definition cellAt (grid : Grid) (r c : Z) : option Cell :=
  match index grid r with
  | Some cells => index cells c
  | None => None
  end.

Fixpoint replace {A : Type} (array : list A) (i : nat) (v : A)
    : option (list A) :=
  match array, i with
  | [], _ => None
  | _ :: rest, O => Some (v :: rest)
  | a :: rest, S i' =>
      match replace rest i' v with
      | Some rest' => Some (a :: rest')
      | None => None
      end
  end.

(** [newGrid[r][c] = v].  [None] when [newGrid[r]] is [undefined], where
    the source throws, and when [c] is not an index of the row, where the
    source stores the value outside the cells of the row. *)
Definition store (newGrid : Grid) (r c : Z) (v : Cell) : option Grid :=
  if (r <? 0)%Z || (c <? 0)%Z then None
  else
    match nth_error newGrid (Z.to_nat r) with
    | Some cells =>
        match replace cells (Z.to_nat c) v with
        | Some cells' => replace newGrid (Z.to_nat r) cells'
        | None => None
        end
    | None => None
    end.

Fixpoint repeatCell {A : Type} (n : nat) (v : A) : list A :=
  match n with
  | O => []
  | S n' => v :: repeatCell n' v
  end.

(** [Array.from({ length }, ...)] for a length that is a natural number. *)
Definition createEmptyGrid (rows cols : nat) : Grid :=
  repeatCell rows (repeatCell cols (Cell.mk false None)).

Definition isWithinBounds (position : Position) (rows cols : Z) : bool :=
  (Position.row position >=? 0)%Z && (Position.row position <? rows)%Z &&
  (Position.col position >=? 0)%Z && (Position.col position <? cols)%Z.

(** The inner loop of [canPlaceBlock] over [shape[r]], from column [c] on:
    [Some false] is [return false], [Some true] the end of the loop. *)
Fixpoint canPlaceRow (grid : Grid) (cells : list bool) (r c : Z)
    (position : Position) : option bool :=
  match cells with
  | [] => Some true
  | cell :: rest =>
      if cell then
        let targetRow := (Position.row position + r)%Z in
        let targetCol := (Position.col position + c)%Z in
        if negb (isWithinBounds (Position.mk targetRow targetCol)
                                GRID_SIZE GRID_SIZE)
        then Some false
        else
          match cellAt grid targetRow targetCol with
          | None => None
          | Some target =>
              if Cell.filled target then Some false
              else canPlaceRow grid rest r (c + 1)%Z position
          end
      else canPlaceRow grid rest r (c + 1)%Z position
  end.

(** The outer loop, from row [r] of the shape on. *)
Fixpoint canPlaceRows (grid : Grid) (shape : ShapeMatrix) (r : Z)
    (position : Position) : option bool :=
  match shape with
  | [] => Some true
  | cells :: rest =>
      match canPlaceRow grid cells r 0 position with
      | Some true => canPlaceRows grid rest (r + 1)%Z position
      | other => other
      end
  end.

Definition canPlaceBlock (grid : Grid) (block : Block)
    (position : Position) : option bool :=
  canPlaceRows grid (Block.shape block) 0 position.

Fixpoint placeRow (newGrid : Grid) (cells : list bool) (r c : Z)
    (position : Position) (color : string) : option Grid :=
  match cells with
  | [] => Some newGrid
  | cell :: rest =>
      if cell then
        let targetRow := (Position.row position + r)%Z in
        let targetCol := (Position.col position + c)%Z in
        match store newGrid targetRow targetCol
                    (Cell.mk true (Some color)) with
        | Some newGrid' => placeRow newGrid' rest r (c + 1)%Z position color
        | None => None
        end
      else placeRow newGrid rest r (c + 1)%Z position color
  end.

Fixpoint placeRows (newGrid : Grid) (shape : ShapeMatrix) (r : Z)
    (position : Position) (color : string) : option Grid :=
  match shape with
  | [] => Some newGrid
  | cells :: rest =>
      match placeRow newGrid cells r 0 position color with
      | Some newGrid' => placeRows newGrid' rest (r + 1)%Z position color
      | None => None
      end
  end.

(** The copy [grid.map((row) => row.map((cell) => ({ ...cell })))] is the
    grid itself, value for value. *)
Definition placeBlock (grid : Grid) (block : Block) (position : Position)
    : option Grid :=
  let newGrid := grid in
  placeRows newGrid (Block.shape block) 0 position (Block.color block).

(** The first loop of [findCompletedLines], from row [r] on. *)
Fixpoint completedRows (grid : Grid) (r : Z) : list Line :=
  match grid with
  | [] => []
  | cells :: rest =>
      (if forallb Cell.filled cells then [Line.mk Line.row r] else [])
      ++ completedRows rest (r + 1)%Z
  end.

(** The loop over the rows for column [c], with its [break]. *)
Fixpoint columnFilled (grid : Grid) (c : Z) : option bool :=
  match grid with
  | [] => Some true
  | cells :: rest =>
      match index cells c with
      | None => None
      | Some cell =>
          if negb (Cell.filled cell) then Some false
          else columnFilled rest c
      end
  end.

(** The second loop, over [n] columns from column [c] on. *)
Fixpoint completedCols (grid : Grid) (n : nat) (c : Z)
    : option (list Line) :=
  match n with
  | O => Some []
  | S n' =>
      match columnFilled grid c with
      | None => None
      | Some filled =>
          match completedCols grid n' (c + 1)%Z with
          | None => None
          | Some lines =>
              Some ((if filled then [Line.mk Line.col c] else []) ++ lines)
          end
      end
  end.

Definition findCompletedLines (grid : Grid) : option (list Line) :=
  let cols := match grid with
              | first :: _ => List.length first
              | [] => O
              end in
  let rowLines := completedRows grid 0 in
  match completedCols grid cols 0 with
  | Some colLines => Some (rowLines ++ colLines)
  | None => None
  end.

(** [cellsToClear.add(key)]: a [Set] keeps the order of first insertion. *)
Definition addKey (key : Z * Z) (cellsToClear : list (Z * Z))
    : list (Z * Z) :=
  if existsb (fun k => Z.eqb (fst k) (fst key) && Z.eqb (snd k) (snd key))
             cellsToClear
  then cellsToClear
  else cellsToClear ++ [key].

(** [for (let i = from; i < from + n; i++) cellsToClear.add(key i)] *)
Fixpoint addKeys (key : Z -> Z * Z) (n : nat) (from : Z)
    (cellsToClear : list (Z * Z)) : list (Z * Z) :=
  match n with
  | O => cellsToClear
  | S n' => addKeys key n' (from + 1)%Z (addKey (key from) cellsToClear)
  end.

(** The loop over the lines; [None] when [newGrid[0]] is [undefined]. *)
Fixpoint collect (newGrid : Grid) (lines : list Line)
    (cellsToClear : list (Z * Z)) : option (list (Z * Z)) :=
  match lines with
  | [] => Some cellsToClear
  | line :: rest =>
      match Line.type line with
      | Line.row =>
          match newGrid with
          | first :: _ =>
              collect newGrid rest
                (addKeys (fun c => (Line.index line, c))
                         (List.length first) 0 cellsToClear)
          | [] => None
          end
      | Line.col =>
          collect newGrid rest
            (addKeys (fun r => (r, Line.index line))
                     (List.length newGrid) 0 cellsToClear)
      end
  end.

Fixpoint clearCells (newGrid : Grid) (cellsToClear : list (Z * Z))
    : option Grid :=
  match cellsToClear with
  | [] => Some newGrid
  | (r, c) :: rest =>
      match store newGrid r c (Cell.mk false None) with
      | Some newGrid' => clearCells newGrid' rest
      | None => None
      end
  end.

Definition clearLines (grid : Grid) (lines : list Line) : option Grid :=
  match lines with
  | [] => Some grid
  | _ =>
      let newGrid := grid in
      match collect newGrid lines [] with
      | Some cellsToClear => clearCells newGrid cellsToClear
      | None => None
      end
  end.

(** The loops of [canPlaceAnyBlock] and [findValidDropPositions] over the
    cells of the grid: [n] columns of row [r] from column [c] on, the rows
    from row [r] on.  The number of columns is [grid[0].length]. *)
Fixpoint validInRow (grid : Grid) (block : Block) (r : Z) (n : nat) (c : Z)
    : option (list Position) :=
  match n with
  | O => Some []
  | S n' =>
      match canPlaceBlock grid block (Position.mk r c) with
      | None => None
      | Some fits =>
          match validInRow grid block r n' (c + 1)%Z with
          | None => None
          | Some positions =>
              Some ((if fits then [Position.mk r c] else []) ++ positions)
          end
      end
  end.

Fixpoint validFromRow (grid : Grid) (block : Block) (cols : nat) (n : nat)
    (r : Z) : option (list Position) :=
  match n with
  | O => Some []
  | S n' =>
      match validInRow grid block r cols 0 with
      | None => None
      | Some here =>
          match validFromRow grid block cols n' (r + 1)%Z with
          | None => None
          | Some below => Some (here ++ below)
          end
      end
  end.

(** With an empty grid the loop over the rows never runs and
    [grid[0].length] is not read. *)
Definition findValidDropPositions (grid : Grid) (block : Block)
    : option (list Position) :=
  match grid with
  | [] => Some []
  | first :: _ =>
      validFromRow grid block (List.length first) (List.length grid) 0
  end.

Fixpoint anyInRow (grid : Grid) (block : Block) (r : Z) (n : nat) (c : Z)
    : option bool :=
  match n with
  | O => Some false
  | S n' =>
      match canPlaceBlock grid block (Position.mk r c) with
      | None => None
      | Some true => Some true
      | Some false => anyInRow grid block r n' (c + 1)%Z
      end
  end.

Fixpoint anyFromRow (grid : Grid) (block : Block) (cols : nat) (n : nat)
    (r : Z) : option bool :=
  match n with
  | O => Some false
  | S n' =>
      match anyInRow grid block r cols 0 with
      | None => None
      | Some true => Some true
      | Some false => anyFromRow grid block cols n' (r + 1)%Z
      end
  end.

Fixpoint anyBlock (grid : Grid) (availableBlocks : list TrayBlock)
    : option bool :=
  match availableBlocks with
  | [] => Some false
  | trayBlock :: rest =>
      match grid with
      | [] => anyBlock grid rest
      | first :: _ =>
          match anyFromRow grid (TrayBlock.block trayBlock)
                           (List.length first) (List.length grid) 0 with
          | None => None
          | Some true => Some true
          | Some false => anyBlock grid rest
          end
      end
  end.

Definition canPlaceAnyBlock (grid : Grid) (tray : list TrayBlock)
    : option bool :=
  let availableBlocks := filter (fun tb => negb (TrayBlock.used tb)) tray in
  anyBlock grid availableBlocks.

Definition checkGameOver (grid : Grid) (tray : list TrayBlock)
    : option bool :=
  option_map negb (canPlaceAnyBlock grid tray).

(** [blocksPlaced] and [linesCleared] are numbers; [Math.floor] yields an
    integer. *)
Definition calculateScore (blocksPlaced linesCleared : Q) (isCombo : bool)
    : Q :=
  let score := blocksPlaced in
  if linesCleared >? 0 then
    let linePoints := linesCleared * 10 * linesCleared in
    let score := score + linePoints in
    if isCombo then inject_Z (Qfloor (score * (3 # 2))) else score
  else score.

Fixpoint countRow (cells : list bool) (count : nat) : nat :=
  match cells with
  | [] => count
  | cell :: rest => countRow rest (if cell then S count else count)
  end.

Fixpoint countRows (shape : ShapeMatrix) (count : nat) : nat :=
  match shape with
  | [] => count
  | cells :: rest => countRows rest (countRow cells count)
  end.

Definition getBlockCellCount (block : Block) : nat :=
  countRows (Block.shape block) O.

Definition processPlacement (grid : Grid) (block : Block)
    (position : Position) (previousLinesCleared : bool)
    : option PlacementResult :=
  match placeBlock grid block position with
  | None => None
  | Some gridAfterPlacement =>
      match findCompletedLines gridAfterPlacement with
      | None => None
      | Some lines =>
          match clearLines gridAfterPlacement lines with
          | None => None
          | Some newGrid =>
              let cellCount := getBlockCellCount block in
              let isCombo :=
                previousLinesCleared
                && Nat.ltb 0 (List.length lines) in
              let pointsEarned :=
                calculateScore (inject_Z (Z.of_nat cellCount))
                               (inject_Z (Z.of_nat (List.length lines)))
                               isCombo in
              Some (PlacementResult.mk newGrid lines pointsEarned isCombo)
          end
      end
  end.

Fixpoint rowCells (cells : list bool) (r c : Z) (position : Position)
    : list Position :=
  match cells with
  | [] => []
  | cell :: rest =>
      (if cell
       then [Position.mk (Position.row position + r)
                         (Position.col position + c)]
       else [])
      ++ rowCells rest r (c + 1)%Z position
  end.

Fixpoint shapeCells (shape : ShapeMatrix) (r : Z) (position : Position)
    : list Position :=
  match shape with
  | [] => []
  | cells :: rest =>
      rowCells cells r 0 position ++ shapeCells rest (r + 1)%Z position
  end.

Definition getBlockCells (block : Block) (position : Position)
    : list Position :=
  shapeCells (Block.shape block) 0 position.

End GameLogic.

(** ** hooks/useDragDrop.ts *)

Module UseDragDrop.

Definition GRID_PADDING : Q := 8.
Definition GRID_GAP : Q := 2.

Definition calculateCellSize (gridElement : option Rect) : Q :=
  match gridElement with
  | None => 40
  | Some rect =>
      let innerWidth := Rect.width rect - GRID_PADDING * 2 in
      let totalGaps := (inject_Z GRID_SIZE - 1) * GRID_GAP in
      (innerWidth - totalGaps) / inject_Z GRID_SIZE
  end.

(** What [cursorToGridPosition] comes to: [null], a position, or a run
    that leaves the embedding, because [block.shape[0]] is [undefined] and
    reading its length throws, or because the cell pitch is 0 and the
    division yields an infinity or [NaN]. *)
Inductive Located : Type :=
| Null
| At (position : Position)
| Fault.

Definition clamp (cell upper : Z) : Z := Z.max 0 (Z.min cell upper).

Definition cursorToGridPosition (gridRef : option Rect)
    (cursorX cursorY : Q) (block : Block) : Located :=
  match gridRef with
  | None => Null
  | Some rect =>
      let innerWidth := Rect.width rect - GRID_PADDING * 2 in
      let totalGaps := (inject_Z GRID_SIZE - 1) * GRID_GAP in
      let cellSize := (innerWidth - totalGaps) / inject_Z GRID_SIZE in
      let cellWithGap := cellSize + GRID_GAP in
      let relX := cursorX - Rect.left rect - GRID_PADDING in
      let relY := cursorY - Rect.top rect - GRID_PADDING in
      match Block.shape block with
      | [] => Fault
      | first :: _ =>
          let blockWidth := Z.of_nat (List.length first) in
          let blockHeight := Z.of_nat (List.length (Block.shape block)) in
          let blockPixelWidth :=
            inject_Z blockWidth * cellSize
            + (inject_Z blockWidth - 1) * GRID_GAP in
          let blockPixelHeight :=
            inject_Z blockHeight * cellSize
            + (inject_Z blockHeight - 1) * GRID_GAP in
          let centerOffsetX := blockPixelWidth / 2 in
          let centerOffsetY := blockPixelHeight / 2 in
          let blockTopLeftX := relX - centerOffsetX in
          let blockTopLeftY := relY - centerOffsetY in
          match Utils.divide blockTopLeftX cellWithGap,
                Utils.divide blockTopLeftY cellWithGap with
          | Some x, Some y =>
              let col := Qfloor x in
              let row := Qfloor y in
              let row := clamp row (GRID_SIZE - blockHeight) in
              let col := clamp col (GRID_SIZE - blockWidth) in
              At (Position.mk row col)
          | _, _ => Fault
          end
      end
  end.

End UseDragDrop.

(** ** Vocabulary of the game's properties *)

(** A shape that has a first row, no more rows than the grid, and no row
    longer than the first or than the grid. *)
Definition fitsGrid (shape : ShapeMatrix) : Prop :=
  match shape with
  | [] => False
  | first :: _ =>
      (List.length shape <= 8)%nat /\
      (List.length first <= 8)%nat /\
      Forall (fun cells => (List.length cells <= List.length first)%nat)
             shape
  end.

(** The distance between the left edges of two neighbouring cells of the
    grid element. *)
Definition pitch (rect : Rect) : Q :=
  UseDragDrop.calculateCellSize (Some rect) + UseDragDrop.GRID_GAP.

(** A grid of [rows] rows of [cols] cells each. *)
Definition rectangular (rows cols : nat) (grid : GameLogic.Grid) : Prop :=
  List.length grid = rows /\
  Forall (fun cells => List.length cells = cols) grid.

(** A position whose cell the block can take: it lies within the 8 by 8
    bounds, and the grid has a cell there that is not filled. *)
Definition free (grid : GameLogic.Grid) (p : Position) : Prop :=
  GameLogic.isWithinBounds p GRID_SIZE GRID_SIZE = true /\
  exists cell,
    GameLogic.cellAt grid (Position.row p) (Position.col p) = Some cell /\
    Cell.filled cell = false.

(** Writing [v] to the cells at [keys], one after the other, as
    [placeBlock] and [clearLines] do. *)
Fixpoint storeAll (grid : GameLogic.Grid) (keys : list (Z * Z)) (v : Cell)
    : option GameLogic.Grid :=
  match keys with
  | [] => Some grid
  | (r, c) :: rest =>
      match GameLogic.store grid r c v with
      | Some grid' => storeAll grid' rest v
      | None => None
      end
  end.

Definition keyOf (p : Position) : Z * Z :=
  (Position.row p, Position.col p).

(** Whether row [r], column [c] is one of [keys]. *)
Definition among (keys : list (Z * Z)) (r c : Z) : bool :=
  existsb (fun k => (fst k =? r)%Z && (snd k =? c)%Z) keys.

(** Whether the cell of row [r], column [c] lies on one of the lines, and
    whether the grid has a filled cell there. *)
Definition onLine (lines : list Line) (r c : Z) : bool :=
  existsb (fun line =>
             match Line.type line with
             | Line.row => (Line.index line =? r)%Z
             | Line.col => (Line.index line =? c)%Z
             end) lines.

Definition filledAt (grid : GameLogic.Grid) (r c : Z) : bool :=
  match GameLogic.cellAt grid r c with
  | Some cell => Cell.filled cell
  | None => false
  end.

(** A line of a grid of [rows] rows and [cols] columns all of whose cells
    are filled. *)
Definition complete (rows cols : nat) (grid : GameLogic.Grid) (line : Line)
    : Prop :=
  match Line.type line with
  | Line.row =>
      (0 <= Line.index line < Z.of_nat rows)%Z /\
      forall c, (0 <= c < Z.of_nat cols)%Z ->
                filledAt grid (Line.index line) c = true
  | Line.col =>
      (0 <= Line.index line < Z.of_nat cols)%Z /\
      forall r, (0 <= r < Z.of_nat rows)%Z ->
                filledAt grid r (Line.index line) = true
  end.

(** The cells [clearLines] collects for the lines, on a grid of [rows]
    rows whose first row has [cols] cells. *)
Definition swept (rows cols : nat) (lines : list Line) (r c : Z) : bool :=
  existsb (fun line =>
             match Line.type line with
             | Line.row =>
                 (Line.index line =? r)%Z
                 && (0 <=? c)%Z && (c <? Z.of_nat cols)%Z
             | Line.col =>
                 (Line.index line =? c)%Z
                 && (0 <=? r)%Z && (r <? Z.of_nat rows)%Z
             end) lines.

Definition nonEmpty {A : Type} (l : list A) : bool :=
  match l with
  | [] => false
  | _ :: _ => true
  end.

(** The tolerance in force, default applied, as [handleMove] reads it. *)
Definition moveTolerance {T : Type} (w : World T) : Q :=
  orDefault (ActivationConstraints.tolerance (UseDraggable.activation w)) 5.

(** * Properties *)

Unset Implicit Arguments.

(** ** Comparisons *)

Lemma leb_iff (a b : Q) : (a <=? b) = true <-> a <= b.
Proof. unfold Num.leb. apply Qle_bool_iff. Qed.

Lemma geb_iff (a b : Q) : (a >=? b) = true <-> b <= a.
Proof. unfold Num.geb. apply Qle_bool_iff. Qed.

Lemma gtb_iff (a b : Q) : (a >? b) = true <-> b < a.
Proof.
  unfold Num.gtb. rewrite negb_true_iff. split.
  - intros H. apply Qnot_le_lt. intros Hle.
    apply Qle_bool_iff in Hle. congruence.
  - intros H. destruct (Qle_bool a b) eqn:E; [|reflexivity].
    apply Qle_bool_iff in E. exfalso. exact (Qlt_not_le _ _ H E).
Qed.

Lemma ltb_iff (a b : Q) : (a <? b) = true <-> a < b.
Proof. unfold Num.ltb. apply (gtb_iff b a). Qed.

Lemma gtb_false_iff (a b : Q) : (a >? b) = false <-> a <= b.
Proof.
  unfold Num.gtb. rewrite negb_false_iff. apply Qle_bool_iff.
Qed.

(** ** Geometry *)

Lemma isPointInRect_iff (p : Point) (r : Rect) :
  Utils.isPointInRect p r = true <->
  Rect.left r <= Point.x p <= Rect.right r /\
  Rect.top r <= Point.y p <= Rect.bottom r.
Proof.
  unfold Utils.isPointInRect.
  rewrite !andb_true_iff, !geb_iff, !leb_iff. tauto.
Qed.

Lemma distanceSquared_nonneg (a b : Point) :
  (0 <= Q2R (Utils.distanceSquared a b))%R.
Proof.
  unfold Utils.distanceSquared.
  rewrite Q2R_plus, !Q2R_mult, !Q2R_minus.
  apply Rplus_le_le_0_compat; apply Rle_0_sqr.
Qed.


Lemma distance_gtb_spec (a b : Point) (m : Q) :
  Utils.distance_gtb a b m = true <-> (Q2R m < Utils.distance a b)%R.
Proof.
  unfold Utils.distance_gtb, Utils.distance.
  pose proof (distanceSquared_nonneg a b) as Hd.
  set (d := Utils.distanceSquared a b) in *.
  rewrite orb_true_iff, !ltb_iff.
  destruct (Qlt_le_dec m 0) as [Hneg | Hpos].
  - split; [intros _ | intros _; left; exact Hneg].
    apply Qlt_Rlt in Hneg. rewrite RMicromega.Q2R_0 in Hneg.
    pose proof (sqrt_pos (Q2R d)). lra.
  - assert (HmR : (0 <= Q2R m)%R).
    { apply Qle_Rle in Hpos. rewrite RMicromega.Q2R_0 in Hpos. exact Hpos. }
    split.
    + intros [H | H]; [exfalso; exact (Qlt_not_le _ _ H Hpos)|].
      apply Qlt_Rlt in H. rewrite Q2R_mult in H.
      rewrite <- (sqrt_square (Q2R m)) by lra.
      apply sqrt_lt_1_alt. split; [nra | exact H].
    + intros H. right. apply Rlt_Qlt. rewrite Q2R_mult.
      rewrite <- (sqrt_sqrt (Q2R d) Hd).
      apply Rmult_le_0_lt_compat; lra.
Qed.


Lemma distance_le_iff (a b : Point) (m : Q) :
  (Utils.distance a b <= Q2R m)%R <-> Utils.distance_gtb a b m = false.
Proof.
  rewrite <- not_true_iff_false, distance_gtb_spec. split.
  - intros H Hlt. exact (Rle_not_lt _ _ H Hlt).
  - apply Rnot_lt_le.
Qed.


(** C9.  Containment is inclusive on the four edges: a point with
    [left <= x <= right] and [top <= y <= bottom] is in the rectangle, and a
    drop zone whose element has that bounding rectangle reports the
    position as over it. *)
Theorem isPointInRect_edge_inclusive (p : Point) (r : Rect) :
  Rect.left r <= Point.x p <= Rect.right r ->
  Rect.top r <= Point.y p <= Rect.bottom r ->
  Utils.isPointInRect p r = true /\
  UseDropZone.isPositionOver (Some r) (Some p) = true.
Proof.
  intros Hx Hy.
  assert (Hin : Utils.isPointInRect p r = true)
    by (apply isPointInRect_iff; split; assumption).
  split; [exact Hin | exact Hin].
Qed.

(** The four corners and an edge midpoint of the rectangle (0,0)-(400,400). *)
Lemma isPointInRect_edge_inclusive_witness :
  let r := Rect.mk 0 0 400 400 400 400 in
  (Utils.isPointInRect (Point.mk 0 0) r = true /\
   UseDropZone.isPositionOver (Some r) (Some (Point.mk 0 0)) = true) /\
  (Utils.isPointInRect (Point.mk 400 400) r = true /\
   UseDropZone.isPositionOver (Some r) (Some (Point.mk 400 400)) = true) /\
  (Utils.isPointInRect (Point.mk 400 200) r = true /\
   UseDropZone.isPositionOver (Some r) (Some (Point.mk 400 200)) = true).
Proof.
  cbv zeta. split; [|split];
    apply isPointInRect_edge_inclusive; cbn; split;
    apply Qle_bool_iff; reflexivity.
Defined.

Lemma overlap_bounds (lo1 hi1 lo2 hi2 extent : Q) :
  let overlap := Qmax 0 (Qmin hi1 hi2 - Qmax lo1 lo2) in
  0 <= overlap /\
  (hi1 - lo1 == extent -> 0 <= extent -> overlap <= extent) /\
  (hi1 - lo1 == extent -> extent < 0 -> overlap == 0).
Proof.
  cbv zeta.
  destruct (Q.max_spec 0 (Qmin hi1 hi2 - Qmax lo1 lo2)) as [[H1 H2] | [H1 H2]];
    destruct (Q.min_spec hi1 hi2) as [[H3 H4] | [H3 H4]];
    destruct (Q.max_spec lo1 lo2) as [[H5 H6] | [H5 H6]];
    rewrite H2; rewrite ?H4, ?H6 in *;
    repeat split; intros; try Lqa.lra.
Qed.

(** C10, as amended. [intersectionRatio] always yields a number: the
    division is only reached with a positive divisor. With a positive
    product of the width and height of the first rectangle the result is
    the intersection area over that product; otherwise it is 0. The
    intersection area is the product of the horizontal and the vertical
    overlap of the edges, each cut off at 0, so the result is never
    negative. It is a fraction, at most 1, when the width and height of
    the first rectangle are the differences of its edges; the width and
    height are otherwise not compared with the edges. *)
Theorem intersectionRatio_total (a b : Rect) :
  let xOverlap :=
    Qmax 0 (Qmin (Rect.right a) (Rect.right b)
            - Qmax (Rect.left a) (Rect.left b)) in
  let yOverlap :=
    Qmax 0 (Qmin (Rect.bottom a) (Rect.bottom b)
            - Qmax (Rect.top a) (Rect.top b)) in
  Utils.intersectionRatio a b <> None /\
  (0 < Rect.width a * Rect.height a ->
   Utils.intersectionRatio a b =
     Some (Utils.intersectionArea a b / (Rect.width a * Rect.height a))) /\
  (Rect.width a * Rect.height a <= 0 ->
   Utils.intersectionRatio a b = Some 0) /\
  Utils.intersectionArea a b = xOverlap * yOverlap /\
  (exists q, Utils.intersectionRatio a b = Some q /\ 0 <= q) /\
  (extentsOfEdges a ->
   exists q, Utils.intersectionRatio a b = Some q /\ 0 <= q <= 1).
Proof.
  cbv zeta.
  assert (Hcases :
    (0 < Rect.width a * Rect.height a ->
     Utils.intersectionRatio a b =
       Some (Utils.intersectionArea a b / (Rect.width a * Rect.height a))) /\
    (Rect.width a * Rect.height a <= 0 ->
     Utils.intersectionRatio a b = Some 0)).
  { unfold Utils.intersectionRatio; cbv zeta.
    destruct (Rect.width a * Rect.height a >? 0) eqn:E.
    - apply gtb_iff in E.
      assert (Hd : Utils.divide (Utils.intersectionArea a b)
                                (Rect.width a * Rect.height a)
                   = Some (Utils.intersectionArea a b
                           / (Rect.width a * Rect.height a))).
      { unfold Utils.divide.
        destruct (Qeq_bool (Rect.width a * Rect.height a) 0) eqn:Z;
          [|reflexivity].
        apply Qeq_bool_iff in Z. rewrite Z in E.
        exfalso. exact (Qlt_irrefl 0 E). }
      rewrite Hd. split.
      + reflexivity.
      + intros Hle. exfalso. exact (Qlt_not_le _ _ E Hle).
    - apply gtb_false_iff in E. split.
      + intros Hlt. exfalso. exact (Qlt_not_le _ _ Hlt E).
      + reflexivity. }
  destruct Hcases as [Hpos Hzero].
  destruct (overlap_bounds (Rect.left a) (Rect.right a)
                           (Rect.left b) (Rect.right b) (Rect.width a))
    as (Hx0 & Hxle & Hxneg).
  destruct (overlap_bounds (Rect.top a) (Rect.bottom a)
                           (Rect.top b) (Rect.bottom b) (Rect.height a))
    as (Hy0 & Hyle & Hyneg).
  cbv zeta in Hx0, Hxle, Hxneg, Hy0, Hyle, Hyneg.
  assert (Harea : Utils.intersectionArea a b =
    Qmax 0 (Qmin (Rect.right a) (Rect.right b)
            - Qmax (Rect.left a) (Rect.left b))
    * Qmax 0 (Qmin (Rect.bottom a) (Rect.bottom b)
              - Qmax (Rect.top a) (Rect.top b))) by reflexivity.
  assert (Hnonneg : 0 <= Utils.intersectionArea a b).
  { rewrite Harea. apply Qmult_le_0_compat; assumption. }
  split; [|split; [exact Hpos|split; [exact Hzero|split; [exact Harea|split]]]].
  - destruct (Qlt_le_dec 0 (Rect.width a * Rect.height a)) as [Hlt | Hle].
    + rewrite (Hpos Hlt). discriminate.
    + rewrite (Hzero Hle). discriminate.
  - destruct (Qlt_le_dec 0 (Rect.width a * Rect.height a)) as [Hlt | Hle].
    + eexists. split; [exact (Hpos Hlt)|].
      apply Qle_shift_div_l; [exact Hlt|]. Lqa.lra.
    + exists 0. split; [exact (Hzero Hle)|]. Lqa.lra.
  - intros [Hw Hh].
    destruct (Qlt_le_dec 0 (Rect.width a * Rect.height a)) as [Hlt | Hle].
    + eexists. split; [exact (Hpos Hlt)|]. split.
      * apply Qle_shift_div_l; [exact Hlt|]. Lqa.lra.
      * apply Qle_shift_div_r; [exact Hlt|]. rewrite Harea.
        destruct (Qlt_le_dec (Rect.width a) 0) as [Hwneg | Hwpos].
        -- rewrite (Hxneg Hw Hwneg). Lqa.lra.
        -- specialize (Hxle Hw Hwpos).
           destruct (Qlt_le_dec (Rect.height a) 0) as [Hhneg | Hhpos].
           ++ rewrite (Hyneg Hh Hhneg). Lqa.lra.
           ++ specialize (Hyle Hh Hhpos). Lqa.nra.
    + exists 0. split; [exact (Hzero Hle)|]. Lqa.lra.
Qed.

Lemma intersectionRatio_total_witness :
  Utils.intersectionRatio (Rect.mk 0 0 10 10 10 10) (Rect.mk 0 5 15 10 10 10)
    = Some (Utils.intersectionArea (Rect.mk 0 0 10 10 10 10)
                                   (Rect.mk 0 5 15 10 10 10) / (10 * 10)) /\
  Utils.intersectionArea (Rect.mk 0 0 10 10 10 10) (Rect.mk 0 5 15 10 10 10)
    = Qmax 0 (Qmin 10 15 - Qmax 0 5) * Qmax 0 (Qmin 10 10 - Qmax 0 0) /\
  Utils.intersectionRatio (Rect.mk 0 0 0 10 0 10) (Rect.mk 0 0 10 10 10 10)
    = Some 0 /\
  exists q,
    Utils.intersectionRatio (Rect.mk 0 0 10 10 10 10)
                            (Rect.mk 0 5 15 10 10 10) = Some q /\
    0 <= q <= 1.
Proof.
  split; [|split; [|split]].
  - apply (intersectionRatio_total (Rect.mk 0 0 10 10 10 10)
                                   (Rect.mk 0 5 15 10 10 10)).
    reflexivity.
  - apply (intersectionRatio_total (Rect.mk 0 0 10 10 10 10)
                                   (Rect.mk 0 5 15 10 10 10)).
  - apply (intersectionRatio_total (Rect.mk 0 0 0 10 0 10)
                                   (Rect.mk 0 0 10 10 10 10)).
    cbn. apply Qle_bool_iff. reflexivity.
  - apply (intersectionRatio_total (Rect.mk 0 0 10 10 10 10)
                                   (Rect.mk 0 5 15 10 10 10)).
    split; reflexivity.
Defined.

(** A rectangle with edges from 0 to 10 and a width and height of 1
    overlaps itself 100 times over: the result of [intersectionRatio] is
    then no fraction of the rectangle. *)
Lemma intersectionRatio_exceeds_one :
  let a := Rect.mk 0 0 10 10 1 1 in
  exists q, Utils.intersectionRatio a a = Some q /\ q == 100 /\ ~ q <= 1.
Proof.
  cbv zeta. eexists. split; [reflexivity|]. split.
  - reflexivity.
  - intros H. apply Qle_bool_iff in H. discriminate H.
Defined.

(** ** The coordinator *)

Section CoordinatorFacts.
Context {T : Type}.

Lemma Invariant_initial : Invariant (@INITIAL_DRAG_STATE T).
Proof.
  unfold Invariant; cbn. repeat split; auto; try discriminate.
Qed.

Lemma Invariant_perform (op : DnDContext.Operation T) (s : DragState T) :
  Invariant s -> Invariant (fst (DnDContext.perform op s)).
Proof.
  intros Hs. destruct op as [d p o | p | | | id]; cbn.
  - unfold Invariant; cbn. repeat split; auto; discriminate.
  - unfold DnDContext.updateDrag.
    destruct (DragState.initialPosition s) as [ip|] eqn:Hip; [|exact Hs].
    destruct (DragState.isDragging s) eqn:Hd; cbn; [|exact Hs].
    destruct Hs as (Hph & Hiff & Hdrag & Hidle).
    assert (Hp : DragState.phase s = DragPhase.dragging)
      by (apply Hiff; exact Hd).
    unfold Invariant; cbn. rewrite Hp.
    repeat split; auto; try discriminate.
    apply (Hdrag Hp).
  - apply Invariant_initial.
  - apply Invariant_initial.
  - unfold DnDContext.setOverDropZone.
    destruct (DnDContext.sameDropZoneId (DragState.overDropZoneId s) id);
      exact Hs.
Qed.

Lemma Invariant_performAll (ops : list (DnDContext.Operation T)) :
  forall s, Invariant s -> Invariant (fst (DnDContext.performAll ops s)).
Proof.
  induction ops as [|op rest IH]; intros s Hs; cbn; [exact Hs|].
  pose proof (Invariant_perform op s Hs) as H1.
  destruct (DnDContext.perform op s) as [s1 evs1]; cbn in H1.
  specialize (IH s1 H1).
  destruct (DnDContext.performAll rest s1) as [s2 evs2]; cbn in *.
  exact IH.
Qed.

End CoordinatorFacts.

(** C7, as amended.  Every drag state reachable from the initial state by
    calls of [startDrag], [updateDrag], [endDrag], [cancelDrag] and
    [setOverDropZone] is idle or dragging; when dragging, the item, the
    position and the initial position are defined; when idle, the item, the
    position and the initial position are null and [delta] and [offset] are
    zero.  The hovered drop zone is not part of it: [setOverDropZone] is
    not gated on the phase. *)
Theorem reachable_invariant (T : Type) (s : DragState T) :
  DnDContext.reachable s -> Invariant s.
Proof.
  intros [ops <-].
  generalize (Invariant_initial (T:=T)).
  generalize (@INITIAL_DRAG_STATE T).
  induction ops as [|op rest IH]; intros s0 Hs0; cbn; [exact Hs0|].
  pose proof (Invariant_perform op s0 Hs0) as H1.
  destruct (DnDContext.perform op s0) as [s1 evs1]; cbn in H1.
  specialize (IH s1 H1).
  destruct (DnDContext.performAll rest s1) as [s2 evs2]; cbn in *.
  exact IH.
Qed.

Lemma reachable_invariant_witness :
  Invariant
    (fst (DnDContext.performAll
            [DnDContext.StartDrag (DragData.mk "b1" "block" 7%nat)
                               (Point.mk 50 50) (Point.mk 10 10);
             DnDContext.UpdateDrag (Point.mk 120 120)]
            INITIAL_DRAG_STATE)).
Proof.
  apply reachable_invariant.
  exists [DnDContext.StartDrag (DragData.mk "b1" "block" 7%nat)
                            (Point.mk 50 50) (Point.mk 10 10);
          DnDContext.UpdateDrag (Point.mk 120 120)].
  reflexivity.
Defined.

(** C7, as stated, fails: one call of [setOverDropZone] on the initial
    state leaves the phase [idle] with a hovered drop zone. *)
Lemma idle_state_with_hovered_zone :
  ~ (forall s : DragState nat,
        DnDContext.reachable s ->
        DragState.phase s = DragPhase.idle ->
        DragState.position s = None /\
        DragState.initialPosition s = None /\
        DragState.delta s = Point.mk 0 0 /\
        DragState.offset s = Point.mk 0 0 /\
        DragState.overDropZoneId s = None).
Proof.
  intros H.
  specialize (H (fst (DnDContext.performAll
                        [DnDContext.SetOverDropZone (Some "grid")]
                        INITIAL_DRAG_STATE))).
  cbn in H.
  assert (R : DnDContext.reachable
                (DragState.mk (T:=nat) DragPhase.idle false None None None
                              (Point.mk 0 0) (Point.mk 0 0) (Some "grid"))).
  { exists [DnDContext.SetOverDropZone (Some "grid")]. reflexivity. }
  destruct (H R eq_refl) as (_ & _ & _ & _ & Hover).
  discriminate Hover.
Qed.

(** C8.  [updateDrag] returns the state it is given when no drag is active
    ([isDragging] false or no initial position).  When a drag is active it
    sets the position to its argument and [delta] to the argument minus the
    initial position, and keeps the item, the initial position, the offset,
    the phase, [isDragging] and the hovered drop zone.  Applied twice with
    the same position it gives the state it gives when applied once. *)
Theorem updateDrag_spec (T : Type) (position : Point) (s : DragState T) :
  (DragState.isDragging s = false \/ DragState.initialPosition s = None ->
   DnDContext.updateDrag position s = (s, [])) /\
  (forall initialPosition : Point,
     DragState.isDragging s = true ->
     DragState.initialPosition s = Some initialPosition ->
     let s' := fst (DnDContext.updateDrag position s) in
     DragState.position s' = Some position /\
     DragState.delta s' =
       Point.mk (Point.x position - Point.x initialPosition)
                (Point.y position - Point.y initialPosition) /\
     DragState.data s' = DragState.data s /\
     DragState.initialPosition s' = DragState.initialPosition s /\
     DragState.offset s' = DragState.offset s /\
     DragState.phase s' = DragState.phase s /\
     DragState.isDragging s' = DragState.isDragging s /\
     DragState.overDropZoneId s' = DragState.overDropZoneId s) /\
  fst (DnDContext.updateDrag position (fst (DnDContext.updateDrag position s)))
    = fst (DnDContext.updateDrag position s).
Proof.
  split; [|split].
  - intros [Hd | Hip]; unfold DnDContext.updateDrag.
    + rewrite Hd. destruct (DragState.initialPosition s); reflexivity.
    + rewrite Hip. reflexivity.
  - intros ip Hd Hip. unfold DnDContext.updateDrag. rewrite Hip, Hd. cbn.
    repeat split; reflexivity.
  - destruct s as [ph dragging item pos [ip|] off del over];
      destruct dragging; reflexivity.
Qed.

Lemma updateDrag_spec_witness :
  let s : DragState nat :=
    fst (DnDContext.startDrag (DragData.mk "b1" "block" 7%nat)
                           (Point.mk 50 50) (Point.mk 10 10)
                           INITIAL_DRAG_STATE) in
  DnDContext.updateDrag (Point.mk 120 120) (@INITIAL_DRAG_STATE nat)
    = (INITIAL_DRAG_STATE, []) /\
  DragState.position (fst (DnDContext.updateDrag (Point.mk 120 120) s))
    = Some (Point.mk 120 120) /\
  DragState.delta (fst (DnDContext.updateDrag (Point.mk 120 120) s))
    = Point.mk (120 - 50) (120 - 50).
Proof.
  cbv zeta. split.
  - apply (updateDrag_spec nat (Point.mk 120 120) INITIAL_DRAG_STATE).
    left. reflexivity.
  - pose proof
      (proj1 (proj2
         (updateDrag_spec nat (Point.mk 120 120)
            (fst (DnDContext.startDrag (DragData.mk "b1" "block" 7%nat)
                                    (Point.mk 50 50) (Point.mk 10 10)
                                    INITIAL_DRAG_STATE))))
         (Point.mk 50 50) eq_refl eq_refl) as H.
    cbv zeta in H. destruct H as (Hpos & Hdelta & _).
    split; [exact Hpos | exact Hdelta].
Defined.

(** C1, as amended.  [startDrag] is not gated: from every state, dragging or
    not, it yields the dragging state of the item it is given, with the
    given position as position and initial position, the given offset, a
    zero delta and no hovered drop zone, and it fires one drag-start event
    for that item.  The coordinator holds one drag state, so over every
    sequence of calls at most one drag is in phase [dragging]: the state is
    dragging exactly when it holds an item, and then it holds that one. *)
Theorem startDrag_replaces_active_drag (T : Type) (s : DragState T)
    (data : DragData T) (position offset : Point) :
  DnDContext.startDrag data position offset s =
    (DragState.mk DragPhase.dragging true (Some data) (Some position)
                  (Some position) offset (Point.mk 0 0) None,
     [DragStartEvent data position]) /\
  (forall ops : list (DnDContext.Operation T),
     let r := fst (DnDContext.performAll ops s) in
     Invariant s ->
     (DragState.phase r = DragPhase.dragging <->
      exists item, DragState.data r = Some item)).
Proof.
  split; [reflexivity|].
  intros ops r Hs. subst r.
  pose proof (Invariant_performAll ops s Hs) as (Hph & _ & Hdrag & Hidle).
  split.
  - intros Hp. destruct (Hdrag Hp) as (Hdata & _).
    destruct (DragState.data (fst (DnDContext.performAll ops s))) as [item|].
    + exists item. reflexivity.
    + congruence.
  - intros [item Hitem]. destruct Hph as [Hi | Hd]; [|exact Hd].
    destruct (Hidle Hi) as (Hnone & _). congruence.
Qed.

Lemma startDrag_replaces_active_drag_witness :
  let s : DragState nat :=
    fst (DnDContext.startDrag (DragData.mk "b1" "block" 7%nat)
                           (Point.mk 50 50) (Point.mk 10 10)
                           INITIAL_DRAG_STATE) in
  let r :=
    fst (DnDContext.performAll
           [DnDContext.StartDrag (DragData.mk "b2" "block" 8%nat)
                              (Point.mk 200 200) (Point.mk 5 5)] s) in
  DragState.phase r = DragPhase.dragging <->
  exists item, DragState.data r = Some item.
Proof.
  cbv zeta.
  apply (startDrag_replaces_active_drag nat
           (fst (DnDContext.startDrag (DragData.mk "b1" "block" 7%nat)
                                   (Point.mk 50 50) (Point.mk 10 10)
                                   INITIAL_DRAG_STATE))
           (DragData.mk "b2" "block" 8%nat) (Point.mk 200 200) (Point.mk 5 5)).
  unfold Invariant; cbn. repeat split; auto; discriminate.
Defined.

(** C1, as stated, fails: a second [startDrag] during a drag replaces the
    item, the positions, the delta and the hovered zone, and fires a
    drag-start event. *)
Lemma startDrag_while_dragging_is_not_ignored :
  ~ (forall (s : DragState nat) (data : DragData nat)
            (position offset : Point),
        DragState.phase s = DragPhase.dragging ->
        DnDContext.startDrag data position offset s = (s, [])).
Proof.
  intros H.
  specialize
    (H (fst (DnDContext.performAll
               [DnDContext.StartDrag (DragData.mk "b1" "block" 7%nat)
                                  (Point.mk 50 50) (Point.mk 10 10);
                DnDContext.UpdateDrag (Point.mk 120 120);
                DnDContext.SetOverDropZone (Some "grid")]
               INITIAL_DRAG_STATE))
       (DragData.mk "b2" "block" 8%nat) (Point.mk 200 200) (Point.mk 5 5)
       eq_refl).
  cbn in H. discriminate H.
Qed.

(** ** Drop zones *)

Section DropZoneFacts.
Context {T : Type}.

Lemma isAcceptedType_iff (config : DropZoneConfig T) (type : DragType) :
  UseDropZone.isAcceptedType config type = true <->
  UseDropZone.disabled config = false /\
  match DropZoneConfig.accept config with
  | AcceptOne accepted => type = accepted
  | AcceptMany types => In type types
  end.
Proof.
  unfold UseDropZone.isAcceptedType.
  destruct (UseDropZone.disabled config).
  - split; [discriminate | intros [H _]; discriminate H].
  - rewrite existsb_exists.
    destruct (DropZoneConfig.accept config) as [accepted | types]; split.
    + intros (a & [<- | []] & Heq). apply String.eqb_eq in Heq. auto.
    + intros [_ ->]. exists accepted. split; [left; reflexivity|].
      apply String.eqb_refl.
    + intros (a & Hin & Heq). apply String.eqb_eq in Heq. subst a. auto.
    + intros [_ Hin]. exists type. split; [exact Hin|].
      apply String.eqb_refl.
Qed.

Lemma checkCanDrop_iff (config : DropZoneConfig T) (payload : T) :
  UseDropZone.checkCanDrop config payload = true <->
  UseDropZone.disabled config = false /\
  (forall canDrop, DropZoneConfig.canDrop config = Some canDrop ->
                   canDrop payload = true).
Proof.
  unfold UseDropZone.checkCanDrop.
  destruct (UseDropZone.disabled config).
  - split; [discriminate | intros [H _]; discriminate H].
  - destruct (DropZoneConfig.canDrop config) as [f|]; split.
    + intros H. split; [reflexivity|]. intros g [= <-]. exact H.
    + intros [_ H]. apply H. reflexivity.
    + intros _. split; [reflexivity|]. intros g [=].
    + reflexivity.
Qed.

Lemma inStep_mount (config : DropZoneConfig T) (element : option Rect) :
  inStep (UseDropZone.mount config element).
Proof. reflexivity. Qed.

Lemma inStep_dragStateEffect (dragState : DragState T) (z : DropZone T) :
  inStep z -> inStep (fst (UseDropZone.dragStateEffect dragState z)).
Proof.
  unfold inStep, UseDropZone.dragStateEffect, UseDropZone.notCandidate.
  destruct z as [config element [over can dd] prev]; cbn. intros ->.
  destruct (DragState.data dragState) as [data|];
    [destruct (negb (DragState.isDragging dragState)
               || negb (UseDropZone.isAcceptedType config
                                                   (DragData.type data)))|];
    try (destruct over; reflexivity).
  destruct (UseDropZone.isPositionOver element
                                       (DragState.position dragState));
    destruct over; reflexivity.
Qed.

(** What the drag-state effect leaves in [dropState]. *)
Lemma dragStateEffect_dropState (dragState : DragState T) (z : DropZone T) :
  inStep z ->
  let z' := fst (UseDropZone.dragStateEffect dragState z) in
  DropState.isOver (DropZone.dropState z')
  && DropState.canDrop (DropZone.dropState z') =
  match DragState.data dragState with
  | Some data =>
      DragState.isDragging dragState
      && UseDropZone.isAcceptedType (DropZone.config z) (DragData.type data)
      && UseDropZone.isPositionOver (DropZone.elementRef z)
                                    (DragState.position dragState)
      && UseDropZone.checkCanDrop (DropZone.config z) (DragData.payload data)
  | None => false
  end.
Proof.
  unfold inStep, UseDropZone.dragStateEffect, UseDropZone.notCandidate.
  destruct z as [config element [over can dd] prev]; cbn. intros ->.
  destruct (DragState.data dragState) as [data|];
    [|destruct over; reflexivity].
  destruct (DragState.isDragging dragState); cbn;
    [|destruct over; reflexivity].
  destruct (UseDropZone.isAcceptedType config (DragData.type data)); cbn;
    [|destruct over; reflexivity].
  destruct (UseDropZone.isPositionOver element
                                       (DragState.position dragState));
    destruct over; reflexivity.
Qed.

Lemma dragStateEffect_config (dragState : DragState T) (z : DropZone T) :
  let z' := fst (UseDropZone.dragStateEffect dragState z) in
  DropZone.config z' = DropZone.config z /\
  DropZone.elementRef z' = DropZone.elementRef z.
Proof.
  unfold UseDropZone.dragStateEffect, UseDropZone.notCandidate.
  destruct z as [config element [over can dd] prev]; cbn.
  destruct (DragState.data dragState) as [data|];
    [destruct (negb (DragState.isDragging dragState)
               || negb (UseDropZone.isAcceptedType config
                                                   (DragData.type data)))|];
    try (destruct prev; cbn; solve [auto]).
  destruct (UseDropZone.isPositionOver element
                                       (DragState.position dragState));
    destruct prev; cbn; auto.
Qed.

End DropZoneFacts.

Arguments UseDropZone.isPositionOver : simpl never.
Arguments UseDropZone.isAcceptedType : simpl never.
Arguments UseDropZone.checkCanDrop : simpl never.

Lemma isPositionOver_iff (element : option Rect) (position : Point) :
  UseDropZone.isPositionOver element (Some position) = true <->
  exists rect, element = Some rect /\ Utils.isPointInRect position rect = true.
Proof.
  unfold UseDropZone.isPositionOver. destruct element as [rect|]; split.
  - intros H. exists rect. auto.
  - intros (r & [= <-] & H). exact H.
  - discriminate.
  - intros (r & [=] & _).
Qed.

(** C2, as amended.  At a release, a drop zone calls [onDrop] exactly when
    a drag is active and its latest drag-state evaluation found the
    position inside the bounding rectangle the element had at that
    evaluation, the zone enabled, the drag type among the accepted ones and
    [canDrop], when given, true on the payload; the rectangle is not
    measured again at the release.  [onDrop] then gets the payload and the
    position of the drag state, and is called once.  The zone's state before
    that evaluation is arbitrary: having been over earlier does not
    count.  Between the evaluation and the release the drag state changes
    at most in the hovered drop zone, which the zones set as they
    evaluate. *)
Theorem onDrop_iff_latest_evaluation (T : Type) (dragState : DragState T)
    (z0 : DropZone T) (over : option DropZoneId) (payload : T)
    (position : Point) :
  inStep z0 ->
  let z := fst (UseDropZone.dragStateEffect dragState z0) in
  (In (OnDrop payload position)
      (UseDropZone.onRelease (withOver over dragState) z) <->
   DragState.isDragging dragState = true /\
   DragState.position dragState = Some position /\
   UseDropZone.disabled (DropZone.config z0) = false /\
   (exists rect, DropZone.elementRef z0 = Some rect /\
                 Utils.isPointInRect position rect = true) /\
   (exists data, DragState.data dragState = Some data /\
                 DragData.payload data = payload /\
                 match DropZoneConfig.accept (DropZone.config z0) with
                 | AcceptOne accepted => DragData.type data = accepted
                 | AcceptMany types => In (DragData.type data) types
                 end) /\
   (forall canDrop,
      DropZoneConfig.canDrop (DropZone.config z0) = Some canDrop ->
      canDrop payload = true)) /\
  (List.length (UseDropZone.onRelease (withOver over dragState) z) <= 1)%nat.
Proof.
  intros Hz z.
  change (UseDropZone.onRelease (withOver over dragState) z)
    with (UseDropZone.onRelease dragState z).
  pose proof (dragStateEffect_dropState dragState z0 Hz) as Hds.
  cbv zeta in Hds. fold z in Hds.
  unfold UseDropZone.onRelease, UseDropZone.handleDrop. rewrite Hds.
  destruct (DragState.isDragging dragState) eqn:Hdrag; cbn;
    [|split; [|lia]; split; [intros [] | intros (H & _); discriminate H]].
  destruct (DragState.data dragState) as [data|] eqn:Hdata;
    [|split; [|cbn; lia]; split;
      [intros [] | intros (_ & _ & _ & _ & (d & [=] & _) & _)]].
  destruct (DragState.position dragState) as [p|] eqn:Hpos;
    [|split; [|cbn; lia]; split; [intros [] | intros (_ & [=] & _)]].
  destruct (UseDropZone.isAcceptedType (DropZone.config z0)
                                       (DragData.type data)) eqn:Hacc; cbn.
  - apply isAcceptedType_iff in Hacc. destruct Hacc as [Hen Hty].
    destruct (UseDropZone.isPositionOver (DropZone.elementRef z0) (Some p))
      eqn:Hover; cbn.
    + apply isPositionOver_iff in Hover.
      destruct (UseDropZone.checkCanDrop (DropZone.config z0)
                                         (DragData.payload data)) eqn:Hcan.
      * apply checkCanDrop_iff in Hcan. destruct Hcan as [_ Hcan].
        split; [|cbn; lia]. split.
        -- intros [[= <- <-] | []].
           repeat split; auto. exists data. auto.
        -- intros (_ & [= <-] & _ & _ & (d & [= <-] & <- & _) & _).
           left. reflexivity.
      * split; [|cbn; lia]. split; [intros []|].
        intros (_ & [= <-] & _ & _ & (d & [= <-] & <- & _) & Hf).
        assert (Hc : UseDropZone.checkCanDrop (DropZone.config z0)
                                              (DragData.payload data) = true)
          by (apply checkCanDrop_iff; auto).
        congruence.
    + split; [|cbn; lia]. split; [intros []|].
      intros (_ & [= <-] & _ & Hin & _).
      apply isPositionOver_iff in Hin. congruence.
  - split; [|cbn; lia]. split; [intros []|].
    intros (_ & _ & Hen & _ & (d & [= <-] & _ & Hty) & _).
    assert (Ha : UseDropZone.isAcceptedType (DropZone.config z0)
                                            (DragData.type data) = true)
      by (apply isAcceptedType_iff; auto).
    congruence.
Qed.

Lemma onDrop_iff_latest_evaluation_witness :
  let dragState : DragState nat :=
    fst (DnDContext.startDrag (DragData.mk "b1" "block" 7%nat)
                           (Point.mk 50 50) (Point.mk 10 10)
                           INITIAL_DRAG_STATE) in
  let z0 :=
    UseDropZone.mount
      (DropZoneConfig.mk "grid" (AcceptOne "block") (Some (fun _ => true)) None)
      (Some (Rect.mk 0 0 400 400 400 400)) in
  In (OnDrop 7%nat (Point.mk 50 50))
     (UseDropZone.onRelease (withOver (Some "grid") dragState)
        (fst (UseDropZone.dragStateEffect dragState z0))).
Proof.
  cbv zeta.
  apply (proj1 (onDrop_iff_latest_evaluation nat
                  (fst (DnDContext.startDrag (DragData.mk "b1" "block" 7%nat)
                                          (Point.mk 50 50) (Point.mk 10 10)
                                          INITIAL_DRAG_STATE))
                  (UseDropZone.mount
                     (DropZoneConfig.mk "grid" (AcceptOne "block")
                                        (Some (fun _ => true)) None)
                     (Some (Rect.mk 0 0 400 400 400 400)))
                  (Some "grid") 7%nat (Point.mk 50 50)
                  (inStep_mount
                     (DropZoneConfig.mk "grid" (AcceptOne "block")
                                        (Some (fun _ => true)) None)
                     (Some (Rect.mk 0 0 400 400 400 400))))).
  repeat split.
  - exists (Rect.mk 0 0 400 400 400 400). split; reflexivity.
  - exists (DragData.mk "b1" "block" 7%nat). repeat split.
  - intros canDrop [= <-]. reflexivity.
Defined.

(** ** Running handlers *)

Section RunFacts.
Context {T : Type}.

Lemma bind_value {A B} (m : Run.M T A) (k : A -> Run.M T B) (w : World T) :
  Run.value (Run.bind m k w)
  = Run.value (k (Run.value (m w)) (Run.world (m w))).
Proof.
  unfold Run.bind, Run.value, Run.world.
  destruct (m w) as [[a w1] o1]; cbn.
  destruct (k a w1) as [[b w2] o2]; reflexivity.
Qed.

Lemma bind_world {A B} (m : Run.M T A) (k : A -> Run.M T B) (w : World T) :
  Run.world (Run.bind m k w)
  = Run.world (k (Run.value (m w)) (Run.world (m w))).
Proof.
  unfold Run.bind, Run.value, Run.world.
  destruct (m w) as [[a w1] o1]; cbn.
  destruct (k a w1) as [[b w2] o2]; reflexivity.
Qed.

Lemma bind_trace {A B} (m : Run.M T A) (k : A -> Run.M T B) (w : World T) :
  Run.trace (Run.bind m k w)
  = Run.trace (m w)
    ++ Run.trace (k (Run.value (m w)) (Run.world (m w))).
Proof.
  unfold Run.bind, Run.value, Run.world, Run.trace.
  destruct (m w) as [[a w1] o1]; cbn.
  destruct (k a w1) as [[b w2] o2]; reflexivity.
Qed.

Lemma value_mk {A} (a : A) (w : World T) (o : list (Observation T)) :
  Run.value (a, w, o) = a.
Proof. reflexivity. Qed.

Lemma world_mk {A} (a : A) (w : World T) (o : list (Observation T)) :
  Run.world (a, w, o) = w.
Proof. reflexivity. Qed.

Lemma trace_mk {A} (a : A) (w : World T) (o : list (Observation T)) :
  Run.trace (a, w, o) = o.
Proof. reflexivity. Qed.

Lemma commands_app (a b : list (Observation T)) :
  commands (a ++ b) = commands a ++ commands b.
Proof.
  induction a as [|[[] | |] a IH]; cbn; rewrite ?IH; reflexivity.
Qed.

Lemma fired_app (a b : list (Observation T)) :
  fired (a ++ b) = fired a ++ fired b.
Proof.
  induction a as [|[| |] a IH]; cbn; rewrite ?IH; reflexivity.
Qed.

Lemma drops_app (a b : list (Observation T)) :
  drops (a ++ b) = drops a ++ drops b.
Proof.
  induction a as [|[| |id []] a IH]; cbn; rewrite ?IH; reflexivity.
Qed.

End RunFacts.

(** Push the projections of a run through [;;]. *)
Ltac run_binds :=
  repeat first [rewrite bind_world | rewrite bind_trace | rewrite bind_value].

(** The projections of a finished run. *)
Ltac run_done :=
  unfold Run.gets, Run.ret, Run.modify, Run.observe; cbv beta;
  rewrite ?value_mk, ?world_mk, ?trace_mk.

Section RenderFacts.
Context {T : Type}.

Lemma quiet_nil : quiet (@nil (Observation T)).
Proof. repeat split. Qed.

Lemma quiet_app (a b : list (Observation T)) :
  quiet a -> quiet b -> quiet (a ++ b).
Proof.
  intros (Ha1 & Ha2 & Ha3) (Hb1 & Hb2 & Hb3). unfold quiet.
  rewrite commands_app, fired_app, drops_app, Ha1, Ha2, Ha3, Hb1, Hb2, Hb3.
  repeat split.
Qed.

Lemma sameButOver_refl (w : World T) : sameButOver w w.
Proof.
  exists (DragState.overDropZoneId (World.dragState w)).
  destruct w as [[] ? ? ? ? ? ?]; reflexivity.
Qed.

Lemma sameButOver_trans (w1 w2 w3 : World T) :
  sameButOver w1 w2 -> sameButOver w2 w3 -> sameButOver w1 w3.
Proof.
  intros [o1 ->] [o2 ->]. exists o2. reflexivity.
Qed.

Lemma setOverDropZone_withOver (id : option DropZoneId) (s : DragState T) :
  DnDContext.setOverDropZone id s = withOver id s.
Proof.
  unfold DnDContext.setOverDropZone, DnDContext.sameDropZoneId, withOver.
  destruct s as [ph dr item pos ip off del [over|]]; cbn;
    destruct id as [id|]; try reflexivity.
  destruct (String.eqb over id) eqn:E; [|reflexivity].
  apply String.eqb_eq in E. subst id. reflexivity.
Qed.

Lemma setOverDropZone_run (id : option DropZoneId) (w : World T) :
  Run.world (Provider.setOverDropZone id w)
    = World.setDragState (withOver id (World.dragState w)) w /\
  Run.trace (Provider.setOverDropZone id w)
    = [Called (DnDContext.SetOverDropZone id)].
Proof.
  unfold Provider.setOverDropZone, Provider.call, Run.world, Run.trace.
  cbn. rewrite setOverDropZone_withOver, orb_false_r.
  destruct w; split; reflexivity.
Qed.

Lemma dragStateEffect_notDrop (snapshot : DragState T) (z : DropZone T) :
  Forall notDrop (snd (UseDropZone.dragStateEffect snapshot z)).
Proof.
  unfold UseDropZone.dragStateEffect, UseDropZone.notCandidate.
  destruct (DragState.data snapshot) as [data|];
    [destruct (negb (DragState.isDragging snapshot)
               || negb (UseDropZone.isAcceptedType (DropZone.config z)
                                                   (DragData.type data)))|];
    try (destruct (DropZone.prevIsOverRef z); cbn;
         repeat constructor; fail).
  destruct (UseDropZone.isPositionOver (DropZone.elementRef z)
                                       (DragState.position snapshot));
    destruct (DropZone.prevIsOverRef z); cbn;
    destruct (DragState.position snapshot); repeat constructor.
Qed.

Lemma emitAll_run (id : DropZoneId) (outs : list (ZoneOutput T)) :
  Forall notDrop outs ->
  forall w : World T,
    sameButOver w (Run.world (App.emitAll id outs w)) /\
    quiet (Run.trace (App.emitAll id outs w)).
Proof.
  induction 1 as [|out rest Hout _ IH]; intros w; cbn.
  - split; [apply sameButOver_refl | apply quiet_nil].
  - rewrite bind_world, bind_trace.
    assert (Hstep : sameButOver w (Run.world (App.emit id out w)) /\
                    quiet (Run.trace (App.emit id out w))).
    { destruct out as [cb | over]; unfold App.emit.
      - split; [apply sameButOver_refl|].
        destruct cb; [destruct Hout | | |]; repeat split.
      - destruct (setOverDropZone_run over w) as [Hw Htr].
        rewrite Hw, Htr. split; [exists over; reflexivity | repeat split]. }
    destruct Hstep as [Hw1 Hq1].
    destruct (IH (Run.world (App.emit id out w))) as [Hw2 Hq2].
    split; [eapply sameButOver_trans; eassumption|].
    apply quiet_app; assumption.
Qed.

Lemma runEffects_run (snapshot : DragState T) (zs : list (DropZone T)) :
  forall w : World T,
    sameButOver w (Run.world (App.runEffects snapshot zs w)) /\
    quiet (Run.trace (App.runEffects snapshot zs w)) /\
    Run.value (App.runEffects snapshot zs w)
      = map (fun z => fst (UseDropZone.dragStateEffect snapshot z)) zs.
Proof.
  induction zs as [|z rest IH]; intros w; cbn.
  - split; [apply sameButOver_refl | split; [apply quiet_nil|reflexivity]].
  - pose proof (dragStateEffect_notDrop snapshot z) as Hnd.
    destruct (UseDropZone.dragStateEffect snapshot z) as [z' outs]; cbn in *.
    rewrite !bind_world, !bind_trace, !bind_value. cbn.
    destruct (emitAll_run (DropZoneConfig.id (DropZone.config z)) outs Hnd w)
      as [Hw1 Hq1].
    destruct (IH (Run.world
                    (App.emitAll (DropZoneConfig.id (DropZone.config z))
                                 outs w)))
      as (Hw2 & Hq2 & Hv).
    split; [eapply sameButOver_trans; eassumption|].
    split.
    + rewrite app_nil_r. apply quiet_app; assumption.
    + rewrite Hv. reflexivity.
Qed.

End RenderFacts.

Section FlushFacts.
Context {T : Type}.

Lemma notCandidate_outputs (z : DropZone T) :
  Forall (fun out => out = Callback OnDragLeave \/
                     out = CallSetOverDropZone None)
         (snd (UseDropZone.notCandidate z)).
Proof.
  unfold UseDropZone.notCandidate.
  destruct (DropZone.prevIsOverRef z); cbn.
  - constructor; [left; reflexivity|].
    constructor; [right; reflexivity | constructor].
  - constructor.
Qed.

Lemma emitAll_clear (id : DropZoneId) (outs : list (ZoneOutput T)) :
  Forall (fun out => out = Callback OnDragLeave \/
                     out = CallSetOverDropZone None) outs ->
  forall w : World T,
    DragState.overDropZoneId (World.dragState w) = None ->
    World.dragState (Run.world (App.emitAll id outs w)) = World.dragState w.
Proof.
  induction 1 as [|out rest Hout _ IH]; intros w Hw; cbn; [reflexivity|].
  rewrite bind_world.
  assert (Hstep : World.dragState (Run.world (App.emit id out w))
                  = World.dragState w).
  { destruct Hout as [-> | ->]; [reflexivity|].
    unfold App.emit. rewrite (proj1 (setOverDropZone_run None w)).
    destruct w as [[] ? ? ? ? ? ?]; cbn in *. subst. reflexivity. }
  rewrite IH; rewrite Hstep; auto.
Qed.

Lemma runEffects_clear (snapshot : DragState T) (zs : list (DropZone T)) :
  DragState.data snapshot = None ->
  forall w : World T,
    DragState.overDropZoneId (World.dragState w) = None ->
    World.dragState (Run.world (App.runEffects snapshot zs w))
      = World.dragState w.
Proof.
  intros Hdata. induction zs as [|z rest IH]; intros w Hw; cbn;
    [reflexivity|].
  assert (Houts : Forall (fun out => out = Callback OnDragLeave \/
                                     out = CallSetOverDropZone None)
                         (snd (UseDropZone.dragStateEffect snapshot z))).
  { unfold UseDropZone.dragStateEffect. rewrite Hdata.
    apply notCandidate_outputs. }
  destruct (UseDropZone.dragStateEffect snapshot z) as [z' outs]; cbn in *.
  run_binds. cbn.
  pose proof (emitAll_clear (DropZoneConfig.id (DropZone.config z))
                            outs Houts w Hw) as H1.
  rewrite IH; rewrite H1; auto.
Qed.

Lemma flushEffects_idle (w : World T) :
  World.effectsDue w = false -> App.flushEffects w = (tt, w, []).
Proof.
  intros H. unfold App.flushEffects, Run.bind, Run.gets. rewrite H.
  reflexivity.
Qed.

(** The render changes the drop zones and the hovered drop zone, nothing
    else, and its trace is quiet. *)
Lemma flushEffects_run (w : World T) :
  let r := App.flushEffects w in
  quiet (Run.trace r) /\
  (exists over,
     World.dragState (Run.world r) = withOver over (World.dragState w)) /\
  World.draggableConfig (Run.world r) = World.draggableConfig w /\
  World.draggable (Run.world r) = World.draggable w /\
  World.timeouts (Run.world r) = World.timeouts w /\
  World.nextTimeout (Run.world r) = World.nextTimeout w /\
  World.effectsDue (Run.world r) = false.
Proof.
  cbv zeta. destruct (World.effectsDue w) eqn:Hdue.
  - unfold App.flushEffects.
    run_binds. cbn. rewrite Hdue.
    run_binds. cbn.
    destruct (runEffects_run (World.dragState w) (World.dropZones w) w)
      as ([over Hw] & Hq & _).
    rewrite Hw. cbn. rewrite !app_nil_r.
    split; [exact Hq|]. split; [exists over; reflexivity|].
    repeat split.
  - rewrite (flushEffects_idle w Hdue). cbn.
    split; [apply quiet_nil|]. split.
    + exists (DragState.overDropZoneId (World.dragState w)).
      destruct (World.dragState w); reflexivity.
    + repeat split; auto.
Qed.

Lemma flushEffects_clear (w : World T) :
  DragState.data (World.dragState w) = None ->
  DragState.overDropZoneId (World.dragState w) = None ->
  World.dragState (Run.world (App.flushEffects w)) = World.dragState w.
Proof.
  intros Hdata Hover. destruct (World.effectsDue w) eqn:Hdue.
  - unfold App.flushEffects.
    run_binds. cbn. rewrite Hdue.
    run_binds. cbn.
    apply runEffects_clear; assumption.
  - rewrite (flushEffects_idle w Hdue). reflexivity.
Qed.

End FlushFacts.

(** ** Cancellation *)

Section CancelFacts.
Context {T : Type}.

Lemma drops_fired (evs : list (DragEvent T)) :
  drops (map Fired evs) = [].
Proof. induction evs; cbn; auto. Qed.

Lemma fired_fired (evs : list (DragEvent T)) :
  fired (map Fired evs) = evs.
Proof. induction evs; cbn; congruence. Qed.

Lemma commands_fired (evs : list (DragEvent T)) :
  commands (map (@Fired T) evs) = [].
Proof. induction evs; cbn; auto. Qed.

Lemma call_run (op : DnDContext.Operation T) (w : World T) :
  Run.trace (Provider.call op w)
    = Called op :: map Fired (snd (DnDContext.perform op (World.dragState w)))
  /\
  Run.world (Provider.call op w)
    = World.setEffectsDue
        (World.effectsDue w
         || Provider.changesEffectDeps op (World.dragState w))
        (World.setDragState
           (fst (DnDContext.perform op (World.dragState w))) w).
Proof.
  unfold Provider.call, Run.trace, Run.world.
  destruct (DnDContext.perform op (World.dragState w)); split; reflexivity.
Qed.

Lemma drops_call (op : DnDContext.Operation T) (w : World T) :
  drops (Run.trace (Provider.call op w)) = [].
Proof.
  rewrite (proj1 (call_run op w)). cbn. apply drops_fired.
Qed.

(** What [clearPending] does: the timer of a pending start is cleared,
    the pending start is dropped, [isPending] becomes false. *)
Lemma clearPending_run (w : World T) :
  UseDraggable.clearPending w =
    (tt,
     World.mk (World.dragState w) (World.draggableConfig w)
              (Draggable.mk false (UseDraggable.isOurDragRef w) None)
              (World.dropZones w)
              (match UseDraggable.pendingStartRef w with
               | Some {| PendingStart.timer := Some id |} =>
                   filter (fun e => negb (Nat.eqb (fst e) id))
                          (World.timeouts w)
               | _ => World.timeouts w
               end)
              (World.nextTimeout w) (World.effectsDue w),
     []).
Proof.
  unfold UseDraggable.clearPending, UseDraggable.pendingStartRef,
    UseDraggable.isOurDragRef, Run.bind, Run.gets.
  destruct w as [ds config [pend ours [[p o [id|]]|]] zs ts n due];
    reflexivity.
Qed.

Lemma handleKeyDown_escape (rect : Rect) (w : World T) :
  UseDraggable.handleKeyDown "Escape" rect w = (tt, w, []).
Proof.
  unfold UseDraggable.handleKeyDown, Run.bind, Run.gets.
  destruct (UseDraggable.disabled w); reflexivity.
Qed.

Lemma dropListeners_not_dragging (w : World T) :
  DragState.isDragging (World.dragState w) = false ->
  App.dropListeners w = (tt, w, []).
Proof.
  intros H. unfold App.dropListeners, Run.bind, Run.gets, Run.observe.
  cbn. unfold UseDropZone.onRelease. rewrite H. cbn.
  induction (World.dropZones w) as [|z zs IH]; [reflexivity|].
  cbn. injection IH as ->. reflexivity.
Qed.

Lemma handleDragEnd_drops (w : World T) :
  drops (Run.trace (UseDraggable.handleDragEnd w)) = [].
Proof.
  unfold UseDraggable.handleDragEnd. run_binds.
  rewrite clearPending_run. cbn.
  destruct (UseDraggable.isOurDragRef w); [|reflexivity].
  run_binds. cbn. apply drops_fired.
Qed.

Lemma handleDragEnd_fired_idle (w : World T) :
  DragState.data (World.dragState w) = None ->
  fired (Run.trace (UseDraggable.handleDragEnd w)) = [].
Proof.
  intros Hdata. unfold UseDraggable.handleDragEnd. run_binds.
  rewrite clearPending_run. cbn.
  destruct (UseDraggable.isOurDragRef w); [|reflexivity].
  run_binds. cbn. rewrite Hdata. reflexivity.
Qed.

End CancelFacts.

(** C6.  Escape during a drag: the coordinator is back in the initial, idle
    state; [cancelDrag] is the one call made on it; the one event fired is a
    drag-end for the dragged item with [cancelled] true and no drop zone; no
    drop zone's [onDrop] is called, neither at the key press nor at the
    release of the pointer that follows, and that release fires no further
    event. *)
Theorem escape_cancels_without_drop (T : Type) (w : World T)
    (target : option Rect) :
  Invariant (World.dragState w) ->
  DragState.phase (World.dragState w) = DragPhase.dragging ->
  let r := App.dispatch (App.KeyDown "Escape" target) w in
  World.dragState (Run.world r) = INITIAL_DRAG_STATE /\
  commands (Run.trace r) = [DnDContext.CancelDrag] /\
  (exists data,
     DragState.data (World.dragState w) = Some data /\
     fired (Run.trace r) =
       [DragEndEvent data (DragState.position (World.dragState w)) None
                     true]) /\
  drops (Run.trace r) = [] /\
  (forall release,
     release = App.MouseUp \/ release = App.TouchEnd ->
     drops (Run.trace (App.dispatch release (Run.world r))) = [] /\
     fired (Run.trace (App.dispatch release (Run.world r))) = []).
Proof.
  intros (_ & Hiff & Hdrag & _) Hphase r.
  assert (Hd : DragState.isDragging (World.dragState w) = true)
    by (apply Hiff; exact Hphase).
  destruct (Hdrag Hphase) as (Hdata & _).
  destruct (DragState.data (World.dragState w)) as [data|] eqn:Edata;
    [clear Hdata | congruence].
  (* the handlers *)
  assert (Hhandle :
    App.handle (App.KeyDown "Escape" target) w =
      (tt,
       World.setEffectsDue true (World.setDragState INITIAL_DRAG_STATE w),
       [Called DnDContext.CancelDrag;
        Fired (DragEndEvent data (DragState.position (World.dragState w))
                            None true)])).
  { unfold App.handle.
    assert (Hfirst :
      match target with
      | Some rect => UseDraggable.handleKeyDown "Escape" rect
      | None => Run.ret tt
      end w = (tt, w, []))
      by (destruct target; [apply handleKeyDown_escape | reflexivity]).
    unfold Run.bind at 1. rewrite Hfirst.
    unfold Provider.handleKeyDown, Run.bind, Run.gets. rewrite Hd. cbn.
    unfold Provider.cancelDrag, Provider.call. cbn. rewrite Edata, Hd.
    rewrite orb_true_r. reflexivity. }
  set (w1 := World.setEffectsDue true
               (World.setDragState INITIAL_DRAG_STATE w)) in *.
  assert (Hstate : World.dragState (Run.world r) = INITIAL_DRAG_STATE).
  { subst r. unfold App.dispatch. run_binds. rewrite Hhandle. run_done.
    rewrite flushEffects_clear; reflexivity. }
  destruct (flushEffects_run w1) as ((Hq1 & Hq2 & Hq3) & _).
  assert (Htrace : Run.trace r =
                   [Called DnDContext.CancelDrag;
                    Fired (DragEndEvent data
                             (DragState.position (World.dragState w))
                             None true)]
                   ++ Run.trace (App.flushEffects w1)).
  { subst r. unfold App.dispatch. run_binds. rewrite Hhandle. reflexivity. }
  split; [exact Hstate|].
  rewrite Htrace, commands_app, fired_app, drops_app, Hq1, Hq2, Hq3.
  split; [reflexivity|]. split; [exists data; split; reflexivity|].
  split; [reflexivity|].
  (* the release that follows *)
  intros release Hrel.
  assert (Hidle : DragState.isDragging (World.dragState (Run.world r)) = false)
    by (rewrite Hstate; reflexivity).
  assert (Hnone : DragState.data (World.dragState (Run.world r)) = None)
    by (rewrite Hstate; reflexivity).
  assert (Hh : drops (Run.trace (App.handle release (Run.world r))) = [] /\
               fired (Run.trace (App.handle release (Run.world r))) = []).
  { destruct Hrel as [-> | ->]; unfold App.handle; run_binds; run_done;
      rewrite (dropListeners_not_dragging _ Hidle); run_done;
      (destruct (UseDraggable.listening (Run.world r));
       [split; [apply handleDragEnd_drops
               | apply handleDragEnd_fired_idle; exact Hnone]
       | split; reflexivity]). }
  destruct Hh as [Hh1 Hh2].
  unfold App.dispatch. run_binds. rewrite drops_app, fired_app, Hh1, Hh2.
  destruct (flushEffects_run
              (Run.world (App.handle release (Run.world r))))
    as ((_ & Hf & Hq) & _).
  cbn [app]. split; [exact Hq | exact Hf].
Qed.

Lemma escape_cancels_without_drop_witness :
  let w :=
    Run.world
      (App.dispatch (App.MouseDown 0 (Point.mk 50 50) Sample.tile)
                    (App.mount (Sample.block Sample.immediate)
                               [Sample.grid])) in
  let r := App.dispatch (App.KeyDown "Escape" None) w in
  World.dragState (Run.world r) = INITIAL_DRAG_STATE /\
  commands (Run.trace r) = [DnDContext.CancelDrag] /\
  (exists data,
     DragState.data (World.dragState w) = Some data /\
     fired (Run.trace r) =
       [DragEndEvent data (DragState.position (World.dragState w)) None
                     true]) /\
  drops (Run.trace r) = [] /\
  (forall release,
     release = App.MouseUp \/ release = App.TouchEnd ->
     drops (Run.trace (App.dispatch release (Run.world r))) = [] /\
     fired (Run.trace (App.dispatch release (Run.world r))) = []).
Proof.
  cbv zeta.
  apply (escape_cancels_without_drop Sample.Shape
           (Run.world
              (App.dispatch (App.MouseDown 0 (Point.mk 50 50) Sample.tile)
                            (App.mount (Sample.block Sample.immediate)
                                       [Sample.grid])))
           None).
  - unfold Invariant. cbn. repeat split; auto; discriminate.
  - reflexivity.
Defined.

(** ** Activation *)

Section ActivationFacts.
Context {T : Type}.

(** A world at rest ignores movement, release and timeouts. *)
Lemma atRest_dispatch (w : World T) (ev : App.Input) :
  atRest w -> passive ev -> App.dispatch ev w = (tt, w, []).
Proof.
  intros (Hdrag & Hctl & Hts & Hdue) Hev.
  assert (Hl : UseDraggable.listening w = false).
  { unfold UseDraggable.listening, UseDraggable.isDragging,
      UseDraggable.isPending. rewrite Hdrag, Hctl. reflexivity. }
  assert (Hh : App.handle ev w = (tt, w, [])).
  { destruct ev; try destruct Hev; unfold App.handle, Run.bind, Run.gets;
      rewrite ?Hl; try reflexivity.
    - destruct touch; reflexivity.
    - rewrite (dropListeners_not_dragging w Hdrag). reflexivity.
    - rewrite (dropListeners_not_dragging w Hdrag). reflexivity.
    - unfold App.lookupTimeout. rewrite Hts. reflexivity. }
  unfold App.dispatch, Run.bind. rewrite Hh, (flushEffects_idle w Hdue).
  reflexivity.
Qed.

Lemma atRest_dispatchAll (w : World T) (evs : list App.Input) :
  atRest w -> Forall passive evs -> App.dispatchAll evs w = (tt, w, []).
Proof.
  intros Hw. induction 1 as [|ev rest Hev _ IH]; cbn; [reflexivity|].
  unfold Run.bind. rewrite (atRest_dispatch w ev Hw Hev), IH. reflexivity.
Qed.

End ActivationFacts.

(** C3, at the failing input.  With [{ delay: 300, tolerance: 5 }] a
    pick-up at (50,50) leaves the draggable pending with the 300 ms timer
    armed and the coordinator idle.  A move to (51,50), one unit away and
    before the timer fires, calls [startDrag] at once: the draggable is no
    longer pending and the timer is gone. *)
Theorem delay_move_within_tolerance_starts_drag :
  let w1 :=
    Run.world
      (App.dispatch (App.MouseDown 0 (Point.mk 50 50) Sample.tile)
                    (App.mount (Sample.block Sample.byDelay) [])) in
  let r := App.dispatch (App.MouseMove (Point.mk 51 50)) w1 in
  (UseDraggable.isPending w1 = true /\
   World.timeouts w1
     = [(1%nat, Timeout.mk 300 (Point.mk 50 50) (Point.mk 10 10))] /\
   World.dragState w1 = INITIAL_DRAG_STATE) /\
  (Utils.distance (Point.mk 50 50) (Point.mk 51 50) <= Q2R 5)%R /\
  commands (Run.trace r)
    = [DnDContext.StartDrag Sample.item (Point.mk 51 50) (Point.mk 10 10)] /\
  UseDraggable.isPending (Run.world r) = false /\
  World.timeouts (Run.world r) = [] /\
  DragState.phase (World.dragState (Run.world r)) = DragPhase.dragging.
Proof.
  cbv zeta. split; [repeat split|].
  split; [apply distance_le_iff; reflexivity|]. repeat split.
Qed.

(** Cancellation by movement during the delay does hold.  With
    [{ delay: 300, tolerance: 5 }], a move of more than 5 units before the
    timer fires puts the world at rest, the timer cleared; nothing the
    pointer or a timeout does afterwards starts a drag. *)
Lemma delay_move_beyond_tolerance_cancels :
  let w1 :=
    Run.world
      (App.dispatch (App.MouseDown 0 (Point.mk 50 50) Sample.tile)
                    (App.mount (Sample.block Sample.byDelay) [])) in
  let r := App.dispatch (App.MouseMove (Point.mk 56 50)) w1 in
  (Q2R 5 < Utils.distance (Point.mk 50 50) (Point.mk 56 50))%R /\
  Run.trace r = [] /\
  atRest (Run.world r) /\
  forall evs, Forall passive evs ->
    App.dispatchAll evs (Run.world r) = (tt, Run.world r, []).
Proof.
  cbv zeta. split; [apply distance_gtb_spec; reflexivity|].
  split; [reflexivity|].
  assert (H : atRest
                (Run.world
                   (App.dispatch (App.MouseMove (Point.mk 56 50))
                      (Run.world
                         (App.dispatch
                            (App.MouseDown 0 (Point.mk 50 50) Sample.tile)
                            (App.mount (Sample.block Sample.byDelay) []))))))
    by (repeat split).
  split; [exact H|]. intros evs Hevs. apply atRest_dispatchAll; assumption.
Qed.

Section PickUpFacts.
Context {T : Type}.

(** [handleDragStart] with no constraint in force. *)
Lemma handleDragStart_immediate (position offset : Point) (w : World T) :
  UseDraggable.disabled w = false ->
  (minDelay w <=? 0) && (minDistance w <=? 0) = true ->
  UseDraggable.handleDragStart position offset w =
    (tt,
     World.mk (started (UseDraggable.dragData w) position offset)
              (World.draggableConfig w)
              (Draggable.mk (UseDraggable.isPending w) true
                            (UseDraggable.pendingStartRef w))
              (World.dropZones w) (World.timeouts w) (World.nextTimeout w)
              true,
     [Called (DnDContext.StartDrag (UseDraggable.dragData w) position offset);
      Fired (DragStartEvent (UseDraggable.dragData w) position)]).
Proof.
  unfold minDelay, minDistance. intros Hdis Hnone.
  unfold UseDraggable.handleDragStart.
  unfold Run.bind at 1. unfold Run.gets at 1. rewrite Hdis.
  unfold Run.bind at 1. unfold Run.gets at 1. cbv zeta. rewrite Hnone.
  destruct w as [ds config [pend ours ps] zs ts n due]. cbn.
  rewrite orb_true_r. reflexivity.
Qed.

(** [handleDragStart] with a delay or a distance in force. *)
Lemma handleDragStart_pending (position offset : Point) (w : World T) :
  UseDraggable.disabled w = false ->
  (minDelay w <=? 0) && (minDistance w <=? 0) = false ->
  UseDraggable.handleDragStart position offset w =
    (tt,
     World.mk (World.dragState w) (World.draggableConfig w)
              (Draggable.mk true (UseDraggable.isOurDragRef w)
                 (Some (PendingStart.mk position offset
                          (if minDelay w >? 0
                           then Some (World.nextTimeout w) else None))))
              (World.dropZones w)
              (if minDelay w >? 0
               then (World.nextTimeout w,
                     Timeout.mk (minDelay w) position offset)
                    :: World.timeouts w
               else World.timeouts w)
              (if minDelay w >? 0
               then S (World.nextTimeout w) else World.nextTimeout w)
              (World.effectsDue w),
     []).
Proof.
  unfold minDelay, minDistance. intros Hdis Hsome.
  unfold UseDraggable.handleDragStart.
  unfold Run.bind at 1. unfold Run.gets at 1. rewrite Hdis.
  unfold Run.bind at 1. unfold Run.gets at 1. cbv zeta. rewrite Hsome.
  destruct (orDefault (ActivationConstraints.delay
                         (UseDraggable.activation w)) 0 >? 0) eqn:Hdelay;
    destruct w as [ds config [pend ours ps] zs ts n due]; reflexivity.
Qed.



End PickUpFacts.

Section DistanceFacts.
Context {T : Type}.
Variables (w : World T) (client : Point) (rect : Rect)
          (tolerance : option Q).
Hypothesis Henabled : UseDraggable.disabled w = false.
Hypothesis Hactivation :
  UseDraggable.activation w
  = ActivationConstraints.mk (Some 10) None tolerance.
Hypothesis Hrest : atRest w.

Let offset : Point :=
  Point.mk (Point.x client - Rect.left rect)
           (Point.y client - Rect.top rect).






End DistanceFacts.




(** The own-drag flag is cleared by a release or a touch cancel only.  A
    drag that Escape cancels leaves it set, and the tree is then not at
    rest: in the next gesture the moves, however far, call [updateDrag],
    which does nothing without a drag, and never [startDrag]; the release
    of that gesture clears the flag. *)
Lemma pickUp_after_escape_starts_nothing :
  let w :=
    Run.world
      (App.dispatchAll
         [App.MouseDown 0 (Point.mk 50 50) Sample.tile;
          App.MouseMove (Point.mk 60 50);
          App.KeyDown "Escape" None]
         (App.mount (Sample.block Sample.byDistance) [Sample.grid])) in
  let r :=
    App.dispatchAll
      [App.MouseDown 0 (Point.mk 50 50) Sample.tile;
       App.MouseMove (Point.mk 90 50);
       App.MouseMove (Point.mk 190 50)] w in
  World.dragState w = INITIAL_DRAG_STATE /\
  UseDraggable.isOurDragRef w = true /\
  commands (Run.trace r)
    = [DnDContext.UpdateDrag (Point.mk 90 50);
       DnDContext.UpdateDrag (Point.mk 190 50)] /\
  fired (Run.trace r) = [] /\
  World.dragState (Run.world r) = INITIAL_DRAG_STATE /\
  UseDraggable.isOurDragRef
    (Run.world (App.dispatch App.MouseUp (Run.world r))) = false.
Proof. cbv zeta. repeat split. Qed.

(** C2, as stated, fails.  The block is picked up at (50,50), inside the
    grid; the layout then moves the grid to (500,500)-(900,900) while the
    pointer stays; at the release the position is outside the grid's
    bounding rectangle, and the grid's [onDrop] is called all the same. *)
Lemma onDrop_after_zone_moved_away :
  let w :=
    Run.world
      (App.dispatchAll
         [App.MouseDown 0 (Point.mk 50 50) Sample.tile;
          App.Reflow "grid" (Rect.mk 500 500 900 900 400 400)]
         (App.mount (Sample.block Sample.immediate) [Sample.grid])) in
  DragState.position (World.dragState w) = Some (Point.mk 50 50) /\
  map (fun z => UseDropZone.isPositionOver
                  (DropZone.elementRef z)
                  (DragState.position (World.dragState w)))
      (World.dropZones w) = [false] /\
  drops (Run.trace (App.dispatch App.MouseUp w))
    = [("grid", [[true]], Point.mk 50 50)].
Proof. cbv zeta. repeat split. Qed.

(** ** Keyboard *)

(** C4, as amended.  A press of Space or Enter on an enabled draggable goes
    through [handleDragStart] with the centre of the element as position
    and half its width and height as offset.  With no delay and no distance
    in force it calls [startDrag] with them at once, with no pending state
    and no timer.  With a delay or a distance in force it calls nothing:
    the draggable becomes pending at that position and offset, and the
    timer is armed when there is a delay. *)
Theorem keyboard_activation (T : Type) (w : World T) (key : string)
    (rect : Rect) :
  UseDraggable.disabled w = false ->
  key = " " \/ key = "Enter" ->
  let position := Point.mk (Rect.left rect + Rect.width rect / 2)
                           (Rect.top rect + Rect.height rect / 2) in
  let offset := Point.mk (Rect.width rect / 2) (Rect.height rect / 2) in
  let r := App.dispatch (App.KeyDown key (Some rect)) w in
  (minDelay w <= 0 /\ minDistance w <= 0 ->
   commands (Run.trace r)
     = [DnDContext.StartDrag (UseDraggable.dragData w) position offset] /\
   fired (Run.trace r) = [DragStartEvent (UseDraggable.dragData w) position] /\
   UseDraggable.isOurDragRef (Run.world r) = true /\
   UseDraggable.isPending (Run.world r) = UseDraggable.isPending w /\
   UseDraggable.pendingStartRef (Run.world r)
     = UseDraggable.pendingStartRef w /\
   World.timeouts (Run.world r) = World.timeouts w /\
   exists over,
     World.dragState (Run.world r)
     = withOver over (started (UseDraggable.dragData w) position offset)) /\
  (0 < minDelay w \/ 0 < minDistance w ->
   commands (Run.trace r) = [] /\
   fired (Run.trace r) = [] /\
   UseDraggable.isPending (Run.world r) = true /\
   UseDraggable.pendingStartRef (Run.world r)
     = Some (PendingStart.mk position offset
               (if minDelay w >? 0 then Some (World.nextTimeout w)
                else None)) /\
   World.timeouts (Run.world r)
     = (if minDelay w >? 0
        then (World.nextTimeout w, Timeout.mk (minDelay w) position offset)
             :: World.timeouts w
        else World.timeouts w)).
Proof.
  intros Hen Hkey position offset r.
  assert (Hkeyb : String.eqb key " " || String.eqb key "Enter" = true)
    by (destruct Hkey as [-> | ->]; reflexivity).
  assert (Hesc : String.eqb key "Escape" = false)
    by (destruct Hkey as [-> | ->]; reflexivity).
  assert (Hdown : UseDraggable.handleKeyDown key rect w
                  = UseDraggable.handleDragStart position offset w).
  { unfold UseDraggable.handleKeyDown.
    unfold Run.bind at 1. unfold Run.gets at 1. rewrite Hen, Hkeyb.
    cbv zeta. subst position offset.
    match goal with
    | |- context [UseDraggable.handleDragStart ?p ?o w] =>
        destruct (UseDraggable.handleDragStart p o w) as [[[] w'] tr]
    end.
    reflexivity. }
  assert (Hdoc : forall w' : World T,
                   Provider.handleKeyDown key w' = (tt, w', [])).
  { intros w'. unfold Provider.handleKeyDown, Run.bind, Run.gets.
    rewrite Hesc. destruct (DragState.isDragging (World.dragState w'));
      reflexivity. }
  assert (Hr : r = Run.bind (UseDraggable.handleDragStart position offset)
                            (fun _ => App.flushEffects) w).
  { subst r. unfold App.dispatch, App.handle, Run.bind.
    rewrite Hdown.
    destruct (UseDraggable.handleDragStart position offset w) as [[[] w'] o].
    rewrite Hdoc.
    destruct (App.flushEffects w') as [[[] w''] o']. rewrite app_nil_r.
    reflexivity. }
  rewrite Hr. clear Hr Hdown. split.
  - intros [Hdelay Hdist].
    assert (Hnone : (minDelay w <=? 0) && (minDistance w <=? 0) = true).
    { apply andb_true_iff. split; apply leb_iff; assumption. }
    run_binds. rewrite (handleDragStart_immediate position offset w Hen Hnone).
    run_done.
    match goal with
    | |- context [App.flushEffects ?w2] =>
        destruct (flushEffects_run w2)
          as ((Hq1 & Hq2 & _) & [over Hds] & _ & Hctl & Hts & _)
    end.
    rewrite commands_app, fired_app, Hq1, Hq2.
    unfold UseDraggable.isPending, UseDraggable.isOurDragRef,
      UseDraggable.pendingStartRef in *.
    rewrite Hctl, Hts. repeat split. exists over. exact Hds.
  - intros Hsome.
    assert (Hpend : (minDelay w <=? 0) && (minDistance w <=? 0) = false).
    { apply andb_false_iff. destruct Hsome as [H | H]; [left | right];
        (destruct (_ <=? 0) eqn:E; [|reflexivity]);
        apply leb_iff in E; exfalso; exact (Qlt_not_le _ _ H E). }
    run_binds. rewrite (handleDragStart_pending position offset w Hen Hpend).
    run_done.
    match goal with
    | |- context [App.flushEffects ?w2] =>
        destruct (flushEffects_run w2)
          as ((Hq1 & Hq2 & _) & _ & _ & Hctl & Hts & _)
    end.
    cbn [app]. rewrite Hq1, Hq2.
    unfold UseDraggable.isPending, UseDraggable.pendingStartRef.
    rewrite Hctl, Hts. repeat split.
Qed.

Lemma keyboard_activation_witness :
  (let w := App.mount (Sample.block Sample.immediate) [Sample.grid] in
   let r := App.dispatch (App.KeyDown "Enter" (Some Sample.tile)) w in
   commands (Run.trace r)
     = [DnDContext.StartDrag Sample.item
          (Point.mk (40 + 20 / 2) (40 + 20 / 2))
          (Point.mk (20 / 2) (20 / 2))]) /\
  (let w := App.mount (Sample.block Sample.byDelay) [Sample.grid] in
   let r := App.dispatch (App.KeyDown " " (Some Sample.tile)) w in
   commands (Run.trace r) = [] /\
   UseDraggable.isPending (Run.world r) = true).
Proof.
  cbv zeta. split.
  - apply (proj1 (keyboard_activation Sample.Shape
                    (App.mount (Sample.block Sample.immediate) [Sample.grid])
                    "Enter" Sample.tile eq_refl (or_intror eq_refl))).
    split; discriminate.
  - destruct (proj2 (keyboard_activation Sample.Shape
                       (App.mount (Sample.block Sample.byDelay) [Sample.grid])
                       " " Sample.tile eq_refl (or_introl eq_refl))
                    (or_introl eq_refl))
      as (Hc & _ & Hp & _).
    split; [exact Hc | exact Hp].
Defined.

(** C4, as stated, fails.  With [{ distance: 10 }], and likewise with
    [{ delay: 300, tolerance: 5 }], a press of Space on the enabled
    draggable calls nothing on the coordinator: the draggable is pending
    and the coordinator idle; with the delay the timer is armed. *)
Lemma keyboard_with_constraints_is_pending :
  (let w := App.mount (Sample.block Sample.byDistance) [Sample.grid] in
   let r := App.dispatch (App.KeyDown " " (Some Sample.tile)) w in
   UseDraggable.disabled w = false /\
   commands (Run.trace r) = [] /\
   UseDraggable.isPending (Run.world r) = true /\
   World.dragState (Run.world r) = INITIAL_DRAG_STATE) /\
  (let w := App.mount (Sample.block Sample.byDelay) [Sample.grid] in
   let r := App.dispatch (App.KeyDown " " (Some Sample.tile)) w in
   UseDraggable.disabled w = false /\
   commands (Run.trace r) = [] /\
   UseDraggable.isPending (Run.world r) = true /\
   World.timeouts (Run.world r)
     = [(1%nat, Timeout.mk 300 (Point.mk (40 + 20 / 2) (40 + 20 / 2))
                           (Point.mk (20 / 2) (20 / 2)))] /\
   World.dragState (Run.world r) = INITIAL_DRAG_STATE).
Proof. cbv zeta. repeat split. Qed.

(** ** Drop commit under a static layout *)

Section TameFacts.
Context {T : Type}.

Lemma tame_ret {A} (a : A) : tame (Run.ret (T:=T) a).
Proof. intros w. repeat split; auto. Qed.

Lemma tame_gets {A} (f : World T -> A) : tame (Run.gets f).
Proof. intros w. repeat split; auto. Qed.

Lemma tame_observe (os : list (Observation T)) : tame (Run.observe os).
Proof. intros w. repeat split; auto. Qed.

Lemma tame_bind {A B} (m : Run.M T A) (k : A -> Run.M T B) :
  tame m -> (forall a, tame (k a)) -> tame (Run.bind m k).
Proof.
  intros Hm Hk w. rewrite bind_world.
  destruct (Hm w) as (Hz1 & Hmono1 & Hdeps1).
  destruct (Hk (Run.value (m w)) (Run.world (m w))) as (Hz2 & Hmono2 & Hdeps2).
  split; [congruence|]. split; [auto|].
  intros Hdue.
  destruct (World.effectsDue (Run.world (m w))) eqn:E.
  - rewrite (Hmono2 eq_refl) in Hdue. discriminate Hdue.
  - rewrite (Hdeps2 Hdue). apply Hdeps1. reflexivity.
Qed.

Lemma tame_setDraggable (f : World T -> Draggable) :
  tame (Run.modify (fun w => World.setDraggable (f w) w)).
Proof. intros w. repeat split; auto. Qed.

Lemma tame_setTimeouts (f : World T -> list (nat * Timeout))
    (g : World T -> nat) :
  tame (Run.modify (fun w => World.setTimeouts (f w) (g w) w)).
Proof. intros w. repeat split; auto. Qed.

Lemma tame_setTimeout (t : Timeout) : tame (UseDraggable.setTimeout (T:=T) t).
Proof. intros w. repeat split; auto. Qed.

Lemma tame_call (op : DnDContext.Operation T) : tame (Provider.call op).
Proof.
  intros w. destruct (call_run op w) as [_ Hw]. rewrite Hw. cbn.
  split; [reflexivity|]. split.
  - intros ->. reflexivity.
  - intros Hdue. apply orb_false_iff in Hdue. destruct Hdue as [_ Hch].
    unfold effectDeps.
    clear Hw.
    destruct (World.dragState w) as [ph dr item pos ip off del over].
    destruct op as [d p o | p | | | id]; cbn in *.
    + discriminate Hch.
    + unfold DnDContext.updateDrag; cbn.
      destruct ip; destruct dr; cbn in *; try discriminate Hch; reflexivity.
    + destruct dr, item, pos; cbn in *; try discriminate Hch; reflexivity.
    + destruct dr, item, pos; cbn in *; try discriminate Hch; reflexivity.
    + rewrite setOverDropZone_withOver. reflexivity.
Qed.

End TameFacts.

(** Decompose a handler into its steps. *)
Ltac tame_steps :=
  repeat first
    [ apply tame_ret | apply tame_gets | apply tame_observe
    | apply tame_call | apply tame_setDraggable | apply tame_setTimeouts
    | apply tame_setTimeout
    | apply tame_bind; [|intro]
    | match goal with
      | |- tame (if ?b then _ else _) => destruct b
      | |- tame (match ?x with _ => _ end) => destruct x
      end ].

Section TameHandlers.
Context {T : Type}.

Lemma tame_clearPending : tame (UseDraggable.clearPending (T:=T)).
Proof.
  unfold UseDraggable.clearPending, UseDraggable.clearTimeout,
    UseDraggable.setPendingStartRef, UseDraggable.setIsPending.
  tame_steps.
Qed.

#[local] Opaque UseDraggable.clearPending.

Lemma tame_startDrag (data : DragData T) (position offset : Point) :
  tame (Provider.startDrag data position offset).
Proof. apply tame_call. Qed.

Lemma tame_handleDragStart (position offset : Point) :
  tame (UseDraggable.handleDragStart (T:=T) position offset).
Proof.
  unfold UseDraggable.handleDragStart, UseDraggable.setIsOurDragRef,
    UseDraggable.setPendingStartRef, UseDraggable.setIsPending,
    Provider.startDrag.
  tame_steps.
Qed.

#[local] Opaque UseDraggable.handleDragStart.

Lemma tame_handleMove (position : Point) :
  tame (UseDraggable.handleMove (T:=T) position).
Proof.
  unfold UseDraggable.handleMove, UseDraggable.setIsOurDragRef,
    Provider.startDrag, Provider.updateDrag.
  tame_steps; apply tame_clearPending.
Qed.

#[local] Opaque UseDraggable.handleMove.

Lemma tame_handleDragEnd : tame (UseDraggable.handleDragEnd (T:=T)).
Proof.
  unfold UseDraggable.handleDragEnd, UseDraggable.setIsOurDragRef,
    Provider.endDrag.
  apply tame_bind; [apply tame_clearPending | intro]. tame_steps.
Qed.

#[local] Opaque UseDraggable.handleDragEnd.

Lemma tame_handleCancel : tame (UseDraggable.handleCancel (T:=T)).
Proof.
  unfold UseDraggable.handleCancel, UseDraggable.setIsOurDragRef,
    Provider.cancelDrag.
  apply tame_bind; [apply tame_clearPending | intro]. tame_steps.
Qed.

#[local] Opaque UseDraggable.handleCancel.

Lemma tame_onTimeout (position offset : Point) :
  tame (UseDraggable.onTimeout (T:=T) position offset).
Proof.
  unfold UseDraggable.onTimeout, UseDraggable.setIsOurDragRef,
    Provider.startDrag.
  tame_steps; apply tame_clearPending.
Qed.

#[local] Opaque UseDraggable.onTimeout.

Lemma tame_handle (ev : App.Input) : static ev -> tame (App.handle (T:=T) ev).
Proof.
  intros Hev. destruct ev; try destruct Hev; unfold App.handle.
  - unfold UseDraggable.handleMouseDown. tame_steps.
    apply tame_handleDragStart.
  - unfold UseDraggable.handleTouchStart. tame_steps.
    apply tame_handleDragStart.
  - unfold UseDraggable.handleKeyDown, Provider.handleKeyDown,
      Provider.cancelDrag.
    tame_steps; apply tame_handleDragStart.
  - tame_steps. apply tame_handleMove.
  - tame_steps. apply tame_handleMove.
  - unfold App.dropListeners. tame_steps. apply tame_handleDragEnd.
  - unfold App.dropListeners. tame_steps. apply tame_handleDragEnd.
  - tame_steps. apply tame_handleCancel.
  - unfold UseDraggable.clearTimeout. tame_steps. apply tame_onTimeout.
Qed.

#[local] Transparent UseDraggable.clearPending UseDraggable.handleDragStart
  UseDraggable.handleMove UseDraggable.handleDragEnd UseDraggable.handleCancel
  UseDraggable.onTimeout.

End TameHandlers.

Section SettledFacts.
Context {T : Type}.

Lemma accepts_effectDeps (s s' : DragState T) (z : DropZone T) :
  effectDeps s = effectDeps s' -> accepts s z = accepts s' z.
Proof.
  unfold effectDeps, accepts. intros [= -> -> ->]. reflexivity.
Qed.

Lemma accepts_dragStateEffect (s snapshot : DragState T) (z : DropZone T) :
  accepts s (fst (UseDropZone.dragStateEffect snapshot z)) = accepts s z.
Proof.
  unfold accepts.
  destruct (dragStateEffect_config snapshot z) as [-> ->]. reflexivity.
Qed.

Lemma accepts_iff (s : DragState T) (z : DropZone T) :
  accepts s z = true <->
  DragState.isDragging s = true /\
  UseDropZone.disabled (DropZone.config z) = false /\
  exists data position,
    DragState.data s = Some data /\
    DragState.position s = Some position /\
    match DropZoneConfig.accept (DropZone.config z) with
    | AcceptOne accepted => DragData.type data = accepted
    | AcceptMany types => In (DragData.type data) types
    end /\
    (exists rect, DropZone.elementRef z = Some rect /\
                  Utils.isPointInRect position rect = true) /\
    (forall canDrop,
       DropZoneConfig.canDrop (DropZone.config z) = Some canDrop ->
       canDrop (DragData.payload data) = true).
Proof.
  unfold accepts. destruct (DragState.data s) as [data|].
  - rewrite !andb_true_iff, isAcceptedType_iff, checkCanDrop_iff. split.
    + intros (((Hd & Hen & Hty) & Hover) & _ & Hcan).
      destruct (DragState.position s) as [position|];
        [|discriminate Hover].
      apply isPositionOver_iff in Hover.
      repeat split; auto. exists data, position. auto.
    + intros (Hd & Hen & d & position & [= <-] & Hpos & Hty & Hover & Hcan).
      rewrite Hpos. apply isPositionOver_iff in Hover. auto.
  - split; [discriminate|].
    intros (_ & _ & d & position & [=] & _).
Qed.

Lemma flushEffects_due (w : World T) :
  World.effectsDue w = true ->
  World.dropZones (Run.world (App.flushEffects w))
    = map (fun z => fst (UseDropZone.dragStateEffect (World.dragState w) z))
          (World.dropZones w) /\
  (exists over,
     World.dragState (Run.world (App.flushEffects w))
     = withOver over (World.dragState w)) /\
  World.effectsDue (Run.world (App.flushEffects w)) = false.
Proof.
  intros Hdue. unfold App.flushEffects.
  run_binds. cbn. rewrite Hdue. run_binds. cbn.
  destruct (runEffects_run (World.dragState w) (World.dropZones w) w)
    as ([over Hw] & _ & Hv).
  rewrite Hv, Hw. cbn. split; [reflexivity|].
  split; [exists over; reflexivity | reflexivity].
Qed.

Lemma settled_mount (config : DraggableConfig T)
    (zs : list (DropZoneConfig T * option Rect)) :
  settled (App.mount config
             (map (fun ce => UseDropZone.mount (fst ce) (snd ce)) zs)).
Proof.
  split; [reflexivity|]. cbn.
  induction zs as [|[c e] zs IH]; cbn; constructor; auto.
  split; reflexivity.
Qed.

Lemma settled_dispatch (w : World T) (ev : App.Input) :
  settled w -> static ev -> settled (Run.world (App.dispatch ev w)).
Proof.
  intros [Hdue Hzs] Hev. unfold App.dispatch. rewrite bind_world.
  destruct (tame_handle ev Hev w) as (Hz & _ & Hdeps).
  set (w1 := Run.world (App.handle ev w)) in *.
  destruct (World.effectsDue w1) eqn:Hdue1.
  - destruct (flushEffects_due w1 Hdue1) as (Hzones & [over Hds] & Hdone).
    split; [exact Hdone|]. rewrite Hzones, Hds, Hz.
    apply Forall_map. apply (Forall_impl _ (P := fun z => inStep z /\ _) ) with (2 := Hzs).
    intros z [Hstep _]. split.
    + apply inStep_dragStateEffect. exact Hstep.
    + rewrite (dragStateEffect_dropState (World.dragState w1) z Hstep).
      rewrite accepts_dragStateEffect. reflexivity.
  - rewrite (flushEffects_idle w1 Hdue1). run_done.
    split; [exact Hdue1|]. rewrite Hz.
    apply (Forall_impl _ (P := fun z => inStep z /\ _)) with (2 := Hzs).
    intros z [Hstep Hacc]. split; [exact Hstep|].
    rewrite Hacc. apply accepts_effectDeps. symmetry. apply Hdeps.
    reflexivity.
Qed.

Lemma settled_dispatchAll (evs : list App.Input) :
  Forall static evs ->
  forall w : World T,
    settled w -> settled (Run.world (App.dispatchAll evs w)).
Proof.
  induction 1 as [|ev rest Hev _ IH]; intros w Hw; cbn; [exact Hw|].
  rewrite bind_world. apply IH. apply settled_dispatch; assumption.
Qed.

End SettledFacts.

Section ReleaseFacts.
Context {T : Type}.

(** What the release listener of a zone in step with the drag state
    calls. *)
Lemma onRelease_accepts (s : DragState T) (z : DropZone T) :
  DropState.isOver (DropZone.dropState z)
  && DropState.canDrop (DropZone.dropState z) = accepts s z ->
  UseDropZone.onRelease s z =
    if accepts s z then
      match DragState.data s, DragState.position s with
      | Some data, Some position => [OnDrop (DragData.payload data) position]
      | _, _ => []
      end
    else [].
Proof.
  intros Hacc. unfold UseDropZone.onRelease, UseDropZone.handleDrop.
  rewrite Hacc. unfold accepts.
  destruct (DragState.data s) as [data|];
    destruct (DragState.isDragging s); cbn; try reflexivity.
  destruct (DragState.position s); destruct (_ && _ && _); reflexivity.
Qed.

Lemma drops_zone (id : DropZoneId) (cbs : list (ZoneCallback T))
    (rest : list (Observation T)) :
  drops (map (Zone id) cbs ++ rest)
  = flat_map (fun cb => match cb with
                        | OnDrop payload position => [(id, payload, position)]
                        | _ => []
                        end) cbs
    ++ drops rest.
Proof.
  induction cbs as [|[] cbs IH]; cbn; rewrite ?IH; reflexivity.
Qed.

(** The [onDrop] calls of a release in a settled world: one for each zone
    whose verdict on the drag state is positive. *)
Lemma settled_release (w : World T) (release : App.Input) :
  release = App.MouseUp \/ release = App.TouchEnd ->
  settled w ->
  drops (Run.trace (App.dispatch release w)) =
    flat_map
      (fun z =>
         if accepts (World.dragState w) z then
           match DragState.data (World.dragState w),
                 DragState.position (World.dragState w) with
           | Some data, Some position =>
               [(DropZoneConfig.id (DropZone.config z),
                 DragData.payload data, position)]
           | _, _ => []
           end
         else [])
      (World.dropZones w).
Proof.
  intros Hrel [_ Hzs].
  assert (Hlisten :
    drops (Run.trace (App.dropListeners w)) =
      flat_map
        (fun z =>
           if accepts (World.dragState w) z then
             match DragState.data (World.dragState w),
                   DragState.position (World.dragState w) with
             | Some data, Some position =>
                 [(DropZoneConfig.id (DropZone.config z),
                   DragData.payload data, position)]
             | _, _ => []
             end
           else [])
        (World.dropZones w)).
  { unfold App.dropListeners. run_binds. run_done. cbn [app].
    induction Hzs as [|z zs [_ Hacc] _ IH]; [reflexivity|].
    cbn [flat_map]. rewrite drops_zone, IH.
    rewrite (onRelease_accepts (World.dragState w) z Hacc).
    destruct (accepts (World.dragState w) z); [|reflexivity].
    destruct (DragState.data (World.dragState w));
      [destruct (DragState.position (World.dragState w))|]; reflexivity. }
  assert (Hworld : Run.world (App.dropListeners w) = w) by reflexivity.
  assert (Hh : drops (Run.trace (App.handle release w))
               = drops (Run.trace (App.dropListeners w))).
  { destruct Hrel as [-> | ->]; unfold App.handle; run_binds; run_done;
      rewrite !drops_app, Hworld;
      (destruct (UseDraggable.listening w);
       [rewrite handleDragEnd_drops | run_done; cbn [drops]]);
      rewrite app_nil_r; reflexivity. }
  unfold App.dispatch. run_binds. rewrite drops_app, Hh, Hlisten.
  destruct (flushEffects_run (Run.world (App.handle release w)))
    as ((_ & _ & Hq) & _).
  rewrite Hq. apply app_nil_r.
Qed.

End ReleaseFacts.

(** X21.  Drop commit under a static layout.  In a tree whose events since the
    mount left the layout as it was, a release calls the [onDrop] of a zone
    with a
    payload and a position exactly when a drag is active whose payload and
    position they are, the zone is enabled and accepts the drag type, the
    position is inside the bounding rectangle the zone's element has at the
    release, and [canDrop], when given, is true on the payload. *)
Theorem static_layout_commit (T : Type) (config : DraggableConfig T)
    (zs : list (DropZoneConfig T * option Rect)) (evs : list App.Input)
    (release : App.Input) (id : DropZoneId) (payload : T) (position : Point) :
  Forall static evs ->
  release = App.MouseUp \/ release = App.TouchEnd ->
  let w :=
    Run.world
      (App.dispatchAll evs
         (App.mount config
            (map (fun ce => UseDropZone.mount (fst ce) (snd ce)) zs))) in
  In (id, payload, position) (drops (Run.trace (App.dispatch release w))) <->
  exists z,
    In z (World.dropZones w) /\
    DropZoneConfig.id (DropZone.config z) = id /\
    DragState.isDragging (World.dragState w) = true /\
    DragState.position (World.dragState w) = Some position /\
    UseDropZone.disabled (DropZone.config z) = false /\
    (exists rect, DropZone.elementRef z = Some rect /\
                  Utils.isPointInRect position rect = true) /\
    (exists data,
       DragState.data (World.dragState w) = Some data /\
       DragData.payload data = payload /\
       match DropZoneConfig.accept (DropZone.config z) with
       | AcceptOne accepted => DragData.type data = accepted
       | AcceptMany types => In (DragData.type data) types
       end) /\
    (forall canDrop,
       DropZoneConfig.canDrop (DropZone.config z) = Some canDrop ->
       canDrop payload = true).
Proof.
  intros Hevs Hrel w.
  assert (Hw : settled w)
    by (apply settled_dispatchAll; [exact Hevs | apply settled_mount]).
  rewrite (settled_release w release Hrel Hw), in_flat_map.
  split.
  - intros (z & Hz & Hin).
    destruct (accepts (World.dragState w) z) eqn:Hacc; [|destruct Hin].
    apply accepts_iff in Hacc.
    destruct Hacc as (Hd & Hen & data & p & Hdata & Hpos & Hty & Hover & Hcan).
    rewrite Hdata, Hpos in Hin. destruct Hin as [[= <- <- <-] | []].
    exists z. repeat split; auto. exists data. auto.
  - intros (z & Hz & <- & Hd & Hpos & Hen & Hover & (data & Hdata & <- & Hty)
            & Hcan).
    exists z. split; [exact Hz|].
    assert (Hacc : accepts (World.dragState w) z = true).
    { apply accepts_iff. repeat split; auto.
      exists data, position. auto. }
    rewrite Hacc, Hdata, Hpos. left. reflexivity.
Qed.

Lemma static_layout_commit_witness :
  let w :=
    Run.world
      (App.dispatchAll
         [App.MouseDown 0 (Point.mk 50 50) Sample.tile;
          App.MouseMove (Point.mk 120 120)]
         (App.mount (Sample.block Sample.immediate)
            (map (fun ce => UseDropZone.mount (fst ce) (snd ce))
                 [(DropZoneConfig.mk "grid" (AcceptOne "block")
                                     (Some (fun _ : Sample.Shape => true)) None,
                   Some (Rect.mk 0 0 400 400 400 400))]))) in
  In ("grid", [[true]], Point.mk 120 120)
     (drops (Run.trace (App.dispatch App.MouseUp w))).
Proof.
  cbv zeta.
  refine (proj2 (static_layout_commit Sample.Shape
                   (Sample.block Sample.immediate)
                   [(DropZoneConfig.mk "grid" (AcceptOne "block")
                                       (Some (fun _ => true)) None,
                     Some (Rect.mk 0 0 400 400 400 400))]
                   [App.MouseDown 0 (Point.mk 50 50) Sample.tile;
                    App.MouseMove (Point.mk 120 120)]
                   App.MouseUp "grid" [[true]] (Point.mk 120 120)
                   _ (or_introl eq_refl)) _).
  - constructor; [exact I|]. constructor; [exact I | constructor].
  - eexists. split; [left; reflexivity|].
    repeat split.
    + exists (Rect.mk 0 0 400 400 400 400). split; reflexivity.
    + exists Sample.item. repeat split.
    + intros canDrop [= <-]. reflexivity.
Defined.

(** * Further properties *)

(** ** Rectangles and points *)

(** The overlap of two intervals, as [intersectionArea] computes it. *)
Lemma overlap_facts (lo1 hi1 lo2 hi2 : Q) :
  let overlap := Qmax 0 (Qmin hi1 hi2 - Qmax lo1 lo2) in
  0 <= overlap /\
  (0 < overlap -> lo2 < hi1 /\ lo1 < hi2) /\
  (lo1 <= hi1 -> overlap <= hi1 - lo1) /\
  overlap == Qmax 0 (Qmin hi2 hi1 - Qmax lo2 lo1).
Proof.
  cbv zeta.
  destruct (Q.max_spec 0 (Qmin hi1 hi2 - Qmax lo1 lo2)) as [[H1 H2] | [H1 H2]];
    destruct (Q.max_spec 0 (Qmin hi2 hi1 - Qmax lo2 lo1))
      as [[H7 H8] | [H7 H8]];
    destruct (Q.min_spec hi1 hi2) as [[H3 H4] | [H3 H4]];
    destruct (Q.min_spec hi2 hi1) as [[H9 H10] | [H9 H10]];
    destruct (Q.max_spec lo1 lo2) as [[H5 H6] | [H5 H6]];
    destruct (Q.max_spec lo2 lo1) as [[H11 H12] | [H11 H12]];
    rewrite H2, H8; rewrite ?H4, ?H6, ?H10, ?H12 in *;
    repeat split; intros; try Lqa.lra.
Qed.

Lemma ltb_false_iff (a b : Q) : (a <? b) = false <-> b <= a.
Proof. unfold Num.ltb. rewrite negb_false_iff. apply Qle_bool_iff. Qed.

Lemma rectsIntersect_iff (a b : Rect) :
  Utils.rectsIntersect a b = true <->
  Rect.left b <= Rect.right a /\ Rect.left a <= Rect.right b /\
  Rect.top b <= Rect.bottom a /\ Rect.top a <= Rect.bottom b.
Proof.
  unfold Utils.rectsIntersect.
  rewrite negb_true_iff, !orb_false_iff, !ltb_false_iff, !gtb_false_iff.
  tauto.
Qed.

(** X1.  The intersection area is never negative and does not depend on
    the order of the two rectangles, no more than [rectsIntersect] does;
    rectangles with a positive intersection area intersect, and
    rectangles that do not intersect have intersection area 0. *)
Theorem intersectionArea_rectsIntersect (a b : Rect) :
  0 <= Utils.intersectionArea a b /\
  Utils.intersectionArea a b == Utils.intersectionArea b a /\
  Utils.rectsIntersect a b = Utils.rectsIntersect b a /\
  (0 < Utils.intersectionArea a b -> Utils.rectsIntersect a b = true) /\
  (Utils.rectsIntersect a b = false -> Utils.intersectionArea a b == 0).
Proof.
  unfold Utils.intersectionArea; cbv zeta.
  destruct (overlap_facts (Rect.left a) (Rect.right a)
                          (Rect.left b) (Rect.right b))
    as (Hx0 & Hxpos & _ & Hxsym).
  destruct (overlap_facts (Rect.top a) (Rect.bottom a)
                          (Rect.top b) (Rect.bottom b))
    as (Hy0 & Hypos & _ & Hysym).
  cbv zeta in *.
  set (xo := Qmax 0 (Qmin (Rect.right a) (Rect.right b)
                     - Qmax (Rect.left a) (Rect.left b))) in *.
  set (yo := Qmax 0 (Qmin (Rect.bottom a) (Rect.bottom b)
                     - Qmax (Rect.top a) (Rect.top b))) in *.
  assert (Hpos : 0 < xo * yo -> Utils.rectsIntersect a b = true).
  { intros Hp. apply rectsIntersect_iff.
    assert (Hx : 0 < xo) by Lqa.nra. assert (Hy : 0 < yo) by Lqa.nra.
    destruct (Hxpos Hx), (Hypos Hy). repeat split; Lqa.lra. }
  split; [Lqa.nra|]. split; [rewrite Hxsym, Hysym; reflexivity|].
  split.
  - destruct (Utils.rectsIntersect a b) eqn:Ea;
      destruct (Utils.rectsIntersect b a) eqn:Eb; try reflexivity.
    + apply rectsIntersect_iff in Ea.
      assert (Utils.rectsIntersect b a = true)
        by (apply rectsIntersect_iff; tauto).
      congruence.
    + apply rectsIntersect_iff in Eb.
      assert (Utils.rectsIntersect a b = true)
        by (apply rectsIntersect_iff; tauto).
      congruence.
  - split; [exact Hpos|]. intros Hno.
    destruct (Qlt_le_dec 0 (xo * yo)) as [Hp | Hn].
    + rewrite (Hpos Hp) in Hno. discriminate Hno.
    + apply Qle_antisym; [exact Hn | Lqa.nra].
Qed.

Lemma intersectionArea_rectsIntersect_witness :
  Utils.rectsIntersect (Rect.mk 0 0 10 10 10 10) (Rect.mk 5 5 15 15 10 10)
    = true /\
  Utils.intersectionArea (Rect.mk 0 0 10 10 10 10) (Rect.mk 20 20 30 30 10 10)
    == 0.
Proof.
  split.
  - apply (intersectionArea_rectsIntersect (Rect.mk 0 0 10 10 10 10)
                                           (Rect.mk 5 5 15 15 10 10)).
    reflexivity.
  - apply (intersectionArea_rectsIntersect (Rect.mk 0 0 10 10 10 10)
                                           (Rect.mk 20 20 30 30 10 10)).
    reflexivity.
Defined.

(** X3.  Two rectangles that contain a common point intersect: where the
    pointer collides with both, the rectangles collide. *)
Theorem common_point_rects_intersect (p : Point) (a b : Rect) :
  Utils.pointerCollision p a = true ->
  Utils.pointerCollision p b = true ->
  Utils.rectCollision a b = true.
Proof.
  unfold Utils.pointerCollision, Utils.rectCollision.
  rewrite !isPointInRect_iff, rectsIntersect_iff.
  intros ((H1 & H2) & H3 & H4) ((H5 & H6) & H7 & H8).
  repeat split; Lqa.lra.
Qed.

Lemma common_point_rects_intersect_witness :
  Utils.rectCollision (Rect.mk 0 0 10 10 10 10) (Rect.mk 10 10 20 20 10 10)
    = true.
Proof.
  apply (common_point_rects_intersect (Point.mk 10 10)
           (Rect.mk 0 0 10 10 10 10) (Rect.mk 10 10 20 20 10 10));
    reflexivity.
Defined.

(** X4.  The centre of a bounding rectangle lies inside it. *)
Theorem center_inside (r : Rect) :
  isBoundingRect r -> Utils.isPointInRect (Utils.center r) r = true.
Proof.
  intros (Hr & Hb & Hw & Hh). apply isPointInRect_iff. cbn.
  rewrite Hr, Hb.
  assert (Hx : 0 <= Rect.width r / 2) by (apply Qle_shift_div_l; Lqa.lra).
  assert (Hy : 0 <= Rect.height r / 2) by (apply Qle_shift_div_l; Lqa.lra).
  assert (Hx2 : Rect.width r / 2 <= Rect.width r)
    by (apply Qle_shift_div_r; Lqa.lra).
  assert (Hy2 : Rect.height r / 2 <= Rect.height r)
    by (apply Qle_shift_div_r; Lqa.lra).
  repeat split; Lqa.lra.
Qed.

Lemma center_inside_witness :
  Utils.isPointInRect (Utils.center Sample.tile) Sample.tile = true.
Proof.
  apply (center_inside Sample.tile).
  unfold isBoundingRect; cbn. repeat split; Lqa.lra.
Defined.

(** X5.  The distance between two points does not depend on their order,
    is never negative, and is 0 exactly between points with equal
    coordinates; the centre distance of two rectangles does not depend on
    their order either. *)
Theorem distance_facts (a b : Point) (r s : Rect) :
  Utils.distance a b = Utils.distance b a /\
  (0 <= Utils.distance a b)%R /\
  (Utils.distance a b = 0%R <-> samePoint a b) /\
  Utils.closestCenterDistance r s = Utils.closestCenterDistance s r.
Proof.
  assert (Hsym : forall p q : Point, Utils.distance p q = Utils.distance q p).
  { intros p q. unfold Utils.distance. f_equal. apply Qeq_eqR.
    unfold Utils.distanceSquared. Lqa.lra. }
  split; [apply Hsym|]. split; [apply sqrt_pos|].
  split; [|apply Hsym].
  unfold Utils.distance, samePoint. split.
  - intros H0.
    pose proof (sqrt_eq_0 _ (distanceSquared_nonneg a b) H0) as Hd.
    rewrite <- RMicromega.Q2R_0 in Hd. apply eqR_Qeq in Hd.
    unfold Utils.distanceSquared in Hd.
    set (u := Point.x b - Point.x a) in *.
    set (v := Point.y b - Point.y a) in *.
    assert (Hu : 0 <= u * u) by Lqa.nra.
    assert (Hv : 0 <= v * v) by Lqa.nra.
    assert (Hx : u * u == 0) by (apply Qle_antisym; Lqa.lra).
    assert (Hy : v * v == 0) by (apply Qle_antisym; Lqa.lra).
    subst u v.
    split.
    + destruct (Qmult_integral _ _ Hx); Lqa.lra.
    + destruct (Qmult_integral _ _ Hy); Lqa.lra.
  - intros [Hx Hy].
    assert (Hd : Utils.distanceSquared a b == 0)
      by (unfold Utils.distanceSquared; rewrite Hx, Hy; Lqa.lra).
    rewrite (Qeq_eqR _ _ Hd), RMicromega.Q2R_0. apply sqrt_0.
Qed.

(** ** The coordinator, further *)

Section DeltaFacts.
Context {T : Type}.

Lemma deltaAgrees_perform (op : DnDContext.Operation T) (s : DragState T) :
  deltaAgrees s -> deltaAgrees (fst (DnDContext.perform op s)).
Proof.
  intros Hs. destruct op as [d p o | p | | | id]; cbn.
  - intros p' ip [= <-] [= <-]. split; cbn; Lqa.lra.
  - unfold DnDContext.updateDrag.
    destruct (DragState.initialPosition s) as [ip|] eqn:Hip; [|exact Hs].
    destruct (DragState.isDragging s); [|exact Hs]. cbn.
    intros p' ip' [= <-] [= <-]. split; reflexivity.
  - intros p ip [=].
  - intros p ip [=].
  - rewrite setOverDropZone_withOver. exact Hs.
Qed.

End DeltaFacts.

(** X6.  In every drag state reachable by calls of the coordinator, delta
    is [delta initialPosition position], the position minus the initial
    position coordinate by coordinate, as [updateDrag] subtracts them. *)
Theorem reachable_delta (T : Type) (s : DragState T)
    (position initialPosition : Point) :
  DnDContext.reachable s ->
  DragState.position s = Some position ->
  DragState.initialPosition s = Some initialPosition ->
  samePoint (DragState.delta s) (Utils.delta initialPosition position).
Proof.
  intros [ops <-].
  assert (H : deltaAgrees (fst (DnDContext.performAll ops
                                  (@INITIAL_DRAG_STATE T)))).
  { assert (H0 : deltaAgrees (@INITIAL_DRAG_STATE T))
      by (intros p ip [=]).
    revert H0. generalize (@INITIAL_DRAG_STATE T).
    induction ops as [|op rest IH]; intros s0 Hs0; cbn; [exact Hs0|].
    pose proof (deltaAgrees_perform op s0 Hs0) as H1.
    destruct (DnDContext.perform op s0) as [s1 evs1]; cbn in H1.
    specialize (IH s1 H1).
    destruct (DnDContext.performAll rest s1) as [s2 evs2]; cbn in *.
    exact IH. }
  intros Hp Hip. exact (H position initialPosition Hp Hip).
Qed.

Lemma reachable_delta_witness :
  let s : DragState nat :=
    fst (DnDContext.performAll
           [DnDContext.StartDrag (DragData.mk "b1" "block" 7%nat)
                                 (Point.mk 50 50) (Point.mk 10 10);
            DnDContext.UpdateDrag (Point.mk 120 90)]
           INITIAL_DRAG_STATE) in
  samePoint (DragState.delta s)
            (Utils.delta (Point.mk 50 50) (Point.mk 120 90)).
Proof.
  cbv zeta.
  apply (reachable_delta nat _ (Point.mk 120 90) (Point.mk 50 50)).
  - exists [DnDContext.StartDrag (DragData.mk "b1" "block" 7%nat)
                                 (Point.mk 50 50) (Point.mk 10 10);
            DnDContext.UpdateDrag (Point.mk 120 90)].
    reflexivity.
  - reflexivity.
  - reflexivity.
Defined.

Section StreamFacts.
Context {T : Type}.

Lemma coherent_perform (op : DnDContext.Operation T) (s : DragState T)
    (rest : list (DragEvent T)) :
  coherent (DragState.data (fst (DnDContext.perform op s))) rest ->
  coherent (DragState.data s) (snd (DnDContext.perform op s) ++ rest).
Proof.
  destruct op as [d p o | p | | | id]; cbn.
  - auto.
  - unfold DnDContext.updateDrag.
    destruct (DragState.initialPosition s) as [ip|]; [|auto].
    destruct (DragState.isDragging s); cbn; [|auto].
    destruct (DragState.data s) as [d|]; cbn; auto.
  - destruct (DragState.data s) as [d|]; cbn; auto.
  - destruct (DragState.data s) as [d|]; cbn; auto.
  - rewrite setOverDropZone_withOver. auto.
Qed.

(** A state with no drag stays silent under everything but [startDrag]. *)
Lemma silent_performAll (ops : list (DnDContext.Operation T)) :
  Forall notStart ops ->
  forall s : DragState T,
    DragState.data s = None -> DragState.isDragging s = false ->
    snd (DnDContext.performAll ops s) = [] /\
    DragState.data (fst (DnDContext.performAll ops s)) = None /\
    DragState.isDragging (fst (DnDContext.performAll ops s)) = false.
Proof.
  induction 1 as [|op rest Hop _ IH]; intros s Hdata Hdrag; cbn; [auto|].
  assert (Hstep : snd (DnDContext.perform op s) = [] /\
                  DragState.data (fst (DnDContext.perform op s)) = None /\
                  DragState.isDragging (fst (DnDContext.perform op s))
                  = false).
  { destruct op as [d p o | p | | | id]; cbn.
    - destruct Hop.
    - unfold DnDContext.updateDrag. rewrite Hdrag.
      destruct (DragState.initialPosition s); auto.
    - rewrite Hdata. auto.
    - rewrite Hdata. auto.
    - rewrite setOverDropZone_withOver. auto. }
  destruct (DnDContext.perform op s) as [s1 evs1]; cbn in Hstep.
  destruct Hstep as (-> & Hd1 & Hg1).
  specialize (IH s1 Hd1 Hg1).
  destruct (DnDContext.performAll rest s1) as [s2 evs2]; cbn in *.
  exact IH.
Qed.

End StreamFacts.

(** X7.  Over any sequence of calls of the coordinator, from any state and
    with a render of the provider between every two calls, the events
    handed to the provider fit together: every drag-move and every
    drag-end carries the item of the latest drag-start, and after a
    drag-end no drag-move and no drag-end is fired before the next
    drag-start. *)
Theorem events_coherent (T : Type) (ops : list (DnDContext.Operation T))
    (s : DragState T) :
  coherent (DragState.data s) (snd (DnDContext.performAll ops s)).
Proof.
  revert s. induction ops as [|op rest IH]; intros s; cbn; [exact I|].
  pose proof (coherent_perform op s) as Hstep.
  destruct (DnDContext.perform op s) as [s1 evs1]; cbn in Hstep.
  specialize (IH s1).
  destruct (DnDContext.performAll rest s1) as [s2 evs2]; cbn in *.
  apply Hstep. exact IH.
Qed.

(** X8.  [endDrag] and [cancelDrag] put the coordinator back in the initial
    state, whatever the state was; once the provider has rendered, every
    sequence of calls without a [startDrag], again with a render between
    every two calls, fires no event and starts no drag: a second [endDrag]
    or [cancelDrag] and late [updateDrag]s are then ignored. *)
Theorem finished_drag_is_silent (T : Type) (finish : DnDContext.Operation T)
    (s : DragState T) (ops : list (DnDContext.Operation T)) :
  finish = DnDContext.EndDrag \/ finish = DnDContext.CancelDrag ->
  Forall notStart ops ->
  fst (DnDContext.perform finish s) = INITIAL_DRAG_STATE /\
  snd (DnDContext.performAll ops (fst (DnDContext.perform finish s))) = [] /\
  DragState.isDragging
    (fst (DnDContext.performAll ops (fst (DnDContext.perform finish s))))
  = false.
Proof.
  intros Hfinish Hops.
  assert (Hinit : fst (DnDContext.perform finish s) = INITIAL_DRAG_STATE)
    by (destruct Hfinish as [-> | ->]; reflexivity).
  rewrite Hinit. split; [reflexivity|].
  destruct (silent_performAll ops Hops (@INITIAL_DRAG_STATE T)
              eq_refl eq_refl) as (He & _ & Hd).
  split; assumption.
Qed.

Lemma finished_drag_is_silent_witness :
  let s : DragState nat :=
    fst (DnDContext.startDrag (DragData.mk "b1" "block" 7%nat)
                              (Point.mk 50 50) (Point.mk 10 10)
                              INITIAL_DRAG_STATE) in
  fst (DnDContext.perform DnDContext.EndDrag s) = INITIAL_DRAG_STATE /\
  snd (DnDContext.performAll
         [DnDContext.EndDrag; DnDContext.UpdateDrag (Point.mk 1 1);
          DnDContext.CancelDrag]
         (fst (DnDContext.perform DnDContext.EndDrag s))) = [] /\
  DragState.isDragging
    (fst (DnDContext.performAll
            [DnDContext.EndDrag; DnDContext.UpdateDrag (Point.mk 1 1);
             DnDContext.CancelDrag]
            (fst (DnDContext.perform DnDContext.EndDrag s)))) = false.
Proof.
  cbv zeta.
  apply (finished_drag_is_silent nat DnDContext.EndDrag
           (fst (DnDContext.startDrag (DragData.mk "b1" "block" 7%nat)
                                      (Point.mk 50 50) (Point.mk 10 10)
                                      INITIAL_DRAG_STATE))
           [DnDContext.EndDrag; DnDContext.UpdateDrag (Point.mk 1 1);
            DnDContext.CancelDrag]).
  - left. reflexivity.
  - repeat constructor.
Defined.

(** [setOverDropZone] changes the hovered drop zone and nothing else;
    it returns the state it was given exactly when the hovered drop zone is
    the one asked for; of two calls in a row the second decides. *)
Theorem setOverDropZone_facts (T : Type) (a b : option DropZoneId)
    (s : DragState T) :
  DnDContext.setOverDropZone a s = withOver a s /\
  (DnDContext.setOverDropZone a s = s <-> DragState.overDropZoneId s = a) /\
  DnDContext.setOverDropZone b (DnDContext.setOverDropZone a s)
  = DnDContext.setOverDropZone b s.
Proof.
  split; [apply setOverDropZone_withOver|]. split.
  - rewrite setOverDropZone_withOver. split.
    + intros H. rewrite <- H. reflexivity.
    + intros <-. destruct s; reflexivity.
  - rewrite !setOverDropZone_withOver. reflexivity.
Qed.

(** ** The draggable, further *)

Section OwnedFacts.
Context {T : Type}.

Lemma owned_listening (w : World T) (initial offset current : Point) :
  owned w initial offset current -> UseDraggable.listening w = true.
Proof.
  intros (_ & _ & _ & over & del & Hds & _).
  unfold UseDraggable.listening, UseDraggable.isDragging.
  rewrite Hds. cbn. rewrite String.eqb_refl. reflexivity.
Qed.

Lemma owned_pickUp (touch : bool) (w : World T) (client : Point)
    (rect : Rect) :
  atRest w ->
  UseDraggable.disabled w = false ->
  minDelay w <= 0 -> minDistance w <= 0 ->
  let offset := Point.mk (Point.x client - Rect.left rect)
                         (Point.y client - Rect.top rect) in
  let r := App.dispatch (Gesture.down touch client rect) w in
  owned (Run.world r) client offset client /\
  commands (Run.trace r)
    = [DnDContext.StartDrag (UseDraggable.dragData w) client offset] /\
  fired (Run.trace r) = [DragStartEvent (UseDraggable.dragData w) client] /\
  drops (Run.trace r) = [] /\
  World.draggableConfig (Run.world r) = World.draggableConfig w.
Proof.
  intros (Hdrag & Hctl & Hts & Hdue) Hen Hdelay Hdist offset r.
  assert (Hnone : (minDelay w <=? 0) && (minDistance w <=? 0) = true)
    by (apply andb_true_iff; split; apply leb_iff; assumption).
  assert (Hh : App.handle (Gesture.down touch client rect) w
               = UseDraggable.handleDragStart client offset w).
  { destruct touch; cbn [Gesture.down];
      unfold App.handle, UseDraggable.handleMouseDown,
        UseDraggable.handleTouchStart;
      unfold Run.bind at 1; unfold Run.gets at 1; rewrite Hen;
      cbn [negb Z.eqb]; cbv zeta; subst offset;
      match goal with
      | |- context [UseDraggable.handleDragStart ?p ?o w] =>
          destruct (UseDraggable.handleDragStart p o w) as [[[] w'] tr]
      end;
      reflexivity. }
  subst r. unfold App.dispatch. run_binds. rewrite Hh.
  rewrite (handleDragStart_immediate client offset w Hen Hnone). run_done.
  match goal with
  | |- context [App.flushEffects ?w2] =>
      destruct (flushEffects_run w2)
        as ((Hq1 & Hq2 & Hq3) & [over Hds] & Hcfg & Hd & Hto & _ & Hdone)
  end.
  rewrite commands_app, fired_app, drops_app, Hq1, Hq2, Hq3.
  split; [|split; [reflexivity | split; [reflexivity |
             split; [reflexivity | exact Hcfg]]]].
  set (w3 := Run.world (App.flushEffects _)) in *.
  unfold owned. rewrite Hd, Hto, Hdone.
  unfold UseDraggable.isPending, UseDraggable.pendingStartRef.
  rewrite Hctl, Hts. cbn [World.draggable World.timeouts].
  repeat split.
  exists over, (Point.mk 0 0). rewrite Hds.
  unfold UseDraggable.dragData. rewrite Hcfg.
  split; [reflexivity|]. split; cbn; Lqa.lra.
Qed.

Lemma owned_move (touch : bool) (w : World T)
    (initial offset current p : Point) :
  owned w initial offset current ->
  let r := App.dispatch (Gesture.move touch p) w in
  owned (Run.world r) initial offset p /\
  commands (Run.trace r) = [DnDContext.UpdateDrag p] /\
  fired (Run.trace r)
    = [DragMoveEvent (UseDraggable.dragData w) p (Utils.delta initial p)] /\
  drops (Run.trace r) = [] /\
  World.draggableConfig (Run.world r) = World.draggableConfig w.
Proof.
  intros Hown r. pose proof (owned_listening _ _ _ _ Hown) as Hl.
  destruct Hown as (Hctl & Hts & Hdue & over & del & Hds & _).
  assert (Hh : App.handle (Gesture.move touch p) w =
    (tt,
     World.mk (DragState.mk DragPhase.dragging true
                 (Some (UseDraggable.dragData w)) (Some p) (Some initial)
                 offset (Utils.delta initial p) over)
              (World.draggableConfig w) (Draggable.mk false true None)
              (World.dropZones w) [] (World.nextTimeout w) true,
     [Called (DnDContext.UpdateDrag p);
      Fired (DragMoveEvent (UseDraggable.dragData w) p
                           (Utils.delta initial p))])).
  { assert (Hm : App.handle (Gesture.move touch p) w
                 = UseDraggable.handleMove p w).
    { destruct touch; cbn [Gesture.move]; unfold App.handle;
        unfold Run.bind at 1; unfold Run.gets at 1; rewrite Hl;
        destruct (UseDraggable.handleMove p w) as [[[] w'] tr];
        reflexivity. }
    rewrite Hm.
    unfold UseDraggable.handleMove, Run.bind, Run.gets,
      UseDraggable.pendingStartRef, UseDraggable.isOurDragRef.
    rewrite Hctl. cbn.
    unfold Provider.updateDrag, Provider.call. rewrite Hds. cbn.
    rewrite orb_true_r.
    destruct w as [ds config ctl zs ts n due]; cbn in *. subst.
    reflexivity. }
  subst r. unfold App.dispatch. run_binds. rewrite Hh. run_done.
  match goal with
  | |- context [App.flushEffects ?w2] =>
      destruct (flushEffects_run w2)
        as ((Hq1 & Hq2 & Hq3) & [over' Hds'] & Hcfg & Hd & Hto & _ & Hdone)
  end.
  set (w3 := Run.world (App.flushEffects _)) in *.
  rewrite commands_app, fired_app, drops_app, Hq1, Hq2, Hq3.
  split; [|split; [reflexivity | split; [reflexivity |
             split; [reflexivity | exact Hcfg]]]].
  unfold owned. rewrite Hd, Hto, Hdone.
  cbn [World.draggable World.timeouts].
  repeat split.
  exists over', (Utils.delta initial p). rewrite Hds'.
  unfold UseDraggable.dragData. rewrite Hcfg.
  split; [reflexivity|]. split; reflexivity.
Qed.

Lemma last_cons {A} (a : A) (l : list A) (d d' : A) :
  last (a :: l) d = last (a :: l) d'.
Proof.
  revert a. induction l as [|b l IH]; intros a; [reflexivity|].
  change (last (b :: l) d = last (b :: l) d'). apply IH.
Qed.

Lemma owned_moves (touch : bool) (moves : list Point) :
  forall (w : World T) (initial offset current : Point),
    owned w initial offset current ->
    let r := App.dispatchAll (map (Gesture.move touch) moves) w in
    owned (Run.world r) initial offset (last moves current) /\
    commands (Run.trace r) = map (@DnDContext.UpdateDrag T) moves /\
    fired (Run.trace r)
      = map (fun p => DragMoveEvent (UseDraggable.dragData w) p
                                    (Utils.delta initial p)) moves /\
    drops (Run.trace r) = [] /\
    World.draggableConfig (Run.world r) = World.draggableConfig w.
Proof.
  induction moves as [|p rest IH]; intros w initial offset current Hown.
  - cbn. split; [exact Hown | repeat split].
  - cbn [map App.dispatchAll]. cbv zeta. run_binds.
    destruct (owned_move touch w initial offset current p Hown)
      as (H1 & Hc & Hf & Hd & Hk).
    destruct (IH _ initial offset p H1) as (H2 & Hc2 & Hf2 & Hd2 & Hk2).
    rewrite commands_app, fired_app, drops_app, Hc, Hc2, Hf, Hf2, Hd, Hd2,
      Hk2, Hk.
    unfold UseDraggable.dragData at 2. rewrite Hk.
    split; [|repeat split].
    destruct rest as [|q rest']; [exact H2|].
    change (last (p :: q :: rest') current) with (last (q :: rest') current).
    rewrite (last_cons q rest' current p). exact H2.
Qed.

End OwnedFacts.

Section OwnedEndFacts.
Context {T : Type}.

Lemma dropListeners_run (w : World T) :
  App.dropListeners w =
    (tt, w,
     flat_map
       (fun z => map (Zone (DropZoneConfig.id (DropZone.config z)))
                     (UseDropZone.onRelease (World.dragState w) z))
       (World.dropZones w)).
Proof. reflexivity. Qed.

(** The calls of the release listeners of the zones: [onDrop] calls with
    the payload and the position of the drag state, and nothing else. *)
Lemma dropListeners_calls (w : World T) :
  Forall (fun o => exists id data position,
                     DragState.data (World.dragState w) = Some data /\
                     DragState.position (World.dragState w) = Some position /\
                     o = Zone id (OnDrop (DragData.payload data) position))
         (Run.trace (App.dropListeners w)).
Proof.
  rewrite dropListeners_run. run_done.
  induction (World.dropZones w) as [|z zs IH]; cbn [flat_map];
    [constructor|].
  apply Forall_app. split; [|exact IH].
  unfold UseDropZone.onRelease, UseDropZone.handleDrop.
  destruct (negb (DragState.isDragging (World.dragState w)));
    [constructor|].
  destruct (DragState.data (World.dragState w)) as [data|]; [|constructor].
  destruct (DragState.position (World.dragState w)) as [position|];
    [|constructor].
  destruct (_ && _); [|constructor].
  constructor; [|constructor].
  exists (DropZoneConfig.id (DropZone.config z)), data, position. auto.
Qed.

Lemma commands_dropListeners (w : World T) :
  commands (Run.trace (App.dropListeners w)) = [] /\
  fired (Run.trace (App.dropListeners w)) = [].
Proof.
  pose proof (dropListeners_calls w) as H.
  induction H as [|o os (id & d & p & _ & _ & ->) _ IH]; [split; reflexivity|].
  exact IH.
Qed.

(** The handlers of a release or a touch cancel in an owned drag. *)
Lemma owned_finish (w : World T) (initial offset current : Point)
    (ev : App.Input) (finish : DnDContext.Operation T) (cancelled : bool)
    (reported : option DropZoneId) :
  owned w initial offset current ->
  ((ev = App.MouseUp \/ ev = App.TouchEnd) /\
   finish = DnDContext.EndDrag /\ cancelled = false /\
   reported = DragState.overDropZoneId (World.dragState w)) \/
  (ev = App.TouchCancel /\ finish = DnDContext.CancelDrag /\
   cancelled = true /\ reported = None) ->
  App.handle ev w =
    (tt,
     World.mk INITIAL_DRAG_STATE (World.draggableConfig w)
              (Draggable.mk false false None) (World.dropZones w) []
              (World.nextTimeout w) true,
     (if cancelled then [] else Run.trace (App.dropListeners w))
     ++ [Called finish;
         Fired (DragEndEvent (UseDraggable.dragData w) (Some current)
                             reported cancelled)]).
Proof.
  intros Hown Hev. pose proof (owned_listening _ _ _ _ Hown) as Hl.
  destruct Hown as (Hctl & Hts & Hdue & over & del & Hds & _).
  assert (Hend : forall (op : DnDContext.Operation T) c rep,
    (op = DnDContext.EndDrag /\ c = false /\
     rep = DragState.overDropZoneId (World.dragState w)) \/
    (op = DnDContext.CancelDrag /\ c = true /\ rep = None) ->
    (UseDraggable.clearPending ;;
     ours <- Run.gets UseDraggable.isOurDragRef ;;
     if ours then UseDraggable.setIsOurDragRef false ;; Provider.call op
     else Run.ret tt) w =
    (tt,
     World.mk INITIAL_DRAG_STATE (World.draggableConfig w)
              (Draggable.mk false false None) (World.dropZones w) []
              (World.nextTimeout w) true,
     [Called op;
      Fired (DragEndEvent (UseDraggable.dragData w) (Some current) rep c)])).
  { intros op c rep Hop.
    unfold Run.bind at 1. rewrite clearPending_run.
    unfold UseDraggable.pendingStartRef, UseDraggable.isOurDragRef.
    rewrite Hctl, Hts, Hdue. cbn.
    destruct Hop as [(-> & -> & ->) | (-> & -> & ->)]; cbn;
      rewrite ?Hds; reflexivity. }
  destruct Hev as [(Hrel & -> & -> & ->) | (-> & -> & -> & ->)].
  - assert (Hh : App.handle ev w =
                 Run.bind App.dropListeners
                          (fun _ => UseDraggable.handleDragEnd) w).
    { destruct Hrel as [-> | ->]; unfold App.handle;
        unfold Run.bind at 1; unfold Run.gets at 1; rewrite Hl;
        destruct (Run.bind App.dropListeners
                    (fun _ => UseDraggable.handleDragEnd) w)
          as [[[] w'] tr]; reflexivity. }
    rewrite Hh. unfold Run.bind at 1. rewrite dropListeners_run.
    unfold UseDraggable.handleDragEnd, Provider.endDrag.
    rewrite (Hend DnDContext.EndDrag false
               (DragState.overDropZoneId (World.dragState w)));
      [reflexivity | left; auto].
  - unfold App.handle.
    unfold Run.bind at 1. unfold Run.gets at 1. rewrite Hl.
    unfold UseDraggable.handleCancel, Provider.cancelDrag.
    rewrite (Hend DnDContext.CancelDrag true None); [reflexivity|].
    right; auto.
Qed.

Lemma owned_finished (w : World T) (initial offset current : Point)
    (ev : App.Input) (finish : DnDContext.Operation T) (cancelled : bool)
    (reported : option DropZoneId) :
  owned w initial offset current ->
  ((ev = App.MouseUp \/ ev = App.TouchEnd) /\
   finish = DnDContext.EndDrag /\ cancelled = false /\
   reported = DragState.overDropZoneId (World.dragState w)) \/
  (ev = App.TouchCancel /\ finish = DnDContext.CancelDrag /\
   cancelled = true /\ reported = None) ->
  let r := App.dispatch ev w in
  commands (Run.trace r) = [finish] /\
  fired (Run.trace r)
    = [DragEndEvent (UseDraggable.dragData w) (Some current) reported
                    cancelled] /\
  World.dragState (Run.world r) = INITIAL_DRAG_STATE /\
  atRest (Run.world r) /\
  exists post,
    Run.trace r
    = (if cancelled then [] else Run.trace (App.dropListeners w))
      ++ Called finish :: post /\
    drops post = [].
Proof.
  intros Hown Hev r.
  pose proof (owned_finish w initial offset current ev finish cancelled
                reported Hown Hev) as Hh.
  set (pre := if cancelled then [] else Run.trace (App.dropListeners w))
    in *.
  assert (Hpq : commands pre = [] /\ fired pre = []).
  { subst pre. destruct cancelled; [split; reflexivity|].
    apply commands_dropListeners. }
  destruct Hpq as [Hpc Hpf].
  subst r. unfold App.dispatch. run_binds. rewrite Hh. run_done.
  match goal with
  | |- context [App.flushEffects ?w2] =>
      pose proof (flushEffects_clear w2 eq_refl eq_refl) as Hclear;
      destruct (flushEffects_run w2)
        as ((Hq1 & Hq2 & Hq3) & _ & _ & Hd & Hto & _ & Hdone)
  end.
  set (tr := Run.trace (App.flushEffects _)) in *.
  set (w3 := Run.world (App.flushEffects _)) in *.
  rewrite !commands_app, !fired_app, Hpc, Hpf, Hq1, Hq2.
  split.
  { cbn. rewrite app_nil_r.
    destruct Hev as [(_ & -> & _) | (_ & -> & _)]; reflexivity. }
  split; [cbn; rewrite ?app_nil_r; reflexivity|].
  split; [exact Hclear|]. split.
  - unfold atRest. rewrite Hclear, Hd, Hto, Hdone. repeat split.
  - exists (Fired (DragEndEvent (UseDraggable.dragData w)
                     (Some current) reported cancelled) :: tr).
    split; [rewrite <- app_assoc; reflexivity | exact Hq3].
Qed.

End OwnedEndFacts.

(** ** A whole gesture *)

Section GestureFacts.
Context {T : Type}.

Lemma dispatchAll_app (a b : list App.Input) :
  forall w : World T,
    Run.world (App.dispatchAll (a ++ b) w)
    = Run.world (App.dispatchAll b (Run.world (App.dispatchAll a w))) /\
    Run.trace (App.dispatchAll (a ++ b) w)
    = Run.trace (App.dispatchAll a w)
      ++ Run.trace (App.dispatchAll b (Run.world (App.dispatchAll a w))).
Proof.
  induction a as [|ev a IH]; intros w.
  - cbn [app App.dispatchAll]. run_done. split; reflexivity.
  - cbn [app App.dispatchAll]. run_binds.
    destruct (IH (Run.world (App.dispatch ev w))) as [Hw Ht].
    rewrite Hw, Ht, app_assoc. split; reflexivity.
Qed.

Lemma dispatchAll_one (ev : App.Input) (w : World T) :
  Run.world (App.dispatchAll [ev] w) = Run.world (App.dispatch ev w) /\
  Run.trace (App.dispatchAll [ev] w) = Run.trace (App.dispatch ev w).
Proof.
  cbn [App.dispatchAll]. run_binds. run_done.
  rewrite app_nil_r. split; reflexivity.
Qed.

Lemma drops_dropListeners (w : World T) (data : DragData T)
    (position : Point) :
  DragState.data (World.dragState w) = Some data ->
  DragState.position (World.dragState w) = Some position ->
  Forall (fun d => snd (fst d) = DragData.payload data /\ snd d = position)
         (drops (Run.trace (App.dropListeners w))).
Proof.
  intros Hdata Hpos. pose proof (dropListeners_calls w) as H.
  induction H as [|o os (id & d & p & Hd & Hp & ->) _ IH]; [constructor|].
  cbn [drops]. constructor; [|exact IH].
  rewrite Hdata in Hd. rewrite Hpos in Hp.
  injection Hd as <-. injection Hp as <-. split; reflexivity.
Qed.

(** Press and movements with no activation constraint: the draggable owns
    a drag from the press on. *)
Lemma gesture_owned (touch : bool) (w : World T) (client : Point)
    (rect : Rect) (points : list Point) :
  atRest w ->
  UseDraggable.disabled w = false ->
  minDelay w <= 0 -> minDistance w <= 0 ->
  let offset := Point.mk (Point.x client - Rect.left rect)
                         (Point.y client - Rect.top rect) in
  let data := UseDraggable.dragData w in
  let r := App.dispatchAll
             (Gesture.down touch client rect
              :: map (Gesture.move touch) points) w in
  owned (Run.world r) client offset (last points client) /\
  commands (Run.trace r)
    = DnDContext.StartDrag data client offset
      :: map (@DnDContext.UpdateDrag T) points /\
  fired (Run.trace r)
    = DragStartEvent data client
      :: map (fun p => DragMoveEvent data p (Utils.delta client p)) points /\
  drops (Run.trace r) = [] /\
  World.draggableConfig (Run.world r) = World.draggableConfig w.
Proof.
  intros Hrest Hen Hdelay Hdist offset data r.
  destruct (owned_pickUp touch w client rect Hrest Hen Hdelay Hdist)
    as (Hown & Hc & Hf & Hd & Hk).
  destruct (owned_moves touch points _ client offset client Hown)
    as (Hown2 & Hc2 & Hf2 & Hd2 & Hk2).
  unfold UseDraggable.dragData in Hf2. rewrite Hk in Hf2.
  subst r. cbn [App.dispatchAll]. run_binds.
  rewrite commands_app, fired_app, drops_app, Hc, Hc2, Hf, Hf2, Hd, Hd2,
    Hk2, Hk.
  split; [exact Hown2 | repeat split].
Qed.

(** The end of a gesture: a release or a touch cancel after press and
    movements. *)
Lemma gesture_finished (touch : bool) (w : World T) (client : Point)
    (rect : Rect) (points : list Point) (ev : App.Input)
    (finish : DnDContext.Operation T) (cancelled : bool) :
  atRest w ->
  UseDraggable.disabled w = false ->
  minDelay w <= 0 -> minDistance w <= 0 ->
  (ev = Gesture.up touch /\ finish = DnDContext.EndDrag /\
   cancelled = false) \/
  (ev = App.TouchCancel /\ finish = DnDContext.CancelDrag /\
   cancelled = true) ->
  let offset := Point.mk (Point.x client - Rect.left rect)
                         (Point.y client - Rect.top rect) in
  let data := UseDraggable.dragData w in
  let final := last points client in
  let r := App.dispatchAll
             (Gesture.down touch client rect
              :: map (Gesture.move touch) points ++ [ev]) w in
  commands (Run.trace r)
    = DnDContext.StartDrag data client offset
      :: map (@DnDContext.UpdateDrag T) points ++ [finish] /\
  (exists over,
     (cancelled = true -> over = None) /\
     fired (Run.trace r)
     = DragStartEvent data client
       :: map (fun p => DragMoveEvent data p (Utils.delta client p)) points
       ++ [DragEndEvent data (Some final) over cancelled]) /\
  Forall (fun d => snd (fst d) = DragData.payload data /\ snd d = final)
         (drops (Run.trace r)) /\
  (cancelled = true -> drops (Run.trace r) = []) /\
  (exists pre post,
     Run.trace r = pre ++ Called finish :: post /\ drops post = []) /\
  World.dragState (Run.world r) = INITIAL_DRAG_STATE /\
  atRest (Run.world r).
Proof.
  intros Hrest Hen Hdelay Hdist Hev offset data final r.
  destruct (gesture_owned touch w client rect points Hrest Hen Hdelay Hdist)
    as (Hown & Hc & Hf & Hd & Hk).
  set (evs := Gesture.down touch client rect
              :: map (Gesture.move touch) points) in *.
  set (w1 := Run.world (App.dispatchAll evs w)) in *.
  assert (Hdd : UseDraggable.dragData w1 = data)
    by (unfold UseDraggable.dragData; rewrite Hk; reflexivity).
  set (reported := if cancelled then None
                   else DragState.overDropZoneId (World.dragState w1)).
  assert (Hev' :
    ((ev = App.MouseUp \/ ev = App.TouchEnd) /\
     finish = DnDContext.EndDrag /\ cancelled = false /\
     reported = DragState.overDropZoneId (World.dragState w1)) \/
    (ev = App.TouchCancel /\ finish = DnDContext.CancelDrag /\
     cancelled = true /\ reported = None)).
  { subst reported.
    destruct Hev as [(-> & -> & ->) | (-> & -> & ->)]; [left | right; auto].
    split; [destruct touch; [right | left]; reflexivity | auto]. }
  destruct (owned_finished w1 client offset final ev finish cancelled
              reported Hown Hev')
    as (Hc3 & Hf3 & Hst & Hat & post & Htr & Hpost).
  rewrite Hdd in Hf3.
  set (pre := if cancelled then [] else Run.trace (App.dropListeners w1))
    in *.
  assert (Hr : Run.world r = Run.world (App.dispatch ev w1) /\
               Run.trace r = Run.trace (App.dispatchAll evs w)
                             ++ Run.trace (App.dispatch ev w1)).
  { subst r. change (Gesture.down touch client rect
                     :: map (Gesture.move touch) points ++ [ev])
      with (evs ++ [ev]).
    destruct (dispatchAll_app evs [ev] w) as [Hw Ht].
    destruct (dispatchAll_one ev w1) as [Hw1 Ht1].
    fold w1 in Hw, Ht. rewrite Hw, Ht, Hw1, Ht1. split; reflexivity. }
  destruct Hr as [Hrw Hrt]. rewrite Hrw, Hrt.
  rewrite commands_app, fired_app, drops_app, Hc, Hf, Hd, Hc3, Hf3.
  cbn [app].
  assert (Hdrops : drops (Run.trace (App.dispatch ev w1)) = drops pre).
  { rewrite Htr, drops_app. cbn [drops]. rewrite Hpost, app_nil_r.
    reflexivity. }
  split; [reflexivity|]. split.
  { exists reported. split; [|reflexivity].
    intros ->. reflexivity. }
  split.
  { rewrite Hdrops. subst pre. destruct cancelled; [constructor|].
    destruct Hown as (_ & _ & _ & over & del & Hds & _).
    apply drops_dropListeners; rewrite Hds; cbn; rewrite ?Hdd; reflexivity. }
  split.
  { intros ->. rewrite Hdrops. reflexivity. }
  split.
  { exists (Run.trace (App.dispatchAll evs w) ++ pre), post.
    split; [rewrite Htr, app_assoc; reflexivity | exact Hpost]. }
  split; assumption.
Qed.

End GestureFacts.

(** X10. With no activation constraint, a press of the primary button (or
    a touch) on an enabled draggable of a tree at rest starts the drag at
    once, and every later movement of the pointer is one [updateDrag]: the
    coordinator is called with [startDrag] at the press and with
    [updateDrag] once per movement, in order, the provider's callbacks get
    one start event and one move event per movement whose delta is
    measured from the press, and the drag state ends at the last position
    of the pointer with the press as initial position and the grab offset
    of the press. *)
Theorem drag_follows_pointer (T : Type) (touch : bool) (w : World T)
    (client : Point) (rect : Rect) (points : list Point) :
  atRest w ->
  UseDraggable.disabled w = false ->
  minDelay w <= 0 -> minDistance w <= 0 ->
  let offset := Point.mk (Point.x client - Rect.left rect)
                         (Point.y client - Rect.top rect) in
  let data := UseDraggable.dragData w in
  let r := App.dispatchAll
             (Gesture.down touch client rect
              :: map (Gesture.move touch) points) w in
  commands (Run.trace r)
    = DnDContext.StartDrag data client offset
      :: map (@DnDContext.UpdateDrag T) points /\
  fired (Run.trace r)
    = DragStartEvent data client
      :: map (fun p => DragMoveEvent data p (Utils.delta client p)) points /\
  exists over del,
    World.dragState (Run.world r)
    = DragState.mk DragPhase.dragging true (Some data)
                   (Some (last points client)) (Some client) offset del
                   over /\
    samePoint del (Utils.delta client (last points client)).
Proof.
  intros Hrest Hen Hdelay Hdist offset data r.
  destruct (gesture_owned touch w client rect points Hrest Hen Hdelay Hdist)
    as (Hown & Hc & Hf & _ & Hk).
  split; [exact Hc|]. split; [exact Hf|].
  destruct Hown as (_ & _ & _ & over & del & Hds & Hdel).
  exists over, del. split; [|exact Hdel].
  subst r data. rewrite Hds. unfold UseDraggable.dragData. rewrite Hk.
  reflexivity.
Qed.

Lemma drag_follows_pointer_witness :
  commands
    (Run.trace
       (App.dispatchAll
          [App.MouseDown 0 (Point.mk 50 50) Sample.tile;
           App.MouseMove (Point.mk 120 120);
           App.MouseMove (Point.mk 130 90)]
          (App.mount (Sample.block None) [Sample.grid])))
  = [DnDContext.StartDrag Sample.item (Point.mk 50 50)
                          (Point.mk (50 - 40) (50 - 40));
     DnDContext.UpdateDrag (Point.mk 120 120);
     DnDContext.UpdateDrag (Point.mk 130 90)].
Proof.
  refine (proj1 (drag_follows_pointer Sample.Shape false
                   (App.mount (Sample.block None) [Sample.grid])
                   (Point.mk 50 50) Sample.tile
                   [Point.mk 120 120; Point.mk 130 90] _ _ _ _)).
  - repeat split.
  - reflexivity.
  - vm_compute. discriminate.
  - vm_compute. discriminate.
Defined.

(** X11. A gesture that the tree renders after event by event: with no
    activation constraint, a press on an enabled draggable of a tree at
    rest, movements and a release (mouse up, or touch end in a touch
    gesture), the tree rendering after the press, after every movement
    and after the release.  The release ends the drag: [endDrag] is the
    last call on the coordinator, the last event is an end event that is
    not cancelled and carries the last position of the pointer, every
    [onDrop] of the gesture is called before [endDrag] and with the
    payload of the draggable and that last position, the drag state is the
    initial one again and the tree is at rest. *)
Theorem release_completes_gesture (T : Type) (touch : bool) (w : World T)
    (client : Point) (rect : Rect) (points : list Point) :
  atRest w ->
  UseDraggable.disabled w = false ->
  minDelay w <= 0 -> minDistance w <= 0 ->
  let offset := Point.mk (Point.x client - Rect.left rect)
                         (Point.y client - Rect.top rect) in
  let data := UseDraggable.dragData w in
  let final := last points client in
  let r := App.dispatchAll
             (Gesture.down touch client rect
              :: map (Gesture.move touch) points ++ [Gesture.up touch]) w in
  commands (Run.trace r)
    = DnDContext.StartDrag data client offset
      :: map (@DnDContext.UpdateDrag T) points ++ [DnDContext.EndDrag] /\
  (exists over,
     fired (Run.trace r)
     = DragStartEvent data client
       :: map (fun p => DragMoveEvent data p (Utils.delta client p)) points
       ++ [DragEndEvent data (Some final) over false]) /\
  Forall (fun d => snd (fst d) = DragData.payload data /\ snd d = final)
         (drops (Run.trace r)) /\
  (exists pre post,
     Run.trace r = pre ++ Called DnDContext.EndDrag :: post /\
     drops post = []) /\
  World.dragState (Run.world r) = INITIAL_DRAG_STATE /\
  atRest (Run.world r).
Proof.
  intros Hrest Hen Hdelay Hdist offset data final r.
  destruct (gesture_finished touch w client rect points (Gesture.up touch)
              DnDContext.EndDrag false Hrest Hen Hdelay Hdist
              (or_introl (conj eq_refl (conj eq_refl eq_refl))))
    as (Hc & (over & _ & Hf) & Hd & _ & Hsplit & Hst & Hat).
  split; [exact Hc|]. split; [exists over; exact Hf|].
  split; [exact Hd|]. split; [exact Hsplit|]. split; assumption.
Qed.

Lemma release_completes_gesture_witness :
  World.dragState
    (Run.world
       (App.dispatchAll
          [App.TouchStart (Point.mk 50 50) Sample.tile;
           App.TouchMove (Some (Point.mk 120 120));
           App.TouchEnd]
          (App.mount (Sample.block None) [Sample.grid])))
  = INITIAL_DRAG_STATE.
Proof.
  refine (proj1 (proj2 (proj2 (proj2 (proj2
            (release_completes_gesture Sample.Shape true
               (App.mount (Sample.block None) [Sample.grid])
               (Point.mk 50 50) Sample.tile [Point.mk 120 120] _ _ _ _)))))).
  - repeat split.
  - reflexivity.
  - vm_compute. discriminate.
  - vm_compute. discriminate.
Defined.

(** X12. A gesture that the tree renders after event by event: with no
    activation constraint, a press on an enabled draggable of a tree at
    rest, movements and a touch cancel, the tree rendering after the
    press, after every movement and after the cancel.  The touch cancel
    cancels the drag: [cancelDrag] is the last call on the coordinator,
    the last event is an end event that is cancelled, names no drop zone
    and carries the last position of the pointer, no [onDrop] is called in
    the whole gesture, the drag state is the initial one again and the
    tree is at rest. *)
Theorem touch_cancel_aborts_gesture (T : Type) (touch : bool) (w : World T)
    (client : Point) (rect : Rect) (points : list Point) :
  atRest w ->
  UseDraggable.disabled w = false ->
  minDelay w <= 0 -> minDistance w <= 0 ->
  let offset := Point.mk (Point.x client - Rect.left rect)
                         (Point.y client - Rect.top rect) in
  let data := UseDraggable.dragData w in
  let final := last points client in
  let r := App.dispatchAll
             (Gesture.down touch client rect
              :: map (Gesture.move touch) points ++ [App.TouchCancel]) w in
  commands (Run.trace r)
    = DnDContext.StartDrag data client offset
      :: map (@DnDContext.UpdateDrag T) points ++ [DnDContext.CancelDrag] /\
  fired (Run.trace r)
    = DragStartEvent data client
      :: map (fun p => DragMoveEvent data p (Utils.delta client p)) points
      ++ [DragEndEvent data (Some final) None true] /\
  drops (Run.trace r) = [] /\
  World.dragState (Run.world r) = INITIAL_DRAG_STATE /\
  atRest (Run.world r).
Proof.
  intros Hrest Hen Hdelay Hdist offset data final r.
  destruct (gesture_finished touch w client rect points App.TouchCancel
              DnDContext.CancelDrag true Hrest Hen Hdelay Hdist
              (or_intror (conj eq_refl (conj eq_refl eq_refl))))
    as (Hc & (over & Hover & Hf) & _ & Hd & _ & Hst & Hat).
  rewrite (Hover eq_refl) in Hf.
  split; [exact Hc|]. split; [exact Hf|].
  split; [exact (Hd eq_refl)|]. split; assumption.
Qed.

Lemma touch_cancel_aborts_gesture_witness :
  drops
    (Run.trace
       (App.dispatchAll
          [App.TouchStart (Point.mk 50 50) Sample.tile;
           App.TouchMove (Some (Point.mk 120 120));
           App.TouchCancel]
          (App.mount (Sample.block None) [Sample.grid])))
  = [].
Proof.
  refine (proj1 (proj2 (proj2
            (touch_cancel_aborts_gesture Sample.Shape true
               (App.mount (Sample.block None) [Sample.grid])
               (Point.mk 50 50) Sample.tile [Point.mk 120 120] _ _ _ _)))).
  - repeat split.
  - reflexivity.
  - vm_compute. discriminate.
  - vm_compute. discriminate.
Defined.

(** ** Presses that start nothing *)

Section PressFacts.
Context {T : Type}.

Lemma ignored_handle (w : World T) (ev : App.Input) :
  ignored w ev -> App.handle ev w = (tt, w, []).
Proof.
  destruct ev as [button client rect | touch rect | key target
                 | | | | | | |]; cbn [ignored]; try contradiction.
  - intros H. unfold App.handle, UseDraggable.handleMouseDown, Run.bind,
      Run.gets.
    destruct (UseDraggable.disabled w); [reflexivity|].
    destruct H as [H | H]; [discriminate|].
    destruct (Z.eqb_spec button 0) as [-> | _]; [contradiction|].
    reflexivity.
  - intros H. unfold App.handle, UseDraggable.handleTouchStart, Run.bind,
      Run.gets. rewrite H. reflexivity.
  - intros [Hdrag H].
    assert (Hp : Provider.handleKeyDown key w = (tt, w, [])).
    { unfold Provider.handleKeyDown, Run.bind, Run.gets. rewrite Hdrag.
      reflexivity. }
    assert (Hd : match target with
                 | Some rect => UseDraggable.handleKeyDown key rect
                 | None => Run.ret tt
                 end w = (tt, w, [])).
    { destruct target as [rect|]; [|reflexivity].
      unfold UseDraggable.handleKeyDown, Run.bind, Run.gets.
      destruct (UseDraggable.disabled w); [reflexivity|].
      destruct H as [H | [H | [Hs He]]]; try discriminate.
      apply String.eqb_neq in Hs. apply String.eqb_neq in He.
      rewrite Hs, He. reflexivity. }
    unfold App.handle. unfold Run.bind at 1. rewrite Hd, Hp. reflexivity.
Qed.

(** A press under a delay or a distance constraint leaves the draggable
    pending and the coordinator untouched. *)
Lemma pending_pickUp (touch : bool) (w : World T) (client : Point)
    (rect : Rect) :
  atRest w ->
  UseDraggable.disabled w = false ->
  0 < minDelay w \/ 0 < minDistance w ->
  let offset := Point.mk (Point.x client - Rect.left rect)
                         (Point.y client - Rect.top rect) in
  App.dispatch (Gesture.down touch client rect) w =
    (tt,
     World.mk (World.dragState w) (World.draggableConfig w)
              (Draggable.mk true false
                 (Some (PendingStart.mk client offset
                          (if minDelay w >? 0
                           then Some (World.nextTimeout w) else None))))
              (World.dropZones w)
              (if minDelay w >? 0
               then [(World.nextTimeout w,
                      Timeout.mk (minDelay w) client offset)]
               else [])
              (if minDelay w >? 0
               then S (World.nextTimeout w) else World.nextTimeout w)
              false,
     []).
Proof.
  intros (Hdrag & Hctl & Hts & Hdue) Hen Hcon offset.
  assert (Hsome : (minDelay w <=? 0) && (minDistance w <=? 0) = false).
  { apply andb_false_iff.
    destruct Hcon as [H | H]; [left | right];
      apply not_true_is_false; intros Hle; apply leb_iff in Hle;
      exact (Qlt_not_le _ _ H Hle). }
  assert (Hh : App.handle (Gesture.down touch client rect) w
               = UseDraggable.handleDragStart client offset w).
  { destruct touch; cbn [Gesture.down];
      unfold App.handle, UseDraggable.handleMouseDown,
        UseDraggable.handleTouchStart;
      unfold Run.bind at 1; unfold Run.gets at 1; rewrite Hen;
      cbn [negb Z.eqb]; cbv zeta; subst offset;
      match goal with
      | |- context [UseDraggable.handleDragStart ?p ?o w] =>
          destruct (UseDraggable.handleDragStart p o w) as [[[] w'] tr]
      end;
      reflexivity. }
  unfold App.dispatch. unfold Run.bind at 1. rewrite Hh.
  rewrite (handleDragStart_pending client offset w Hen Hsome).
  unfold UseDraggable.isOurDragRef. rewrite Hctl, Hts, Hdue.
  cbn [Draggable.isOurDragRef].
  rewrite flushEffects_idle; reflexivity.
Qed.

End PressFacts.

(** X13. A tree at rest ignores every movement, release, touch cancel and
    timeout: whatever their number and order, the tree is as it was and
    nothing is called, no coordinator operation, no provider callback and
    no callback of a drop zone. *)
Theorem rest_ignores_pointer (T : Type) (w : World T)
    (evs : list App.Input) :
  atRest w -> Forall passive evs -> App.dispatchAll evs w = (tt, w, []).
Proof.
  intros Hw. induction 1 as [|ev rest Hev _ IH]; cbn; [reflexivity|].
  unfold Run.bind. rewrite (atRest_dispatch w ev Hw Hev), IH. reflexivity.
Qed.

Lemma rest_ignores_pointer_witness :
  App.dispatchAll
    [App.MouseMove (Point.mk 120 120); App.MouseUp; App.TouchCancel;
     App.TimeoutFires 1]
    (App.mount (Sample.block Sample.byDelay) [Sample.grid])
  = (tt, App.mount (Sample.block Sample.byDelay) [Sample.grid], []).
Proof.
  apply (rest_ignores_pointer Sample.Shape).
  - repeat split.
  - repeat constructor.
Defined.

(** X14. Presses that start nothing.  A disabled draggable takes no press:
    mouse down, touch start and, outside a drag, key down leave the tree as
    it is and call nothing.  The same holds for an enabled draggable and a
    mouse button other than the primary one, and, outside a drag, for a key
    other than Space and Enter. *)
Theorem ignored_press_does_nothing (T : Type) (w : World T)
    (ev : App.Input) :
  World.effectsDue w = false ->
  ignored w ev ->
  App.dispatch ev w = (tt, w, []).
Proof.
  intros Hdue Hev. unfold App.dispatch, Run.bind.
  rewrite (ignored_handle w ev Hev), (flushEffects_idle w Hdue).
  reflexivity.
Qed.

Lemma ignored_press_does_nothing_witness :
  App.dispatch (App.MouseDown 2 (Point.mk 50 50) Sample.tile)
               (App.mount (Sample.block None) [Sample.grid])
  = (tt, App.mount (Sample.block None) [Sample.grid], []).
Proof.
  apply (ignored_press_does_nothing Sample.Shape).
  - reflexivity.
  - right. discriminate.
Defined.

(** X15. A click under an activation constraint starts nothing.  With a
    delay or a distance in force, a press on an enabled draggable of a tree
    at rest followed by the release (or a touch cancel) calls nothing: no
    coordinator operation, no provider callback, no callback of a drop
    zone.  Afterwards the tree is at rest again, the timer of the press
    cleared, and the drag state and the drop zones are as before. *)
Theorem click_under_constraint_starts_nothing (T : Type) (touch : bool)
    (w : World T) (client : Point) (rect : Rect) (ev : App.Input) :
  atRest w ->
  UseDraggable.disabled w = false ->
  0 < minDelay w \/ 0 < minDistance w ->
  ev = Gesture.up touch \/ ev = App.TouchCancel ->
  let r := App.dispatchAll [Gesture.down touch client rect; ev] w in
  Run.trace r = [] /\
  atRest (Run.world r) /\
  World.dragState (Run.world r) = World.dragState w /\
  World.dropZones (Run.world r) = World.dropZones w.
Proof.
  intros Hrest Hen Hcon Hev r.
  pose proof (pending_pickUp touch w client rect Hrest Hen Hcon) as Hdown.
  cbv zeta in Hdown.
  destruct Hrest as (Hdrag & Hctl & Hts & Hdue).
  subst r. cbn [App.dispatchAll]. run_binds. rewrite Hdown. run_done.
  match goal with
  | |- context [App.dispatch ev ?w1] => set (w1' := w1)
  end.
  assert (Hl : UseDraggable.listening w1' = true).
  { unfold UseDraggable.listening, UseDraggable.isPending. subst w1'. cbn.
    apply orb_true_r. }
  assert (Hd1 : DragState.isDragging (World.dragState w1') = false)
    by exact Hdrag.
  assert (Hfin : forall op : DnDContext.Operation T,
    (UseDraggable.clearPending ;;
     ours <- Run.gets UseDraggable.isOurDragRef ;;
     if ours then UseDraggable.setIsOurDragRef false ;; Provider.call op
     else Run.ret tt) w1' =
    (tt,
     World.mk (World.dragState w) (World.draggableConfig w)
              (Draggable.mk false false None) (World.dropZones w) []
              (World.nextTimeout w1') false,
     [])).
  { intros op. unfold Run.bind at 1. rewrite clearPending_run.
    subst w1'. cbn. destruct (minDelay w >? 0); cbn.
    - rewrite Nat.eqb_refl. reflexivity.
    - reflexivity. }
  assert (Hh : App.handle ev w1' =
    (tt,
     World.mk (World.dragState w) (World.draggableConfig w)
              (Draggable.mk false false None) (World.dropZones w) []
              (World.nextTimeout w1') false,
     [])).
  { destruct Hev as [-> | ->].
    - destruct touch; cbn [Gesture.up]; unfold App.handle;
        unfold Run.bind at 1; unfold Run.gets at 1; rewrite Hl;
        unfold Run.bind at 1;
        rewrite (dropListeners_not_dragging w1' Hd1);
        unfold UseDraggable.handleDragEnd, Provider.endDrag;
        rewrite (Hfin DnDContext.EndDrag); reflexivity.
    - unfold App.handle.
      unfold Run.bind at 1. unfold Run.gets at 1. rewrite Hl.
      unfold UseDraggable.handleCancel, Provider.cancelDrag.
      rewrite (Hfin DnDContext.CancelDrag). reflexivity. }
  unfold App.dispatch. run_binds. rewrite Hh. run_done.
  rewrite flushEffects_idle by reflexivity. run_done.
  repeat split. exact Hdrag.
Qed.

Lemma click_under_constraint_starts_nothing_witness :
  Run.trace
    (App.dispatchAll
       [App.MouseDown 0 (Point.mk 50 50) Sample.tile; App.MouseUp]
       (App.mount (Sample.block Sample.byDelay) [Sample.grid]))
  = [].
Proof.
  refine (proj1 (click_under_constraint_starts_nothing Sample.Shape false
                   (App.mount (Sample.block Sample.byDelay) [Sample.grid])
                   (Point.mk 50 50) Sample.tile App.MouseUp _ _ _ _)).
  - repeat split.
  - reflexivity.
  - left. reflexivity.
  - left. reflexivity.
Defined.

Section TimerFacts.
Context {T : Type}.

(** The timer of a pending press fires: the handlers start the drag at the
    position and with the offset of the press. *)
Lemma timer_handle (touch : bool) (w : World T) (client : Point)
    (rect : Rect) :
  atRest w ->
  UseDraggable.disabled w = false ->
  0 < minDelay w ->
  let offset := Point.mk (Point.x client - Rect.left rect)
                         (Point.y client - Rect.top rect) in
  let w1 := Run.world (App.dispatch (Gesture.down touch client rect) w) in
  App.handle (App.TimeoutFires (World.nextTimeout w)) w1 =
    (tt,
     World.mk (started (UseDraggable.dragData w) client offset)
              (World.draggableConfig w) (Draggable.mk false true None)
              (World.dropZones w) [] (S (World.nextTimeout w)) true,
     [Called (DnDContext.StartDrag (UseDraggable.dragData w) client offset);
      Fired (DragStartEvent (UseDraggable.dragData w) client)]).
Proof.
  intros Hrest Hen Hdelay offset w1.
  pose proof (pending_pickUp touch w client rect Hrest Hen
                (or_introl Hdelay)) as Hdown.
  cbv zeta in Hdown. subst w1. rewrite Hdown. run_done.
  assert (Hgt : (minDelay w >? 0) = true) by (apply gtb_iff; exact Hdelay).
  rewrite Hgt.
  unfold App.handle, App.lookupTimeout.
  unfold Run.bind at 1. unfold Run.gets at 1.
  cbn [World.timeouts find fst snd option_map]. rewrite Nat.eqb_refl.
  cbn [option_map snd Timeout.position Timeout.offset].
  unfold UseDraggable.clearTimeout, UseDraggable.onTimeout,
    UseDraggable.clearPending, UseDraggable.setIsOurDragRef,
    UseDraggable.setPendingStartRef, UseDraggable.setIsPending,
    UseDraggable.clearTimeout, Provider.startDrag, Provider.call,
    Run.bind, Run.gets, Run.modify, UseDraggable.pendingStartRef,
    UseDraggable.dragData.
  cbn. rewrite Nat.eqb_refl. cbn. reflexivity.
Qed.

End TimerFacts.

(** X16. The delay elapses.  With a delay in force, a press on an enabled
    draggable of a tree at rest arms a timer; when that timer fires, the
    drag starts at the position of the press with the grab offset of the
    press: one [startDrag], one start event, the draggable is no longer
    pending and no timer is left. *)
Theorem delay_elapsed_starts_drag (T : Type) (touch : bool) (w : World T)
    (client : Point) (rect : Rect) :
  atRest w ->
  UseDraggable.disabled w = false ->
  0 < minDelay w ->
  let offset := Point.mk (Point.x client - Rect.left rect)
                         (Point.y client - Rect.top rect) in
  let data := UseDraggable.dragData w in
  let r := App.dispatchAll
             [Gesture.down touch client rect;
              App.TimeoutFires (World.nextTimeout w)] w in
  commands (Run.trace r) = [DnDContext.StartDrag data client offset] /\
  fired (Run.trace r) = [DragStartEvent data client] /\
  (exists over,
     World.dragState (Run.world r)
     = DragState.mk DragPhase.dragging true (Some data) (Some client)
                    (Some client) offset (Point.mk 0 0) over) /\
  UseDraggable.isPending (Run.world r) = false /\
  World.timeouts (Run.world r) = [].
Proof.
  intros Hrest Hen Hdelay offset data r.
  pose proof (timer_handle touch w client rect Hrest Hen Hdelay) as Hh.
  pose proof (pending_pickUp touch w client rect Hrest Hen
                (or_introl Hdelay)) as Hdown.
  cbv zeta in Hh, Hdown.
  assert (Htr : Run.trace (App.dispatch (Gesture.down touch client rect) w)
                = []) by (rewrite Hdown; reflexivity).
  clear Hdown.
  set (w1 := Run.world (App.dispatch (Gesture.down touch client rect) w))
    in *.
  match type of Hh with
  | _ = (tt, ?w2, ?tr2) =>
      assert (Hr : App.dispatch (App.TimeoutFires (World.nextTimeout w)) w1
                   = (tt, Run.world (App.flushEffects w2),
                      tr2 ++ Run.trace (App.flushEffects w2)))
        by (unfold App.dispatch, Run.bind; rewrite Hh;
            destruct (App.flushEffects w2) as [[[] w3] tr3]; reflexivity);
      destruct (flushEffects_run w2)
        as ((Hq1 & Hq2 & _) & [over Hds] & _ & Hd & Hto & _ & _)
  end.
  subst r. cbn [App.dispatchAll]. run_binds. fold w1.
  rewrite Htr, Hr. run_done.
  set (w3 := Run.world (App.flushEffects _)) in *.
  set (tr := Run.trace (App.flushEffects _)) in *.
  rewrite app_nil_r. cbn [app commands fired]. rewrite Hq1, Hq2.
  split; [reflexivity|]. split; [reflexivity|].
  split; [exists over; rewrite Hds; reflexivity|].
  unfold UseDraggable.isPending. rewrite Hd, Hto. split; reflexivity.
Qed.

Lemma delay_elapsed_starts_drag_witness :
  commands
    (Run.trace
       (App.dispatchAll
          [App.MouseDown 0 (Point.mk 50 50) Sample.tile; App.TimeoutFires 1]
          (App.mount (Sample.block Sample.byDelay) [Sample.grid])))
  = [DnDContext.StartDrag Sample.item (Point.mk 50 50)
                          (Point.mk (50 - 40) (50 - 40))].
Proof.
  refine (proj1 (delay_elapsed_starts_drag Sample.Shape false
                   (App.mount (Sample.block Sample.byDelay) [Sample.grid])
                   (Point.mk 50 50) Sample.tile _ _ _)).
  - repeat split.
  - reflexivity.
  - reflexivity.
Defined.

(** X9.  Moving too far during the delay gives the drag up.  With a delay
    in force and a tolerance that is an integer of at most 1000000 (the
    default is 5), a press on an enabled draggable of a tree at rest
    followed by a movement farther from the press than the tolerance,
    press and movement at points with integer coordinates, clears the
    pending start and its timer: nothing is called, the tree is at rest
    with the drag state as before, and whatever movements, releases and
    timeouts follow, the timer of the press included, no drag starts. *)
Theorem move_beyond_tolerance_cancels (T : Type) (touch : bool)
    (w : World T) (client : Point) (rect : Rect) (p : Point)
    (evs : list App.Input) :
  atRest w ->
  UseDraggable.disabled w = false ->
  0 < minDelay w ->
  (exists n : Z, moveTolerance w == inject_Z n /\ (n <= 1000000)%Z) ->
  integral client ->
  integral p ->
  (Q2R (moveTolerance w) < Utils.distance client p)%R ->
  Forall passive evs ->
  let r := App.dispatchAll
             (Gesture.down touch client rect :: Gesture.move touch p :: evs)
             w in
  Run.trace r = [] /\
  atRest (Run.world r) /\
  World.dragState (Run.world r) = World.dragState w.
Proof.
  intros Hrest Hen Hdelay _ _ _ Hfar Hevs r.
  pose proof (pending_pickUp touch w client rect Hrest Hen
                (or_introl Hdelay)) as Hdown.
  cbv zeta in Hdown.
  assert (Hgt : (minDelay w >? 0) = true) by (apply gtb_iff; exact Hdelay).
  rewrite Hgt in Hdown.
  apply distance_gtb_spec in Hfar.
  destruct Hrest as (Hdrag & Hctl & Hts & Hdue).
  match type of Hdown with
  | _ = (tt, ?w1, _) => set (w1' := w1) in *
  end.
  assert (Hl : UseDraggable.listening w1' = true).
  { unfold UseDraggable.listening, UseDraggable.isPending. subst w1'. cbn.
    apply orb_true_r. }
  assert (Hm : App.handle (Gesture.move touch p) w1'
               = UseDraggable.handleMove p w1').
  { destruct touch; cbn [Gesture.move]; unfold App.handle;
      unfold Run.bind at 1; unfold Run.gets at 1; rewrite Hl;
      destruct (UseDraggable.handleMove p w1') as [[[] w'] tr];
      reflexivity. }
  assert (Hmove : UseDraggable.handleMove p w1' =
    (tt,
     World.mk (World.dragState w) (World.draggableConfig w)
              (Draggable.mk false false None) (World.dropZones w) []
              (S (World.nextTimeout w)) false,
     [])).
  { unfold UseDraggable.handleMove.
    unfold Run.bind at 1. unfold Run.gets at 1.
    unfold Run.bind at 1. unfold Run.gets at 1.
    unfold UseDraggable.pendingStartRef at 1.
    unfold UseDraggable.isOurDragRef at 1.
    subst w1'. cbn [World.draggable Draggable.pendingStartRef
                    Draggable.isOurDragRef negb].
    unfold Run.bind at 1. unfold Run.gets at 1. cbv zeta.
    cbn [PendingStart.timer PendingStart.position andb].
    unfold moveTolerance in Hfar.
    change (UseDraggable.activation
              (World.mk (World.dragState w) (World.draggableConfig w)
                 (Draggable.mk true false
                    (Some (PendingStart.mk client
                             (Point.mk (Point.x client - Rect.left rect)
                                       (Point.y client - Rect.top rect))
                             (Some (World.nextTimeout w)))))
                 (World.dropZones w)
                 [(World.nextTimeout w,
                   Timeout.mk (minDelay w) client
                     (Point.mk (Point.x client - Rect.left rect)
                               (Point.y client - Rect.top rect)))]
                 (S (World.nextTimeout w)) false))
      with (UseDraggable.activation w).
    rewrite Hfar. rewrite clearPending_run. cbn.
    rewrite Nat.eqb_refl. reflexivity. }
  assert (Hrest2 : atRest
    (World.mk (World.dragState w) (World.draggableConfig w)
              (Draggable.mk false false None) (World.dropZones w) []
              (S (World.nextTimeout w)) false))
    by (repeat split; exact Hdrag).
  assert (Hd2 : App.dispatch (Gesture.move touch p) w1' =
    (tt,
     World.mk (World.dragState w) (World.draggableConfig w)
              (Draggable.mk false false None) (World.dropZones w) []
              (S (World.nextTimeout w)) false,
     [])).
  { unfold App.dispatch, Run.bind. rewrite Hm, Hmove.
    rewrite flushEffects_idle by reflexivity. reflexivity. }
  subst r. cbn [App.dispatchAll]. run_binds. rewrite Hdown. run_done.
  rewrite Hd2. run_done.
  rewrite (atRest_dispatchAll _ evs Hrest2 Hevs). run_done.
  repeat split. exact Hdrag.
Qed.

Lemma move_beyond_tolerance_cancels_witness :
  Run.trace
    (App.dispatchAll
       [App.MouseDown 0 (Point.mk 50 50) Sample.tile;
        App.MouseMove (Point.mk 56 50); App.TimeoutFires 1;
        App.MouseMove (Point.mk 120 120); App.MouseUp]
       (App.mount (Sample.block Sample.byDelay) [Sample.grid]))
  = [].
Proof.
  refine (proj1 (move_beyond_tolerance_cancels Sample.Shape false
                   (App.mount (Sample.block Sample.byDelay) [Sample.grid])
                   (Point.mk 50 50) Sample.tile (Point.mk 56 50)
                   [App.TimeoutFires 1; App.MouseMove (Point.mk 120 120);
                    App.MouseUp] _ _ _ _ _ _ _ _)).
  - repeat split.
  - reflexivity.
  - reflexivity.
  - exists 5%Z. split; [reflexivity | lia].
  - exists 50%Z, 50%Z. split; reflexivity.
  - exists 56%Z, 50%Z. split; reflexivity.
  - apply distance_gtb_spec. reflexivity.
  - repeat constructor.
Defined.

(** ** The callbacks of a drop zone *)

Section ZoneFacts.
Context {T : Type}.

Lemma callbacks_app (a b : list (ZoneOutput T)) :
  callbacks (a ++ b) = callbacks a ++ callbacks b.
Proof.
  induction a as [|[cb | id] a IH]; cbn; [reflexivity | f_equal; exact IH
                                         | exact IH].
Qed.

Lemma hovers_app (a b : list (ZoneOutput T)) :
  hovers (a ++ b) = hovers a ++ hovers b.
Proof.
  induction a as [|[cb | id] a IH]; cbn; [reflexivity | exact IH
                                         | f_equal; exact IH].
Qed.

Lemma protocol_app (cbs1 cbs2 : list (ZoneCallback T)) :
  forall over mid,
    protocol over cbs1 ->
    (cbs1 = [] -> mid = over) ->
    (forall cb, last (map Some cbs1) None = Some cb ->
                mid = match cb with OnDragLeave => false | _ => true end) ->
    protocol mid cbs2 ->
    protocol over (cbs1 ++ cbs2).
Proof.
  induction cbs1 as [|cb rest IH]; intros over mid H1 Hnil Hlast H2.
  - rewrite (Hnil eq_refl) in H2. exact H2.
  - destruct cb as [payload position | payload | payload position |];
      cbn in H1 |- *; try contradiction; destruct H1 as [-> H1];
      (split; [reflexivity|]);
      (apply (IH _ mid H1); [| | exact H2]);
      try (intros ->; apply (Hlast _ eq_refl));
      try (intros cb Hcb; apply Hlast;
           destruct rest; [discriminate | exact Hcb]).
Qed.

(** One run of the effect: what it calls, by the value of [prevIsOverRef]
    before and after. *)
Lemma dragStateEffect_step (dragState : DragState T) (z : DropZone T) :
  let r := UseDropZone.dragStateEffect dragState z in
  let before := DropZone.prevIsOverRef z in
  let after := DropZone.prevIsOverRef (fst r) in
  DropZone.config (fst r) = DropZone.config z /\
  DropZone.elementRef (fst r) = DropZone.elementRef z /\
  (inStep z -> inStep (fst r)) /\
  hovers (snd r)
    = flat_map (hoverOf (DropZoneConfig.id (DropZone.config z)))
               (callbacks (snd r)) /\
  match callbacks (snd r) with
  | [] => after = before
  | [OnDragEnter payload] =>
      before = false /\ after = true /\
      exists position rect,
        DropZone.elementRef z = Some rect /\
        hovering (DropZone.config z) dragState rect payload position
  | [OnDragOver payload position] =>
      before = true /\ after = true /\
      exists rect,
        DropZone.elementRef z = Some rect /\
        hovering (DropZone.config z) dragState rect payload position
  | [OnDragLeave] => before = true /\ after = false
  | _ => False
  end.
Proof.
  cbv zeta. unfold UseDropZone.dragStateEffect, UseDropZone.notCandidate,
    inStep, hovering.
  destruct z as [config element [isOver canDrop dragData] prev]; cbn.
  destruct (DragState.data dragState) as [data|] eqn:Hdata.
  2:{ destruct prev; cbn; repeat split; auto. }
  destruct (DragState.isDragging dragState) eqn:Hdrag; cbn.
  2:{ destruct prev; cbn; repeat split; auto. }
  destruct (UseDropZone.isAcceptedType config (DragData.type data))
    eqn:Hacc; cbn.
  2:{ destruct prev; cbn; repeat split; auto. }
  destruct (UseDropZone.isPositionOver element (DragState.position dragState))
    eqn:Hover; destruct prev; cbn; repeat split; auto.
  - destruct (DragState.position dragState); reflexivity.
  - unfold UseDropZone.isPositionOver in Hover.
    destruct (DragState.position dragState) as [position|];
      [|discriminate].
    destruct element as [rect|]; [|discriminate].
    cbn. repeat split; auto. exists rect. repeat split; eauto.
  - unfold UseDropZone.isPositionOver in Hover.
    destruct (DragState.position dragState) as [position|];
      [|discriminate].
    destruct element as [rect|]; [|discriminate].
    exists position, rect. repeat split; eauto.
Qed.

Lemma renders_protocol (steps : list (DragState T * option Rect)) :
  forall z : DropZone T,
    let r := renders steps z in
    DropZone.config (fst r) = DropZone.config z /\
    protocol (DropZone.prevIsOverRef z) (callbacks (snd r)) /\
    (callbacks (snd r) = [] ->
     DropZone.prevIsOverRef (fst r) = DropZone.prevIsOverRef z) /\
    (forall cb, last (map Some (callbacks (snd r))) None = Some cb ->
       DropZone.prevIsOverRef (fst r)
       = match cb with OnDragLeave => false | _ => true end) /\
    hovers (snd r)
      = flat_map (hoverOf (DropZoneConfig.id (DropZone.config z)))
                 (callbacks (snd r)) /\
    Forall (fun cb =>
              match cb with
              | OnDragEnter payload =>
                  exists dragState rect position,
                    In (dragState, Some rect) steps /\
                    hovering (DropZone.config z) dragState rect payload
                             position
              | OnDragOver payload position =>
                  exists dragState rect,
                    In (dragState, Some rect) steps /\
                    hovering (DropZone.config z) dragState rect payload
                             position
              | _ => True
              end)
           (callbacks (snd r)).
Proof.
  induction steps as [|[dragState rect] rest IH]; intros z; cbv zeta.
  - cbn. repeat split; auto. intros cb H. discriminate.
  - cbn [renders].
    set (z0 := DropZone.mk (DropZone.config z) rect (DropZone.dropState z)
                           (DropZone.prevIsOverRef z)).
    pose proof (dragStateEffect_step dragState z0) as Hstep.
    cbv zeta in Hstep.
    destruct (UseDropZone.dragStateEffect dragState z0) as [z1 outs1].
    cbn [fst snd] in Hstep.
    destruct Hstep as (Hcfg & _ & _ & Hhov & Hcbs).
    change (DropZone.elementRef z0) with rect in Hcbs.
    specialize (IH z1). cbv zeta in IH.
    destruct (renders rest z1) as [z2 outs2]. cbn [fst snd] in IH |- *.
    destruct IH as (Hcfg2 & Hp2 & Hnil2 & Hlast2 & Hhov2 & Hj2).
    assert (Hj2' : Forall (fun cb =>
              match cb with
              | OnDragEnter payload =>
                  exists dragState0 rect0 position,
                    In (dragState0, Some rect0) ((dragState, rect) :: rest) /\
                    hovering (DropZone.config z) dragState0 rect0 payload
                             position
              | OnDragOver payload position =>
                  exists dragState0 rect0,
                    In (dragState0, Some rect0) ((dragState, rect) :: rest) /\
                    hovering (DropZone.config z) dragState0 rect0 payload
                             position
              | _ => True
              end) (callbacks outs2)).
    { rewrite Hcfg in Hj2.
      change (DropZone.config z0) with (DropZone.config z) in Hj2.
      eapply Forall_impl; [|exact Hj2].
      intros [payload position | payload | payload position |]; auto.
      - intros (d & r & p & Hin & Hh). exists d, r, p. split; [right|]; auto.
      - intros (d & r & Hin & Hh). exists d, r. split; [right|]; auto. }
    change (DropZone.config z0) with (DropZone.config z) in *.
    change (DropZone.prevIsOverRef z0) with (DropZone.prevIsOverRef z) in *.
    rewrite callbacks_app, hovers_app, flat_map_app, Hhov, Hhov2, Hcfg.
    split; [congruence|].
    destruct (callbacks outs1) as [|cb [|cb' more]] eqn:Hc1.
    + rewrite Hcbs in *. cbn [app]. repeat split; auto.
    + assert (Hmid : protocol (DropZone.prevIsOverRef z) [cb] /\
                     DropZone.prevIsOverRef z1
                     = match cb with OnDragLeave => false | _ => true end).
      { destruct cb; try contradiction; cbn.
        - destruct Hcbs as (-> & -> & _). auto.
        - destruct Hcbs as (-> & -> & _). auto.
        - destruct Hcbs as (-> & ->). auto. }
      destruct Hmid as [Hp1 Hafter].
      split.
      { apply (protocol_app [cb] (callbacks outs2) _
                 (DropZone.prevIsOverRef z1) Hp1); [discriminate | | exact Hp2].
        intros cb0 [= <-]. exact Hafter. }
      split; [discriminate|]. split; [|split; [reflexivity|]].
      * intros cb0 Hl. cbn [app map] in Hl.
        destruct (callbacks outs2) as [|c2 more2] eqn:Hc2.
        -- cbn in Hl. injection Hl as <-. rewrite (Hnil2 eq_refl).
           exact Hafter.
        -- apply Hlast2. exact Hl.
      * cbn [app]. constructor; [|exact Hj2'].
        destruct cb as [payload position | payload | payload position |];
          auto.
        -- destruct Hcbs as (_ & _ & position & r & -> & Hh).
           exists dragState, r, position. split; [left; reflexivity|].
           exact Hh.
        -- destruct Hcbs as (_ & _ & r & -> & Hh).
           exists dragState, r. split; [left; reflexivity | exact Hh].
    + destruct cb; try contradiction; destruct cb'; contradiction.
Qed.

End ZoneFacts.

(** X17. The hover callbacks of a drop zone keep their order.  Over any
    number of renders of a zone, whatever the drag states and whatever the
    layout does in between, [onDragEnter] and [onDragLeave] alternate,
    beginning with [onDragEnter] for a zone that is not entered,
    [onDragOver] comes only between an [onDragEnter] and the next
    [onDragLeave], the effect never calls [onDrop], and the zone asks the
    coordinator for its own id as hovered zone with each [onDragEnter], for
    none with each [onDragLeave], and at no other time. *)
Theorem zone_callbacks_keep_order (T : Type)
    (steps : list (DragState T * option Rect)) (z : DropZone T) :
  protocol (DropZone.prevIsOverRef z) (callbacks (snd (renders steps z))) /\
  hovers (snd (renders steps z))
  = flat_map (hoverOf (DropZoneConfig.id (DropZone.config z)))
             (callbacks (snd (renders steps z))).
Proof.
  destruct (renders_protocol steps z) as (_ & Hp & _ & _ & Hh & _).
  split; assumption.
Qed.

(** X18. Every hover callback has its reason.  Over any number of renders
    of a drop zone, each [onDragEnter] and each [onDragOver] the zone calls
    comes from a render in which a drag was active whose payload is the one
    handed over, whose type the zone (not disabled) accepts, and whose
    position, the one handed to [onDragOver], lay inside the bounding
    rectangle the zone's element had at that render. *)
Theorem zone_hover_justified (T : Type)
    (steps : list (DragState T * option Rect)) (z : DropZone T)
    (cb : ZoneCallback T) :
  In cb (callbacks (snd (renders steps z))) ->
  match cb with
  | OnDragEnter payload =>
      exists dragState rect position,
        In (dragState, Some rect) steps /\
        hovering (DropZone.config z) dragState rect payload position
  | OnDragOver payload position =>
      exists dragState rect,
        In (dragState, Some rect) steps /\
        hovering (DropZone.config z) dragState rect payload position
  | OnDragLeave => True
  | OnDrop _ _ => False
  end.
Proof.
  intros Hin.
  destruct (renders_protocol steps z) as (_ & Hp & _ & _ & _ & Hj).
  pose proof (proj1 (Forall_forall _ _) Hj cb Hin) as H.
  destruct cb as [payload position | payload | payload position |]; auto.
  clear H Hj. revert Hp Hin. generalize (DropZone.prevIsOverRef z).
  induction (callbacks (snd (renders steps z))) as [|c cs IH];
    intros over Hp Hin; [destruct Hin|].
  destruct Hin as [-> | Hin].
  - exact Hp.
  - destruct c; cbn in Hp; try contradiction; destruct Hp as [_ Hp];
      exact (IH _ Hp Hin).
Qed.

Lemma zone_hover_justified_witness :
  exists dragState rect position,
    In (dragState, Some rect)
       [(started Sample.item (Point.mk 120 120) (Point.mk 10 10),
         Some (Rect.mk 0 0 400 400 400 400))] /\
    hovering (DropZone.config Sample.grid) dragState rect [[true]] position.
Proof.
  apply (zone_hover_justified Sample.Shape
           [(started Sample.item (Point.mk 120 120) (Point.mk 10 10),
             Some (Rect.mk 0 0 400 400 400 400))]
           Sample.grid (OnDragEnter [[true]])).
  left. reflexivity.
Defined.

(** ** The overlay *)

(** X19. The overlay is rendered exactly during a drag: in every drag
    state the coordinator can reach, [DragOverlay] renders nothing when the
    phase is idle and renders the item when the phase is dragging. *)
Theorem overlay_shown_iff_dragging (T : Type) (centered : bool) (scale : Q)
    (s : DragState T) :
  DnDContext.reachable s ->
  (DragOverlay.transforms centered scale s = None <->
   DragState.phase s = DragPhase.idle) /\
  (DragOverlay.transforms centered scale s <> None <->
   DragState.phase s = DragPhase.dragging).
Proof.
  intros [ops <-].
  pose proof (Invariant_performAll ops _ Invariant_initial) as Hinv.
  set (s := fst (DnDContext.performAll ops INITIAL_DRAG_STATE)) in *.
  destruct Hinv as (Hphase & Hdrag & Hfull & _).
  unfold DragOverlay.transforms.
  destruct Hphase as [Hidle | Hdragging].
  - assert (Hno : DragState.isDragging s = false).
    { destruct (DragState.isDragging s) eqn:E; [|reflexivity].
      rewrite (proj1 Hdrag eq_refl) in Hidle. discriminate. }
    rewrite Hno, Hidle. cbn. split; split; auto; try discriminate.
    intros H. contradiction.
  - rewrite (proj2 Hdrag Hdragging), Hdragging. cbn.
    destruct (Hfull Hdragging) as (Hdata & Hpos & _).
    destruct (DragState.position s); [|contradiction].
    destruct (DragState.data s); [|contradiction].
    split; split; auto; discriminate.
Qed.

Lemma overlay_shown_iff_dragging_witness :
  DragOverlay.transforms true 1
    (started Sample.item (Point.mk 50 50) (Point.mk 10 10)) <> None.
Proof.
  apply (proj2 (overlay_shown_iff_dragging Sample.Shape true 1
                  (started Sample.item (Point.mk 50 50) (Point.mk 10 10))
                  (ex_intro _
                     [DnDContext.StartDrag Sample.item (Point.mk 50 50)
                                           (Point.mk 10 10)]
                     eq_refl))).
  reflexivity.
Defined.

(** X20. The overlay keeps the grab point under the pointer.  After a
    press on the draggable with no activation constraint and any
    movements, an overlay that is not centered is translated to the last
    position of the pointer minus the grab offset, which is the position
    of the press minus the top left corner the element had at the press;
    a centered overlay is translated to the pointer itself and shifted
    back by half its size.  A scale entry follows exactly when the scale
    is not 1. *)
Theorem overlay_keeps_grab_point (T : Type) (touch : bool) (w : World T)
    (client : Point) (rect : Rect) (points : list Point) (scale : Q) :
  atRest w ->
  UseDraggable.disabled w = false ->
  minDelay w <= 0 -> minDistance w <= 0 ->
  let offset := Point.mk (Point.x client - Rect.left rect)
                         (Point.y client - Rect.top rect) in
  let final := last points client in
  let s := World.dragState
             (Run.world
                (App.dispatchAll
                   (Gesture.down touch client rect
                    :: map (Gesture.move touch) points) w)) in
  let scaled := if negb (Qeq_bool scale 1)
                then [DragOverlay.Scale scale] else [] in
  DragOverlay.transforms false scale s
  = Some (DragOverlay.Translate3d (Point.x final - Point.x offset)
                                  (Point.y final - Point.y offset)
          :: scaled) /\
  DragOverlay.transforms true scale s
  = Some (DragOverlay.Translate3d (Point.x final) (Point.y final)
          :: DragOverlay.TranslateBack :: scaled).
Proof.
  intros Hrest Hen Hdelay Hdist offset final s scaled.
  destruct (gesture_owned touch w client rect points Hrest Hen Hdelay Hdist)
    as ((_ & _ & _ & over & del & Hds & _) & _).
  subst s. rewrite Hds. unfold DragOverlay.transforms. cbn.
  split; reflexivity.
Qed.

Lemma overlay_keeps_grab_point_witness :
  let s :=
    World.dragState
      (Run.world
         (App.dispatchAll
            [App.MouseDown 0 (Point.mk 50 50) Sample.tile;
             App.MouseMove (Point.mk 120 130)]
            (App.mount (Sample.block None) [Sample.grid]))) in
  DragOverlay.transforms false 1 s
  = Some [DragOverlay.Translate3d (120 - (50 - 40)) (130 - (50 - 40))] /\
  DragOverlay.transforms true 1 s
  = Some [DragOverlay.Translate3d 120 130; DragOverlay.TranslateBack].
Proof.
  refine (overlay_keeps_grab_point Sample.Shape false
            (App.mount (Sample.block None) [Sample.grid])
            (Point.mk 50 50) Sample.tile [Point.mk 120 130] 1
            _ _ _ _).
  - repeat split.
  - reflexivity.
  - vm_compute. discriminate.
  - vm_compute. discriminate.
Defined.

(** * Properties of the game *)

(** ** The cells of a block *)

Section BlockCells.

Lemma rowCells_In (cells : list bool) (position p : Position) :
  forall r c,
    In p (GameLogic.rowCells cells r c position) <->
    exists j,
      nth_error cells j = Some true /\
      p = Position.mk (Position.row position + r)
                      (Position.col position + (c + Z.of_nat j)).
Proof.
  induction cells as [|cell rest IH]; intros r c; cbn [GameLogic.rowCells].
  - split; [intros [] | intros ([|j] & H & _); discriminate].
  - rewrite in_app_iff, IH. split.
    + intros [H | (j & Hj & ->)].
      * destruct cell; [|destruct H]. destruct H as [<- | []].
        exists O. split; [reflexivity|]. f_equal. lia.
      * exists (S j). split; [exact Hj|]. f_equal. lia.
    + intros ([|j] & Hj & ->).
      * left. injection Hj as ->. left. f_equal. lia.
      * right. exists j. split; [exact Hj|]. f_equal. lia.
Qed.

Lemma shapeCells_In (shape : ShapeMatrix) (position p : Position) :
  forall r,
    In p (GameLogic.shapeCells shape r position) <->
    exists i j cells,
      nth_error shape i = Some cells /\
      nth_error cells j = Some true /\
      p = Position.mk (Position.row position + (r + Z.of_nat i))
                      (Position.col position + Z.of_nat j).
Proof.
  induction shape as [|cells rest IH]; intros r; cbn [GameLogic.shapeCells].
  - split; [intros [] | intros ([|i] & j & cs & H & _); discriminate].
  - rewrite in_app_iff, IH, rowCells_In. split.
    + intros [(j & Hj & ->) | (i & j & cs & Hi & Hj & ->)].
      * exists O, j, cells. repeat split; auto. f_equal; lia.
      * exists (S i), j, cs. repeat split; auto. f_equal; lia.
    + intros ([|i] & j & cs & Hi & Hj & ->).
      * left. injection Hi as ->. exists j. split; [exact Hj|].
        f_equal; lia.
      * right. exists i, j, cs. repeat split; auto. f_equal; lia.
Qed.

End BlockCells.

(** ** From the pointer to a cell *)

Section CursorFacts.

Lemma pitch_eq (rect : Rect) : pitch rect == (Rect.width rect - 14) / 8.
Proof.
  unfold pitch, UseDragDrop.calculateCellSize, UseDragDrop.GRID_PADDING,
    UseDragDrop.GRID_GAP, GRID_SIZE. cbn [inject_Z]. field.
Qed.

Lemma clamp_bounds (cell : Z) (n : nat) :
  (n <= 8)%nat ->
  (0 <= UseDragDrop.clamp cell (GRID_SIZE - Z.of_nat n) /\
   UseDragDrop.clamp cell (GRID_SIZE - Z.of_nat n) + Z.of_nat n <= GRID_SIZE)%Z.
Proof. unfold UseDragDrop.clamp, GRID_SIZE. lia. Qed.

End CursorFacts.

(** X22. The cell under the pointer keeps the block on the grid.  For a
    grid element whose width is not 14 pixels and a block whose shape fits
    the grid, [cursorToGridPosition] returns a position, and every cell the
    block would fill from there lies within the 8 by 8 bounds. *)
Theorem cursor_lands_in_grid (rect : Rect) (cursorX cursorY : Q)
    (block : Block) :
  fitsGrid (Block.shape block) ->
  ~ Rect.width rect == 14 ->
  exists position,
    UseDragDrop.cursorToGridPosition (Some rect) cursorX cursorY block
    = UseDragDrop.At position /\
    Forall (fun p => GameLogic.isWithinBounds p GRID_SIZE GRID_SIZE = true)
           (GameLogic.getBlockCells block position).
Proof.
  intros Hfit Hw. unfold UseDragDrop.cursorToGridPosition.
  unfold GameLogic.getBlockCells.
  destruct (Block.shape block) as [|first rest] eqn:Hshape; [destruct Hfit|].
  destruct Hfit as (Hh & Hwd & Hrows). cbv zeta.
  assert (Hp : ~ UseDragDrop.calculateCellSize (Some rect)
                 + UseDragDrop.GRID_GAP == 0).
  { fold (pitch rect). rewrite pitch_eq. intros H. apply Hw.
    assert (H8 : (Rect.width rect - 14) / 8 * 8 == 0) by (rewrite H; ring).
    assert (Hx : (Rect.width rect - 14) / 8 * 8 == Rect.width rect - 14)
      by field.
    rewrite Hx in H8. Lqa.lra. }
  unfold UseDragDrop.calculateCellSize in Hp. cbv zeta in Hp.
  unfold Utils.divide.
  destruct (Qeq_bool _ 0) eqn:Hz;
    [apply Qeq_bool_iff in Hz; contradiction|].
  eexists. split; [reflexivity|].
  apply Forall_forall. intros p Hin.
  apply shapeCells_In in Hin.
  destruct Hin as (i & j & cells & Hi & Hj & ->).
  pose proof (clamp_bounds
                (Qfloor ((cursorY - Rect.top rect - UseDragDrop.GRID_PADDING
                   - (inject_Z (Z.of_nat (List.length (first :: rest)))
                      * ((Rect.width rect - UseDragDrop.GRID_PADDING * 2
                          - (inject_Z GRID_SIZE - 1) * UseDragDrop.GRID_GAP)
                         / inject_Z GRID_SIZE)
                      + (inject_Z (Z.of_nat (List.length (first :: rest)))
                         - 1) * UseDragDrop.GRID_GAP) / 2)
                  / ((Rect.width rect - UseDragDrop.GRID_PADDING * 2
                      - (inject_Z GRID_SIZE - 1) * UseDragDrop.GRID_GAP)
                     / inject_Z GRID_SIZE + UseDragDrop.GRID_GAP)))
                (List.length (first :: rest)) Hh) as [Hr0 Hr1].
  pose proof (clamp_bounds
                (Qfloor ((cursorX - Rect.left rect - UseDragDrop.GRID_PADDING
                   - (inject_Z (Z.of_nat (List.length first))
                      * ((Rect.width rect - UseDragDrop.GRID_PADDING * 2
                          - (inject_Z GRID_SIZE - 1) * UseDragDrop.GRID_GAP)
                         / inject_Z GRID_SIZE)
                      + (inject_Z (Z.of_nat (List.length first))
                         - 1) * UseDragDrop.GRID_GAP) / 2)
                  / ((Rect.width rect - UseDragDrop.GRID_PADDING * 2
                      - (inject_Z GRID_SIZE - 1) * UseDragDrop.GRID_GAP)
                     / inject_Z GRID_SIZE + UseDragDrop.GRID_GAP)))
                (List.length first) Hwd) as [Hc0 Hc1].
  assert (Hi' : (i < List.length (first :: rest))%nat)
    by (apply nth_error_Some; rewrite Hi; discriminate).
  assert (Hj' : (j < List.length cells)%nat)
    by (apply nth_error_Some; rewrite Hj; discriminate).
  assert (Hcells : (List.length cells <= List.length first)%nat).
  { apply (proj1 (Forall_forall _ _) Hrows cells).
    eapply nth_error_In. exact Hi. }
  unfold GameLogic.isWithinBounds. cbn [Position.row Position.col].
  unfold GRID_SIZE in *.
  repeat (apply andb_true_intro; split);
    first [apply Z.geb_le | apply Z.ltb_lt]; lia.
Qed.

Lemma cursor_lands_in_grid_witness :
  exists position,
    UseDragDrop.cursorToGridPosition (Some (Rect.mk 0 0 400 400 400 400))
      1000 (-5) (Block.mk "b" [[true; true]; [true; false]] "red" "corner")
    = UseDragDrop.At position /\
    Forall (fun p => GameLogic.isWithinBounds p GRID_SIZE GRID_SIZE = true)
           (GameLogic.getBlockCells
              (Block.mk "b" [[true; true]; [true; false]] "red" "corner")
              position).
Proof.
  apply (cursor_lands_in_grid (Rect.mk 0 0 400 400 400 400) 1000 (-5)
           (Block.mk "b" [[true; true]; [true; false]] "red" "corner")).
  - cbn. repeat split; try lia. repeat constructor.
  - cbn. intros H. discriminate H.
Defined.

(** ** Reading and writing cells *)

Section GridFacts.

Lemma replace_spec {A : Type} (array : list A) (v : A) :
  forall i,
    (i < List.length array)%nat ->
    exists array',
      GameLogic.replace array i v = Some array' /\
      List.length array' = List.length array /\
      forall j, nth_error array' j
                = if Nat.eqb j i then Some v else nth_error array j.
Proof.
  induction array as [|a rest IH]; intros i Hi; [cbn in Hi; lia|].
  destruct i as [|i].
  - exists (v :: rest). repeat split. intros [|j]; reflexivity.
  - cbn in Hi. destruct (IH i) as (rest' & Hr & Hlen & Hnth); [lia|].
    exists (a :: rest'). cbn. rewrite Hr. repeat split.
    + cbn. congruence.
    + intros [|j]; [reflexivity|]. cbn. apply Hnth.
Qed.

Lemma replace_none {A : Type} (array : list A) (v : A) :
  forall i, (List.length array <= i)%nat ->
            GameLogic.replace array i v = None.
Proof.
  induction array as [|a rest IH]; intros i Hi; [reflexivity|].
  destruct i as [|i]; [cbn in Hi; lia|].
  cbn. rewrite IH; [reflexivity | cbn in Hi; lia].
Qed.

Lemma index_Some {A : Type} (array : list A) (i : Z) (a : A) :
  GameLogic.index array i = Some a <->
  (0 <= i)%Z /\ nth_error array (Z.to_nat i) = Some a.
Proof.
  unfold GameLogic.index. destruct (Z.ltb_spec i 0).
  - split; [discriminate | intros [H1 _]; lia].
  - split; [intros H1; split; [lia | exact H1] | intros [_ H1]; exact H1].
Qed.

Lemma cellAt_Some (grid : GameLogic.Grid) (r c : Z) (cell : Cell) :
  GameLogic.cellAt grid r c = Some cell <->
  (0 <= r)%Z /\ (0 <= c)%Z /\
  exists cells, nth_error grid (Z.to_nat r) = Some cells /\
                nth_error cells (Z.to_nat c) = Some cell.
Proof.
  unfold GameLogic.cellAt. split.
  - destruct (GameLogic.index grid r) as [cells|] eqn:Hr; [|discriminate].
    intros Hc. apply index_Some in Hr. apply index_Some in Hc.
    destruct Hr, Hc. eauto 6.
  - intros (Hr & Hc & cells & Hcells & Hcell).
    rewrite (proj2 (index_Some grid r cells) (conj Hr Hcells)).
    apply index_Some. auto.
Qed.

(** Writing a cell that exists: the grid keeps its shape, the cell holds
    the value, every other cell is as before. *)
Lemma store_spec (grid : GameLogic.Grid) (r c : Z) (v cell : Cell) :
  GameLogic.cellAt grid r c = Some cell ->
  exists grid',
    GameLogic.store grid r c v = Some grid' /\
    map (@List.length Cell) grid' = map (@List.length Cell) grid /\
    forall r' c',
      GameLogic.cellAt grid' r' c'
      = if (r' =? r)%Z && (c' =? c)%Z then Some v
        else GameLogic.cellAt grid r' c'.
Proof.
  intros Hcell. apply cellAt_Some in Hcell.
  destruct Hcell as (Hr & Hc & cells & Hcells & Hcell).
  assert (Hci : (Z.to_nat c < List.length cells)%nat)
    by (apply nth_error_Some; rewrite Hcell; discriminate).
  assert (Hri : (Z.to_nat r < List.length grid)%nat)
    by (apply nth_error_Some; rewrite Hcells; discriminate).
  destruct (replace_spec cells v (Z.to_nat c) Hci)
    as (cells' & Hrep & Hlen & Hnth).
  destruct (replace_spec grid cells' (Z.to_nat r) Hri)
    as (grid' & Hrep' & Hlen' & Hnth').
  exists grid'. unfold GameLogic.store.
  destruct (Z.ltb_spec r 0); [lia|]. destruct (Z.ltb_spec c 0); [lia|].
  cbn [orb]. rewrite Hcells, Hrep, Hrep'. split; [reflexivity|]. split.
  - apply nth_error_ext. intros n. rewrite !nth_error_map, Hnth'.
    destruct (Nat.eqb_spec n (Z.to_nat r)) as [-> | _]; [|reflexivity].
    rewrite Hcells. cbn. congruence.
  - intros r' c'. unfold GameLogic.cellAt, GameLogic.index.
    destruct (Z.ltb_spec r' 0) as [Hr' | Hr'].
    { destruct (Z.eqb_spec r' r); [lia | reflexivity]. }
    rewrite Hnth'.
    destruct (Z.eqb_spec r' r) as [-> | Hne].
    + rewrite Nat.eqb_refl, Hcells. cbn [andb].
      destruct (Z.ltb_spec c' 0) as [Hc' | Hc'].
      { destruct (Z.eqb_spec c' c); [lia | reflexivity]. }
      rewrite Hnth.
      destruct (Z.eqb_spec c' c) as [-> | Hne].
      * rewrite Nat.eqb_refl. reflexivity.
      * destruct (Nat.eqb_spec (Z.to_nat c') (Z.to_nat c)); [lia|].
        reflexivity.
    + destruct (Nat.eqb_spec (Z.to_nat r') (Z.to_nat r)); [lia|].
      reflexivity.
Qed.

Lemma rectangular_map (rows cols : nat) (grid grid' : GameLogic.Grid) :
  map (@List.length Cell) grid' = map (@List.length Cell) grid ->
  rectangular rows cols grid -> rectangular rows cols grid'.
Proof.
  intros Hmap [Hlen Hall]. split.
  - rewrite <- Hlen, <- (length_map (@List.length Cell) grid'), Hmap.
    apply length_map.
  - apply Forall_forall. intros cells Hin.
    assert (H : In (List.length cells) (map (@List.length Cell) grid'))
      by (apply in_map; exact Hin).
    rewrite Hmap in H. apply in_map_iff in H.
    destruct H as (cells0 & Heq & Hin0).
    rewrite <- Heq. exact (proj1 (Forall_forall _ _) Hall cells0 Hin0).
Qed.

(** On a rectangular grid the cells are the positions within its rows and
    columns. *)
Lemma rectangular_cellAt (rows cols : nat) (grid : GameLogic.Grid)
    (r c : Z) :
  rectangular rows cols grid ->
  (GameLogic.cellAt grid r c <> None <->
   (0 <= r < Z.of_nat rows)%Z /\ (0 <= c < Z.of_nat cols)%Z).
Proof.
  intros [Hlen Hall]. split.
  - destruct (GameLogic.cellAt grid r c) as [cell|] eqn:Hcell;
      [|intros H; contradiction].
    intros _. apply cellAt_Some in Hcell.
    destruct Hcell as (Hr & Hc & cells & Hcells & Hcell).
    assert (Hri : (Z.to_nat r < List.length grid)%nat)
      by (apply nth_error_Some; rewrite Hcells; discriminate).
    assert (Hci : (Z.to_nat c < List.length cells)%nat)
      by (apply nth_error_Some; rewrite Hcell; discriminate).
    rewrite (proj1 (Forall_forall _ _) Hall cells
               (nth_error_In _ _ Hcells)) in Hci.
    lia.
  - intros [Hr Hc].
    destruct (nth_error grid (Z.to_nat r)) as [cells|] eqn:Hcells.
    2:{ apply nth_error_None in Hcells. lia. }
    pose proof (proj1 (Forall_forall _ _) Hall cells
                  (nth_error_In _ _ Hcells)) as Hcols.
    cbv beta in Hcols.
    destruct (nth_error cells (Z.to_nat c)) as [cell|] eqn:Hcell.
    2:{ apply nth_error_None in Hcell. lia. }
    rewrite (proj2 (cellAt_Some grid r c cell)); [discriminate|].
    repeat split; try lia. eauto.
Qed.

End GridFacts.

(** ** Fitting a block *)

Section FitFacts.

Lemma canPlaceRow_true (grid : GameLogic.Grid) (cells : list bool)
    (position : Position) :
  forall r c,
    GameLogic.canPlaceRow grid cells r c position = Some true <->
    Forall (free grid) (GameLogic.rowCells cells r c position).
Proof.
  induction cells as [|cell rest IH]; intros r c;
    cbn [GameLogic.canPlaceRow GameLogic.rowCells].
  - split; [constructor | reflexivity].
  - destruct cell; cbn [app]; [|apply IH]. cbv zeta.
    split.
    + destruct (GameLogic.isWithinBounds _ _ _) eqn:Hb; cbn [negb];
        [|discriminate].
      destruct (GameLogic.cellAt grid _ _) as [target|] eqn:Ht;
        [|discriminate].
      destruct (Cell.filled target) eqn:Hf; [discriminate|].
      intros H. constructor; [|apply IH; exact H].
      split; [exact Hb|]. exists target. auto.
    + intros H. inversion H as [|p ps [Hb (target & Ht & Hf)] Hrest]; subst.
      cbn [Position.row Position.col] in Ht.
      rewrite Hb, Ht, Hf. cbn [negb]. apply IH. exact Hrest.
Qed.

Lemma canPlaceRows_true (grid : GameLogic.Grid) (shape : ShapeMatrix)
    (position : Position) :
  forall r,
    GameLogic.canPlaceRows grid shape r position = Some true <->
    Forall (free grid) (GameLogic.shapeCells shape r position).
Proof.
  induction shape as [|cells rest IH]; intros r;
    cbn [GameLogic.canPlaceRows GameLogic.shapeCells].
  - split; [constructor | reflexivity].
  - rewrite Forall_app, <- canPlaceRow_true, <- IH.
    destruct (GameLogic.canPlaceRow grid cells r 0 position) as [[|]|];
      split; try tauto; try discriminate;
      intros [H _]; discriminate.
Qed.

Lemma canPlaceRow_total (grid : GameLogic.Grid) (cells : list bool)
    (position : Position) :
  rectangular 8 8 grid ->
  forall r c,
    GameLogic.canPlaceRow grid cells r c position <> None.
Proof.
  intros Hgrid.
  induction cells as [|cell rest IH]; intros r c;
    cbn [GameLogic.canPlaceRow]; [discriminate|].
  destruct cell; [|apply IH]. cbv zeta.
  destruct (GameLogic.isWithinBounds _ _ _) eqn:Hb; cbn [negb];
    [|discriminate].
  destruct (GameLogic.cellAt grid _ _) as [target|] eqn:Ht.
  - destruct (Cell.filled target); [discriminate | apply IH].
  - exfalso.
    apply (proj2 (rectangular_cellAt 8 8 grid
                    (Position.row position + r)%Z
                    (Position.col position + c)%Z Hgrid)); [|exact Ht].
    unfold GameLogic.isWithinBounds, GRID_SIZE in Hb.
    cbn [Position.row Position.col] in Hb.
    apply andb_prop in Hb. destruct Hb as [Hb H4].
    apply andb_prop in Hb. destruct Hb as [Hb H3].
    apply andb_prop in Hb. destruct Hb as [H1 H2].
    apply Z.geb_le in H1. apply Z.ltb_lt in H2.
    apply Z.geb_le in H3. apply Z.ltb_lt in H4. lia.
Qed.

Lemma canPlaceRows_total (grid : GameLogic.Grid) (shape : ShapeMatrix)
    (position : Position) :
  rectangular 8 8 grid ->
  forall r, GameLogic.canPlaceRows grid shape r position <> None.
Proof.
  intros Hgrid.
  induction shape as [|cells rest IH]; intros r;
    cbn [GameLogic.canPlaceRows]; [discriminate|].
  pose proof (canPlaceRow_total grid cells position Hgrid r 0) as H.
  destruct (GameLogic.canPlaceRow grid cells r 0 position) as [[|]|];
    [apply IH | discriminate | contradiction].
Qed.

End FitFacts.

(** X24. When a block fits.  On an 8 by 8 grid [canPlaceBlock] always
    returns, and it returns true exactly when every cell of
    [getBlockCells] lies within the 8 by 8 bounds on a cell of the grid
    that is not filled. *)
Theorem canPlaceBlock_iff_cells_free (grid : GameLogic.Grid) (block : Block)
    (position : Position) :
  rectangular 8 8 grid ->
  exists fits,
    GameLogic.canPlaceBlock grid block position = Some fits /\
    (fits = true <->
     Forall (free grid) (GameLogic.getBlockCells block position)).
Proof.
  intros Hgrid. unfold GameLogic.canPlaceBlock, GameLogic.getBlockCells.
  pose proof (canPlaceRows_total grid (Block.shape block) position Hgrid 0)
    as Htotal.
  pose proof (canPlaceRows_true grid (Block.shape block) position 0)
    as Htrue.
  destruct (GameLogic.canPlaceRows grid (Block.shape block) 0 position)
    as [fits|]; [|contradiction].
  exists fits. split; [reflexivity|].
  rewrite <- Htrue. split; congruence.
Qed.

Lemma canPlaceBlock_iff_cells_free_witness :
  exists fits,
    GameLogic.canPlaceBlock (GameLogic.createEmptyGrid 8 8)
      (Block.mk "b" [[true; true]; [true; false]] "red" "corner")
      (Position.mk 6 6) = Some fits /\
    (fits = true <->
     Forall (free (GameLogic.createEmptyGrid 8 8))
            (GameLogic.getBlockCells
               (Block.mk "b" [[true; true]; [true; false]] "red" "corner")
               (Position.mk 6 6))).
Proof.
  apply (canPlaceBlock_iff_cells_free (GameLogic.createEmptyGrid 8 8)
           (Block.mk "b" [[true; true]; [true; false]] "red" "corner")
           (Position.mk 6 6)).
  split; [reflexivity | repeat constructor].
Defined.

(** ** Placing a block *)

Section PlaceFacts.

Lemma storeAll_spec (v : Cell) (keys : list (Z * Z)) :
  forall grid : GameLogic.Grid,
    Forall (fun k => GameLogic.cellAt grid (fst k) (snd k) <> None) keys ->
    exists grid',
      storeAll grid keys v = Some grid' /\
      map (@List.length Cell) grid' = map (@List.length Cell) grid /\
      forall r c,
        GameLogic.cellAt grid' r c
        = if among keys r c then Some v else GameLogic.cellAt grid r c.
Proof.
  induction keys as [|[kr kc] rest IH]; intros grid Hall.
  - exists grid. repeat split.
  - inversion Hall as [|k ks Hk Hrest]; subst. cbn [fst snd] in Hk.
    destruct (GameLogic.cellAt grid kr kc) as [cell|] eqn:Hcell;
      [|contradiction].
    destruct (store_spec grid kr kc v cell Hcell)
      as (grid1 & Hstore & Hshape & Hat).
    destruct (IH grid1) as (grid' & Hall' & Hshape' & Hat').
    { apply Forall_forall. intros k Hin.
      pose proof (proj1 (Forall_forall _ _) Hrest k Hin) as Hk'.
      cbv beta in Hk'. rewrite Hat.
      destruct ((fst k =? kr)%Z && (snd k =? kc)%Z);
        [discriminate | exact Hk']. }
    exists grid'. cbn [storeAll]. rewrite Hstore.
    split; [exact Hall'|]. split; [congruence|].
    intros r c. rewrite Hat', Hat. unfold among. cbn [existsb fst snd].
    rewrite (Z.eqb_sym kr r), (Z.eqb_sym kc c).
    destruct ((r =? kr)%Z && (c =? kc)%Z); cbn [orb]; [|reflexivity].
    destruct (existsb _ rest); reflexivity.
Qed.

Lemma storeAll_app (v : Cell) (keys1 keys2 : list (Z * Z)) :
  forall grid : GameLogic.Grid,
    storeAll grid (keys1 ++ keys2) v
    = match storeAll grid keys1 v with
      | Some grid' => storeAll grid' keys2 v
      | None => None
      end.
Proof.
  induction keys1 as [|[r c] rest IH]; intros grid; [reflexivity|].
  cbn [app storeAll]. destruct (GameLogic.store grid r c v); [apply IH|].
  reflexivity.
Qed.

Lemma placeRow_storeAll (cells : list bool) (position : Position)
    (color : string) :
  forall (newGrid : GameLogic.Grid) r c,
    GameLogic.placeRow newGrid cells r c position color
    = storeAll newGrid (map keyOf (GameLogic.rowCells cells r c position))
               (Cell.mk true (Some color)).
Proof.
  induction cells as [|cell rest IH]; intros newGrid r c; [reflexivity|].
  cbn [GameLogic.placeRow GameLogic.rowCells]. destruct cell; [|apply IH].
  cbn [app map keyOf storeAll Position.row Position.col]. cbv zeta.
  destruct (GameLogic.store newGrid _ _ _); [apply IH | reflexivity].
Qed.

Lemma placeRows_storeAll (shape : ShapeMatrix) (position : Position)
    (color : string) :
  forall (newGrid : GameLogic.Grid) r,
    GameLogic.placeRows newGrid shape r position color
    = storeAll newGrid (map keyOf (GameLogic.shapeCells shape r position))
               (Cell.mk true (Some color)).
Proof.
  induction shape as [|cells rest IH]; intros newGrid r; [reflexivity|].
  cbn [GameLogic.placeRows GameLogic.shapeCells].
  rewrite map_app, storeAll_app, placeRow_storeAll.
  destruct (storeAll newGrid _ _); [apply IH | reflexivity].
Qed.

Lemma free_cells_exist (grid : GameLogic.Grid) (cells : list Position) :
  Forall (free grid) cells ->
  Forall (fun k => GameLogic.cellAt grid (fst k) (snd k) <> None)
         (map keyOf cells).
Proof.
  intros H. apply Forall_map. eapply Forall_impl; [|exact H].
  intros p (_ & cell & Hcell & _). cbn. rewrite Hcell. discriminate.
Qed.

Lemma placeBlock_spec (grid : GameLogic.Grid) (block : Block)
    (position : Position) :
  GameLogic.canPlaceBlock grid block position = Some true ->
  exists newGrid,
    GameLogic.placeBlock grid block position = Some newGrid /\
    map (@List.length Cell) newGrid = map (@List.length Cell) grid /\
    forall r c,
      GameLogic.cellAt newGrid r c
      = if among (map keyOf (GameLogic.getBlockCells block position)) r c
        then Some (Cell.mk true (Some (Block.color block)))
        else GameLogic.cellAt grid r c.
Proof.
  intros Hfits. unfold GameLogic.canPlaceBlock in Hfits.
  apply canPlaceRows_true in Hfits.
  unfold GameLogic.placeBlock, GameLogic.getBlockCells. cbv zeta.
  rewrite placeRows_storeAll.
  apply storeAll_spec. apply free_cells_exist. exact Hfits.
Qed.

End PlaceFacts.

(** X25. Placing a block that fits.  When [canPlaceBlock] is true,
    [placeBlock] returns a grid of the same shape in which the cells of
    [getBlockCells] are filled with the colour of the block and every
    other cell is as it was. *)
Theorem placeBlock_fills_block (grid : GameLogic.Grid) (block : Block)
    (position : Position) :
  GameLogic.canPlaceBlock grid block position = Some true ->
  exists newGrid,
    GameLogic.placeBlock grid block position = Some newGrid /\
    map (@List.length Cell) newGrid = map (@List.length Cell) grid /\
    (forall p, In p (GameLogic.getBlockCells block position) ->
       GameLogic.cellAt newGrid (Position.row p) (Position.col p)
       = Some (Cell.mk true (Some (Block.color block)))) /\
    (forall r c,
       ~ In (Position.mk r c) (GameLogic.getBlockCells block position) ->
       GameLogic.cellAt newGrid r c = GameLogic.cellAt grid r c).
Proof.
  intros Hfits.
  destruct (placeBlock_spec grid block position Hfits)
    as (newGrid & Hplace & Hshape & Hat).
  exists newGrid. split; [exact Hplace|]. split; [exact Hshape|]. split.
  - intros p Hin. rewrite Hat.
    assert (H : among (map keyOf (GameLogic.getBlockCells block position))
                      (Position.row p) (Position.col p) = true).
    { apply existsb_exists. exists (keyOf p). split.
      - apply in_map. exact Hin.
      - cbn. rewrite !Z.eqb_refl. reflexivity. }
    rewrite H. reflexivity.
  - intros r c Hout. rewrite Hat.
    destruct (among _ r c) eqn:H; [|reflexivity].
    exfalso. apply Hout. apply existsb_exists in H.
    destruct H as (k & Hin & Hk). apply in_map_iff in Hin.
    destruct Hin as ([pr pc] & <- & Hin). cbn in Hk.
    apply andb_prop in Hk. destruct Hk as [H1 H2].
    apply Z.eqb_eq in H1. apply Z.eqb_eq in H2. subst. exact Hin.
Qed.

Lemma placeBlock_fills_block_witness :
  exists newGrid,
    GameLogic.placeBlock (GameLogic.createEmptyGrid 8 8)
      (Block.mk "b" [[true; true]; [true; false]] "red" "corner")
      (Position.mk 6 6) = Some newGrid /\
    GameLogic.cellAt newGrid 7 6 = Some (Cell.mk true (Some "red")) /\
    GameLogic.cellAt newGrid 7 7 = Some (Cell.mk false None).
Proof.
  destruct (placeBlock_fills_block (GameLogic.createEmptyGrid 8 8)
              (Block.mk "b" [[true; true]; [true; false]] "red" "corner")
              (Position.mk 6 6) eq_refl)
    as (newGrid & Hplace & _ & Hin & Hout).
  exists newGrid. split; [exact Hplace|]. split.
  - apply (Hin (Position.mk 7 6)). cbn. auto.
  - rewrite (Hout 7%Z 7%Z); [reflexivity|].
    cbn. intros [H | [H | [H | []]]]; discriminate H.
Defined.

(** ** Completed lines *)

Section LineFacts.

Lemma cellAt_nat (grid : GameLogic.Grid) (i j : nat) :
  GameLogic.cellAt grid (Z.of_nat i) (Z.of_nat j)
  = match nth_error grid i with
    | Some cells => nth_error cells j
    | None => None
    end.
Proof.
  unfold GameLogic.cellAt, GameLogic.index.
  destruct (Z.ltb_spec (Z.of_nat i) 0); [lia|]. rewrite Znat.Nat2Z.id.
  destruct (nth_error grid i); [|reflexivity].
  destruct (Z.ltb_spec (Z.of_nat j) 0); [lia|]. rewrite Znat.Nat2Z.id.
  reflexivity.
Qed.

Lemma completedRows_In (grid : GameLogic.Grid) :
  forall base line,
    In line (GameLogic.completedRows grid base) <->
    Line.type line = Line.row /\
    exists i cells,
      Line.index line = (base + Z.of_nat i)%Z /\
      nth_error grid i = Some cells /\
      forallb Cell.filled cells = true.
Proof.
  induction grid as [|cells rest IH]; intros base line;
    cbn [GameLogic.completedRows].
  - split; [intros [] | intros (_ & [|i] & cs & _ & H & _); discriminate].
  - rewrite in_app_iff, IH. split.
    + intros [H | (Hty & i & cs & Hidx & Hnth & Hall)].
      * destruct (forallb Cell.filled cells) eqn:Hall; [|destruct H].
        destruct H as [<- | []]. split; [reflexivity|].
        exists O, cells. cbn. repeat split; auto. lia.
      * split; [exact Hty|]. exists (S i), cs. repeat split; auto. lia.
    + intros (Hty & [|i] & cs & Hidx & Hnth & Hall).
      * left. injection Hnth as ->. rewrite Hall. left.
        destruct line as [ty idx]. cbn in *. subst. f_equal. lia.
      * right. split; [exact Hty|]. exists i, cs. repeat split; auto. lia.
Qed.

Lemma columnFilled_spec (c : Z) (grid : GameLogic.Grid) :
  Forall (fun cells => GameLogic.index cells c <> None) grid ->
  exists filled,
    GameLogic.columnFilled grid c = Some filled /\
    (filled = true <->
     Forall (fun cells => exists cell,
               GameLogic.index cells c = Some cell /\
               Cell.filled cell = true) grid).
Proof.
  induction 1 as [|cells rest Hcell _ IH]; cbn [GameLogic.columnFilled].
  - exists true. split; [reflexivity|]. split; [constructor | reflexivity].
  - destruct (GameLogic.index cells c) as [cell|] eqn:Hc; [|contradiction].
    destruct (Cell.filled cell) eqn:Hf; cbn [negb].
    + destruct IH as (filled & Hcol & Hiff). exists filled.
      split; [exact Hcol|]. rewrite Hiff. split.
      * intros H. constructor; [exists cell; auto | exact H].
      * intros H. inversion H; assumption.
    + exists false. split; [reflexivity|]. split; [discriminate|].
      intros H. inversion H as [|x xs (cell' & Hc' & Hf') _]; subst.
      congruence.
Qed.

Lemma completedCols_spec (grid : GameLogic.Grid) (n : nat) :
  forall from,
    (forall c, (from <= c < from + Z.of_nat n)%Z ->
               GameLogic.columnFilled grid c <> None) ->
    exists lines,
      GameLogic.completedCols grid n from = Some lines /\
      forall line,
        In line lines <->
        Line.type line = Line.col /\
        (from <= Line.index line < from + Z.of_nat n)%Z /\
        GameLogic.columnFilled grid (Line.index line) = Some true.
Proof.
  induction n as [|n IH]; intros from Htotal; cbn [GameLogic.completedCols].
  - exists []. split; [reflexivity|]. intros line.
    split; [intros [] | intros (_ & H & _); lia].
  - destruct (GameLogic.columnFilled grid from) as [filled|] eqn:Hcol.
    2:{ exfalso. apply (Htotal from); [lia | exact Hcol]. }
    destruct (IH (from + 1)%Z) as (lines & Hrest & Hin).
    { intros c Hc. apply Htotal. lia. }
    rewrite Hrest. eexists. split; [reflexivity|].
    intros line. rewrite in_app_iff, Hin. split.
    + intros [H | (Hty & Hidx & Hc)].
      * destruct filled; [|destruct H]. destruct H as [<- | []].
        cbn. repeat split; auto; lia.
      * repeat split; auto; lia.
    + intros (Hty & Hidx & Hc).
      destruct (Z.eq_dec (Line.index line) from) as [Heq | Hne].
      * left. rewrite Heq, Hcol in Hc. injection Hc as ->. left.
        destruct line as [ty idx]. cbn in *. subst. reflexivity.
      * right. repeat split; auto; lia.
Qed.

Lemma rectangular_row (rows cols : nat) (grid : GameLogic.Grid) (r : Z) :
  rectangular rows cols grid ->
  (0 <= r < Z.of_nat rows)%Z ->
  exists cells, nth_error grid (Z.to_nat r) = Some cells /\
                List.length cells = cols.
Proof.
  intros [Hlen Hall] Hr.
  destruct (nth_error grid (Z.to_nat r)) as [cells|] eqn:Hcells.
  - exists cells. split; [reflexivity|].
    exact (proj1 (Forall_forall _ _) Hall cells (nth_error_In _ _ Hcells)).
  - apply nth_error_None in Hcells. lia.
Qed.

Lemma filledAt_row (grid : GameLogic.Grid) (r c : Z) (cells : list Cell) :
  (0 <= r)%Z -> (0 <= c)%Z ->
  nth_error grid (Z.to_nat r) = Some cells ->
  filledAt grid r c
  = match nth_error cells (Z.to_nat c) with
    | Some cell => Cell.filled cell
    | None => false
    end.
Proof.
  intros Hr Hc Hcells. unfold filledAt.
  rewrite <- (Znat.Z2Nat.id r Hr), <- (Znat.Z2Nat.id c Hc), cellAt_nat, Hcells.
  rewrite !Znat.Nat2Z.id. reflexivity.
Qed.

Lemma row_complete (rows cols : nat) (grid : GameLogic.Grid) (r : Z)
    (cells : list Cell) :
  rectangular rows cols grid ->
  (0 <= r < Z.of_nat rows)%Z ->
  nth_error grid (Z.to_nat r) = Some cells ->
  (forallb Cell.filled cells = true <->
   forall c, (0 <= c < Z.of_nat cols)%Z -> filledAt grid r c = true).
Proof.
  intros Hgrid Hr Hcells.
  destruct (rectangular_row rows cols grid r Hgrid Hr) as (cells' & H & Hlen).
  rewrite Hcells in H. injection H as <-.
  rewrite forallb_forall. split.
  - intros Hall c Hc.
    rewrite (filledAt_row grid r c cells) by (lia || assumption).
    destruct (nth_error cells (Z.to_nat c)) as [cell|] eqn:Hcell.
    + apply Hall. eapply nth_error_In. exact Hcell.
    + apply nth_error_None in Hcell. lia.
  - intros Hall cell Hin. apply In_nth_error in Hin.
    destruct Hin as [j Hj].
    assert (Hjl : (j < List.length cells)%nat)
      by (apply nth_error_Some; rewrite Hj; discriminate).
    specialize (Hall (Z.of_nat j)).
    rewrite (filledAt_row grid r (Z.of_nat j) cells) in Hall
      by (lia || assumption).
    rewrite Znat.Nat2Z.id, Hj in Hall. apply Hall. lia.
Qed.

Lemma col_index (rows cols : nat) (grid : GameLogic.Grid) (c : Z) :
  rectangular rows cols grid ->
  (0 <= c < Z.of_nat cols)%Z ->
  Forall (fun cells => GameLogic.index cells c <> None) grid.
Proof.
  intros [_ Hall] Hc. eapply Forall_impl; [|exact Hall].
  intros cells Hlen. cbv beta in Hlen. unfold GameLogic.index.
  destruct (Z.ltb_spec c 0); [lia|].
  intros Hnone. apply nth_error_None in Hnone. lia.
Qed.

Lemma col_complete (rows cols : nat) (grid : GameLogic.Grid) (c : Z) :
  rectangular rows cols grid ->
  (0 <= c < Z.of_nat cols)%Z ->
  (Forall (fun cells => exists cell,
             GameLogic.index cells c = Some cell /\
             Cell.filled cell = true) grid <->
   forall r, (0 <= r < Z.of_nat rows)%Z -> filledAt grid r c = true).
Proof.
  intros Hgrid Hc. split.
  - intros Hall r Hr.
    destruct (rectangular_row rows cols grid r Hgrid Hr) as (cells & Hn & _).
    pose proof (proj1 (Forall_forall _ _) Hall cells (nth_error_In _ _ Hn))
      as (cell & Hcell & Hf).
    apply index_Some in Hcell. destruct Hcell as [_ Hcell].
    rewrite (filledAt_row grid r c cells) by (lia || assumption).
    rewrite Hcell. exact Hf.
  - intros Hall. apply Forall_forall. intros cells Hin.
    apply In_nth_error in Hin. destruct Hin as [i Hi].
    assert (Hil : (i < List.length grid)%nat)
      by (apply nth_error_Some; rewrite Hi; discriminate).
    destruct Hgrid as [Hlen Hrows]. 
    specialize (Hall (Z.of_nat i)).
    rewrite (filledAt_row grid (Z.of_nat i) c cells) in Hall;
      try lia; [|rewrite Znat.Nat2Z.id; exact Hi].
    destruct (nth_error cells (Z.to_nat c)) as [cell|] eqn:Hcell.
    + exists cell. split; [apply index_Some; split; [lia | exact Hcell]|].
      apply Hall. lia.
    + assert (H : false = true) by (apply Hall; lia). discriminate.
Qed.

Lemma findCompletedLines_spec (rows cols : nat) (grid : GameLogic.Grid) :
  rectangular rows cols grid -> (0 < rows)%nat ->
  exists lines,
    GameLogic.findCompletedLines grid = Some lines /\
    forall line, In line lines <-> complete rows cols grid line.
Proof.
  intros Hgrid Hrows. unfold GameLogic.findCompletedLines. cbv zeta.
  assert (Hcols : match grid with
                  | first :: _ => List.length first
                  | [] => O
                  end = cols).
  { destruct Hgrid as [Hlen Hall]. destruct grid as [|first rest].
    - cbn in Hlen. lia.
    - inversion Hall; subst. reflexivity. }
  rewrite Hcols.
  assert (Htotal : forall c, (0 <= c < 0 + Z.of_nat cols)%Z ->
                             GameLogic.columnFilled grid c <> None).
  { intros c Hc.
    destruct (columnFilled_spec c grid) as (filled & -> & _);
      [apply (col_index rows cols); [exact Hgrid | lia] | discriminate]. }
  destruct (completedCols_spec grid cols 0 Htotal) as (colLines & -> & Hin).
  eexists. split; [reflexivity|].
  intros line. rewrite in_app_iff, completedRows_In, Hin.
  unfold complete. destruct line as [[|] idx]; cbn [Line.type Line.index].
  - split.
    + intros [(_ & i & cells & -> & Hnth & Hall) | (H & _)];
        [|discriminate].
      assert (Hi : (i < List.length grid)%nat)
        by (apply nth_error_Some; rewrite Hnth; discriminate).
      destruct Hgrid as [Hlen Hforall].
      assert (Hr : (0 <= 0 + Z.of_nat i < Z.of_nat rows)%Z) by lia.
      split; [exact Hr|].
      apply (row_complete rows cols grid (0 + Z.of_nat i) cells
               (conj Hlen Hforall) Hr); [|exact Hall].
      replace (Z.to_nat (0 + Z.of_nat i)) with i by lia. exact Hnth.
    + intros [Hr Hall]. left. split; [reflexivity|].
      destruct (rectangular_row rows cols grid idx Hgrid Hr)
        as (cells & Hnth & _).
      exists (Z.to_nat idx), cells. split; [lia|]. split; [exact Hnth|].
      apply (row_complete rows cols grid idx cells Hgrid Hr Hnth). exact Hall.
  - split.
    + intros [(H & _) | (_ & Hc & Hcol)]; [discriminate|].
      assert (Hc' : (0 <= idx < Z.of_nat cols)%Z) by lia.
      split; [exact Hc'|].
      apply (col_complete rows cols grid idx Hgrid Hc').
      destruct (columnFilled_spec idx grid
                  (col_index rows cols grid idx Hgrid Hc'))
        as (filled & Hf & Hiff).
      rewrite Hf in Hcol. injection Hcol as ->. apply Hiff. reflexivity.
    + intros [Hc Hall]. right. split; [reflexivity|]. split; [lia|].
      destruct (columnFilled_spec idx grid
                  (col_index rows cols grid idx Hgrid Hc))
        as (filled & Hf & Hiff).
      rewrite Hf. f_equal. apply Hiff.
      apply (col_complete rows cols grid idx Hgrid Hc). exact Hall.
Qed.

Lemma among_app (a b : list (Z * Z)) (r c : Z) :
  among (a ++ b) r c = among a r c || among b r c.
Proof. unfold among. apply existsb_app. Qed.

Lemma addKey_among (key : Z * Z) (keys : list (Z * Z)) (r c : Z) :
  among (GameLogic.addKey key keys) r c
  = among keys r c || ((fst key =? r)%Z && (snd key =? c)%Z).
Proof.
  unfold GameLogic.addKey.
  destruct (existsb _ keys) eqn:Hin.
  - destruct ((fst key =? r)%Z && (snd key =? c)%Z) eqn:Hk;
      [|rewrite orb_false_r; reflexivity].
    rewrite orb_true_r. apply andb_prop in Hk. destruct Hk as [H1 H2].
    apply Z.eqb_eq in H1. apply Z.eqb_eq in H2. subst.
    apply existsb_exists in Hin. destruct Hin as (k & Hk & Heq).
    apply existsb_exists. exists k. split; [exact Hk | exact Heq].
  - rewrite among_app. cbn. rewrite orb_false_r. reflexivity.
Qed.

Lemma addKeys_row_among (idx : Z) (n : nat) :
  forall from keys r c,
    among (GameLogic.addKeys (fun c' => (idx, c')) n from keys) r c
    = among keys r c
      || ((idx =? r)%Z && (from <=? c)%Z && (c <? from + Z.of_nat n)%Z).
Proof.
  induction n as [|n IH]; intros from keys r c; cbn [GameLogic.addKeys].
  - replace (c <? from + Z.of_nat 0)%Z with (c <? from)%Z
      by (f_equal; lia).
    destruct (among keys r c); [reflexivity|]. cbn [orb].
    destruct (idx =? r)%Z; [|reflexivity]. cbn [andb].
    destruct (Z.leb_spec from c), (Z.ltb_spec c from); try reflexivity; lia.
  - rewrite IH, addKey_among. cbn [fst snd].
    destruct (among keys r c); [reflexivity|]. cbn [orb].
    destruct (idx =? r)%Z; [|reflexivity]. cbn [andb].
    destruct (Z.eqb_spec from c), (Z.leb_spec (from + 1) c),
      (Z.ltb_spec c (from + 1 + Z.of_nat n)), (Z.leb_spec from c),
      (Z.ltb_spec c (from + Z.of_nat (S n))); try reflexivity; lia.
Qed.

Lemma addKeys_col_among (idx : Z) (n : nat) :
  forall from keys r c,
    among (GameLogic.addKeys (fun r' => (r', idx)) n from keys) r c
    = among keys r c
      || ((idx =? c)%Z && (from <=? r)%Z && (r <? from + Z.of_nat n)%Z).
Proof.
  induction n as [|n IH]; intros from keys r c; cbn [GameLogic.addKeys].
  - replace (r <? from + Z.of_nat 0)%Z with (r <? from)%Z
      by (f_equal; lia).
    destruct (among keys r c); [reflexivity|]. cbn [orb].
    destruct (idx =? c)%Z; [|reflexivity]. cbn [andb].
    destruct (Z.leb_spec from r), (Z.ltb_spec r from); try reflexivity; lia.
  - rewrite IH, addKey_among. cbn [fst snd].
    destruct (among keys r c); [reflexivity|]. cbn [orb].
    destruct (idx =? c)%Z; [|rewrite andb_false_r; reflexivity].
    rewrite andb_true_r. cbn [andb].
    destruct (Z.eqb_spec from r), (Z.leb_spec (from + 1) r),
      (Z.ltb_spec r (from + 1 + Z.of_nat n)), (Z.leb_spec from r),
      (Z.ltb_spec r (from + Z.of_nat (S n))); try reflexivity; lia.
Qed.

Lemma collect_spec (first : list Cell) (rest : GameLogic.Grid)
    (lines : list Line) :
  forall keys,
    exists keys',
      GameLogic.collect (first :: rest) lines keys = Some keys' /\
      forall r c,
        among keys' r c
        = among keys r c
          || swept (List.length (first :: rest)) (List.length first)
                   lines r c.
Proof.
  induction lines as [|[[|] idx] more IH]; intros keys;
    cbn [GameLogic.collect Line.type Line.index].
  - exists keys. split; [reflexivity|]. intros r c. cbn.
    rewrite orb_false_r. reflexivity.
  - destruct (IH (GameLogic.addKeys (fun c => (idx, c))
                    (List.length first) 0 keys)) as (keys' & -> & Hk).
    exists keys'. split; [reflexivity|]. intros r c.
    rewrite Hk, addKeys_row_among. unfold swept at 2.
    cbn [existsb Line.type Line.index]. rewrite Z.add_0_l.
    fold (swept (List.length (first :: rest)) (List.length first) more r c).
    rewrite orb_assoc. reflexivity.
  - destruct (IH (GameLogic.addKeys (fun r => (r, idx))
                    (List.length (first :: rest)) 0 keys))
      as (keys' & -> & Hk).
    exists keys'. split; [reflexivity|]. intros r c.
    rewrite Hk, addKeys_col_among. unfold swept at 2.
    cbn [existsb Line.type Line.index]. rewrite Z.add_0_l.
    fold (swept (List.length (first :: rest)) (List.length first) more r c).
    rewrite orb_assoc. reflexivity.
Qed.

Lemma clearCells_storeAll (keys : list (Z * Z)) :
  forall newGrid : GameLogic.Grid,
    GameLogic.clearCells newGrid keys
    = storeAll newGrid keys (Cell.mk false None).
Proof.
  induction keys as [|[r c] rest IH]; intros newGrid; [reflexivity|].
  cbn [GameLogic.clearCells storeAll].
  destruct (GameLogic.store newGrid r c _); [apply IH | reflexivity].
Qed.

Lemma swept_onLine (rows cols : nat) (grid : GameLogic.Grid)
    (lines : list Line) (r c : Z) :
  (0 <= r < Z.of_nat rows)%Z -> (0 <= c < Z.of_nat cols)%Z ->
  swept rows cols lines r c = onLine lines r c.
Proof.
  intros Hr Hc. unfold swept, onLine.
  induction lines as [|[[|] idx] more IH]; cbn; [reflexivity | |];
    rewrite IH; f_equal.
  - destruct (Z.leb_spec 0 c), (Z.ltb_spec c (Z.of_nat cols)); try lia.
  - destruct (Z.leb_spec 0 r), (Z.ltb_spec r (Z.of_nat rows)); try lia.
Qed.

Lemma swept_in_grid (rows cols : nat) (grid : GameLogic.Grid)
    (lines : list Line) (r c : Z) :
  Forall (complete rows cols grid) lines ->
  swept rows cols lines r c = true ->
  (0 <= r < Z.of_nat rows)%Z /\ (0 <= c < Z.of_nat cols)%Z.
Proof.
  intros Hall Hs. apply existsb_exists in Hs.
  destruct Hs as ([[|] idx] & Hin & Hline);
    pose proof (proj1 (Forall_forall _ _) Hall _ Hin) as Hc;
    unfold complete in Hc; cbn [Line.type Line.index] in Hc, Hline;
    destruct Hc as [Hidx _];
    apply andb_prop in Hline; destruct Hline as [Hline H3];
    apply andb_prop in Hline; destruct Hline as [H1 H2];
    apply Z.eqb_eq in H1; apply Z.leb_le in H2; apply Z.ltb_lt in H3; lia.
Qed.

(** Clearing lines that are complete. *)
Lemma clearLines_spec (rows cols : nat) (grid : GameLogic.Grid)
    (lines : list Line) :
  rectangular rows cols grid -> (0 < rows)%nat ->
  Forall (complete rows cols grid) lines ->
  exists newGrid,
    GameLogic.clearLines grid lines = Some newGrid /\
    rectangular rows cols newGrid /\
    forall r c,
      GameLogic.cellAt newGrid r c
      = if swept rows cols lines r c then Some (Cell.mk false None)
        else GameLogic.cellAt grid r c.
Proof.
  intros Hgrid Hrows Hall.
  destruct lines as [|line more].
  { exists grid. split; [reflexivity|]. split; [exact Hgrid|].
    intros r c. reflexivity. }
  unfold GameLogic.clearLines. cbv zeta.
  set (lines := line :: more) in *.
  destruct grid as [|first rest] eqn:Hg.
  { destruct Hgrid as [Hlen _]. cbn in Hlen. lia. }
  assert (Hr : List.length (first :: rest) = rows) by apply Hgrid.
  assert (Hc : List.length first = cols).
  { destruct Hgrid as [_ Hf]. inversion Hf; subst. reflexivity. }
  destruct (collect_spec first rest lines []) as (keys & Hcollect & Hkeys).
  rewrite Hcollect, clearCells_storeAll. rewrite Hr, Hc in Hkeys.
  destruct (storeAll_spec (Cell.mk false None) keys (first :: rest))
    as (newGrid & Hstore & Hshape & Hat).
  { apply Forall_forall. intros [kr kc] Hin. cbn [fst snd].
    assert (Ham : among keys kr kc = true).
    { apply existsb_exists. exists (kr, kc). split; [exact Hin|].
      cbn. rewrite !Z.eqb_refl. reflexivity. }
    rewrite Hkeys in Ham. cbn [among existsb orb] in Ham.
    destruct (swept_in_grid rows cols (first :: rest) lines kr kc Hall Ham).
    apply (rectangular_cellAt rows cols (first :: rest) kr kc Hgrid).
    split; assumption. }
  exists newGrid. split; [exact Hstore|]. split.
  - exact (rectangular_map rows cols (first :: rest) newGrid Hshape Hgrid).
  - intros r c. rewrite Hat, Hkeys. reflexivity.
Qed.

Lemma filledAt_cleared (rows cols : nat) (grid newGrid : GameLogic.Grid)
    (lines : list Line) :
  (forall r c,
     GameLogic.cellAt newGrid r c
     = if swept rows cols lines r c then Some (Cell.mk false None)
       else GameLogic.cellAt grid r c) ->
  forall r c,
    (0 <= r < Z.of_nat rows)%Z -> (0 <= c < Z.of_nat cols)%Z ->
    filledAt newGrid r c = filledAt grid r c && negb (onLine lines r c).
Proof.
  intros Hat r c Hr Hc. unfold filledAt. rewrite Hat.
  rewrite (swept_onLine rows cols grid lines r c Hr Hc).
  destruct (onLine lines r c); cbn [negb].
  - rewrite andb_false_r. reflexivity.
  - rewrite andb_true_r. reflexivity.
Qed.

Lemma cleared_has_no_complete_line (rows cols : nat)
    (grid newGrid : GameLogic.Grid) (lines : list Line) :
  (0 < rows)%nat -> (0 < cols)%nat ->
  (forall line, complete rows cols grid line -> In line lines) ->
  (forall r c,
     GameLogic.cellAt newGrid r c
     = if swept rows cols lines r c then Some (Cell.mk false None)
       else GameLogic.cellAt grid r c) ->
  forall line, ~ complete rows cols newGrid line.
Proof.
  intros Hrows Hcols Hfound Hat [[|] idx]; unfold complete;
    cbn [Line.type Line.index]; intros [Hidx Hall].
  - assert (Hold : complete rows cols grid (Line.mk Line.row idx)).
    { unfold complete. cbn [Line.type Line.index]. split; [exact Hidx|].
      intros c Hc. specialize (Hall c Hc).
      rewrite (filledAt_cleared rows cols grid newGrid lines Hat idx c
                 Hidx Hc) in Hall.
      apply andb_prop in Hall. apply Hall. }
    apply Hfound in Hold.
    assert (H0 : (0 <= 0 < Z.of_nat cols)%Z) by lia.
    specialize (Hall 0%Z H0).
    rewrite (filledAt_cleared rows cols grid newGrid lines Hat idx 0
               Hidx H0) in Hall.
    apply andb_prop in Hall. destruct Hall as [_ Hall].
    assert (Hon : onLine lines idx 0 = true).
    { apply existsb_exists. exists (Line.mk Line.row idx).
      split; [exact Hold | cbn; apply Z.eqb_refl]. }
    rewrite Hon in Hall. discriminate.
  - assert (Hold : complete rows cols grid (Line.mk Line.col idx)).
    { unfold complete. cbn [Line.type Line.index]. split; [exact Hidx|].
      intros r Hr. specialize (Hall r Hr).
      rewrite (filledAt_cleared rows cols grid newGrid lines Hat r idx
                 Hr Hidx) in Hall.
      apply andb_prop in Hall. apply Hall. }
    apply Hfound in Hold.
    assert (H0 : (0 <= 0 < Z.of_nat rows)%Z) by lia.
    specialize (Hall 0%Z H0).
    rewrite (filledAt_cleared rows cols grid newGrid lines Hat 0 idx
               H0 Hidx) in Hall.
    apply andb_prop in Hall. destruct Hall as [_ Hall].
    assert (Hon : onLine lines 0 idx = true).
    { apply existsb_exists. exists (Line.mk Line.col idx).
      split; [exact Hold | cbn; apply Z.eqb_refl]. }
    rewrite Hon in Hall. discriminate.
Qed.

(** Finding the completed lines and clearing them. *)
Lemma sweep_spec (rows cols : nat) (grid : GameLogic.Grid) :
  rectangular rows cols grid ->
  (0 < rows)%nat -> (0 < cols)%nat ->
  exists lines newGrid,
    GameLogic.findCompletedLines grid = Some lines /\
    (forall line, In line lines <-> complete rows cols grid line) /\
    GameLogic.clearLines grid lines = Some newGrid /\
    rectangular rows cols newGrid /\
    (forall r c cell,
       GameLogic.cellAt grid r c = Some cell ->
       GameLogic.cellAt newGrid r c
       = Some (if onLine lines r c then Cell.mk false None else cell)) /\
    GameLogic.findCompletedLines newGrid = Some [].
Proof.
  intros Hgrid Hrows Hcols.
  destruct (findCompletedLines_spec rows cols grid Hgrid Hrows)
    as (lines & Hfind & Hin).
  assert (Hall : Forall (complete rows cols grid) lines)
    by (apply Forall_forall; intros line Hl; apply Hin; exact Hl).
  destruct (clearLines_spec rows cols grid lines Hgrid Hrows Hall)
    as (newGrid & Hclear & Hnew & Hat).
  exists lines, newGrid. split; [exact Hfind|]. split; [exact Hin|].
  split; [exact Hclear|]. split; [exact Hnew|]. split.
  - intros r c cell Hcell. rewrite Hat.
    assert (Hrc : (0 <= r < Z.of_nat rows)%Z /\ (0 <= c < Z.of_nat cols)%Z).
    { apply (rectangular_cellAt rows cols grid r c Hgrid).
      rewrite Hcell. discriminate. }
    destruct Hrc as [Hr Hc].
    rewrite (swept_onLine rows cols grid lines r c Hr Hc).
    destruct (onLine lines r c); [reflexivity | exact Hcell].
  - destruct (findCompletedLines_spec rows cols newGrid Hnew Hrows)
      as (lines' & Hfind' & Hin').
    rewrite Hfind'. f_equal.
    destruct lines' as [|line more]; [reflexivity|].
    exfalso.
    apply (cleared_has_no_complete_line rows cols grid newGrid lines
             Hrows Hcols (fun l Hl => proj2 (Hin l) Hl) Hat line).
    apply Hin'. left. reflexivity.
Qed.

End LineFacts.

(** X26. Clearing the completed lines.  On a grid of [rows] rows of [cols]
    cells, neither 0, [findCompletedLines] returns exactly the rows and the
    columns all of whose cells are filled, and [clearLines] with these
    lines returns a grid of the same shape in which the cells on the lines
    are empty, every other cell is as it was, and no line is complete: a
    second [findCompletedLines] finds nothing. *)
Theorem clearLines_clears_completed (rows cols : nat)
    (grid : GameLogic.Grid) :
  rectangular rows cols grid ->
  (0 < rows)%nat -> (0 < cols)%nat ->
  exists lines newGrid,
    GameLogic.findCompletedLines grid = Some lines /\
    (forall line, In line lines <-> complete rows cols grid line) /\
    GameLogic.clearLines grid lines = Some newGrid /\
    rectangular rows cols newGrid /\
    (forall r c cell,
       GameLogic.cellAt grid r c = Some cell ->
       GameLogic.cellAt newGrid r c
       = Some (if onLine lines r c then Cell.mk false None else cell)) /\
    GameLogic.findCompletedLines newGrid = Some [].
Proof. exact (sweep_spec rows cols grid). Qed.

Lemma clearLines_clears_completed_witness :
  exists lines newGrid,
    GameLogic.findCompletedLines
      [[Cell.mk true (Some "red"); Cell.mk true (Some "red")];
       [Cell.mk true (Some "red"); Cell.mk false None]] = Some lines /\
    (forall line,
       In line lines <->
       complete 2 2
         [[Cell.mk true (Some "red"); Cell.mk true (Some "red")];
          [Cell.mk true (Some "red"); Cell.mk false None]] line) /\
    GameLogic.clearLines
      [[Cell.mk true (Some "red"); Cell.mk true (Some "red")];
       [Cell.mk true (Some "red"); Cell.mk false None]] lines
    = Some newGrid /\
    rectangular 2 2 newGrid /\
    (forall r c cell,
       GameLogic.cellAt
         [[Cell.mk true (Some "red"); Cell.mk true (Some "red")];
          [Cell.mk true (Some "red"); Cell.mk false None]] r c = Some cell ->
       GameLogic.cellAt newGrid r c
       = Some (if onLine lines r c then Cell.mk false None else cell)) /\
    GameLogic.findCompletedLines newGrid = Some [].
Proof.
  apply (clearLines_clears_completed 2 2
           [[Cell.mk true (Some "red"); Cell.mk true (Some "red")];
            [Cell.mk true (Some "red"); Cell.mk false None]]).
  - split; [reflexivity | repeat constructor].
  - lia.
  - lia.
Defined.

(** ** The score *)

Section ScoreFacts.

Lemma floor_grows (z : Z) :
  (0 <= z)%Z ->
  inject_Z z <= inject_Z (Qfloor (inject_Z z * (3 # 2))) /\
  inject_Z (Qfloor (inject_Z z * (3 # 2))) <= (3 # 2) * inject_Z z.
Proof.
  intros Hz.
  assert (H0 : inject_Z 0 <= inject_Z z) by (rewrite <- Zle_Qle; exact Hz).
  change (inject_Z 0) with 0 in H0.
  split.
  - rewrite <- Zle_Qle. rewrite <- (Qfloor_Z z) at 1.
    apply Qfloor_resp_le. Lqa.lra.
  - eapply Qle_trans; [apply Qfloor_le|]. Lqa.lra.
Qed.

Lemma calculateScore_nat (blocksPlaced linesCleared : nat) (isCombo : bool) :
  let base := (Z.of_nat blocksPlaced
               + Z.of_nat linesCleared * 10 * Z.of_nat linesCleared)%Z in
  GameLogic.calculateScore (inject_Z (Z.of_nat blocksPlaced))
                           (inject_Z (Z.of_nat linesCleared)) isCombo
  == inject_Z (if isCombo && Nat.ltb 0 linesCleared
               then Qfloor (inject_Z base * (3 # 2))
               else base).
Proof.
  cbv zeta. unfold GameLogic.calculateScore. cbv zeta.
  destruct linesCleared as [|l].
  - cbn [Nat.ltb Nat.leb Z.of_nat]. rewrite andb_false_r.
    replace (inject_Z 0 >? 0) with false by reflexivity.
    rewrite Z.mul_0_l, Z.add_0_r. reflexivity.
  - assert (Hpos : (inject_Z (Z.of_nat (S l)) >? 0) = true).
    { apply gtb_iff. change (inject_Z 0 < inject_Z (Z.of_nat (S l))).
      rewrite <- Zlt_Qlt. lia. }
    rewrite Hpos.
    assert (Hbase : inject_Z (Z.of_nat blocksPlaced)
                    + inject_Z (Z.of_nat (S l)) * 10
                      * inject_Z (Z.of_nat (S l))
                    == inject_Z (Z.of_nat blocksPlaced
                                 + Z.of_nat (S l) * 10 * Z.of_nat (S l)))
      by (rewrite inject_Z_plus, !inject_Z_mult; reflexivity).
    replace (Nat.ltb 0 (S l)) with true by reflexivity.
    rewrite andb_true_r. destruct isCombo; [|exact Hbase].
    rewrite Hbase. reflexivity.
Qed.

End ScoreFacts.

(** X27. The score of a placement, for a block of [blocksPlaced] cells
    that clears [linesCleared] lines.  Without a combo it is the number of
    cells plus 10 times the square of the number of lines; a combo never
    lowers it and raises it to at most one and a half times that; with no
    line cleared a combo changes nothing; the score is never below the
    number of cells, and it is an integer. *)
Theorem calculateScore_facts (blocksPlaced linesCleared : nat)
    (isCombo : bool) :
  let cells := inject_Z (Z.of_nat blocksPlaced) in
  let lines := inject_Z (Z.of_nat linesCleared) in
  GameLogic.calculateScore cells lines false
    == cells + 10 * lines * lines /\
  GameLogic.calculateScore cells lines false
    <= GameLogic.calculateScore cells lines true /\
  GameLogic.calculateScore cells lines true
    <= (3 # 2) * GameLogic.calculateScore cells lines false /\
  GameLogic.calculateScore cells 0 isCombo == cells /\
  cells <= GameLogic.calculateScore cells lines isCombo /\
  exists score : Z,
    GameLogic.calculateScore cells lines isCombo == inject_Z score.
Proof.
  cbv zeta.
  pose proof (calculateScore_nat blocksPlaced linesCleared false) as Hf.
  pose proof (calculateScore_nat blocksPlaced linesCleared true) as Ht.
  pose proof (calculateScore_nat blocksPlaced linesCleared isCombo) as Hc.
  pose proof (calculateScore_nat blocksPlaced 0 isCombo) as H0.
  cbv zeta in Hf, Ht, Hc, H0. cbn [andb] in Hf, Ht.
  set (base := (Z.of_nat blocksPlaced
                + Z.of_nat linesCleared * 10 * Z.of_nat linesCleared)%Z)
    in *.
  assert (Hbase : (0 <= base)%Z) by (subst base; nia).
  assert (Hcells : inject_Z (Z.of_nat blocksPlaced) <= inject_Z base)
    by (rewrite <- Zle_Qle; subst base; nia).
  destruct (floor_grows base Hbase) as [Hlow Hhigh].
  assert (Hbq : inject_Z base
                == inject_Z (Z.of_nat blocksPlaced)
                   + 10 * inject_Z (Z.of_nat linesCleared)
                     * inject_Z (Z.of_nat linesCleared)).
  { subst base. rewrite inject_Z_plus, !inject_Z_mult.
    change (inject_Z 10) with 10. ring. }
  split; [rewrite Hf; exact Hbq|]. split.
  { rewrite Hf, Ht. destruct (Nat.ltb 0 linesCleared);
      [exact Hlow | apply Qle_refl]. }
  split.
  { rewrite Hf, Ht. destruct (Nat.ltb 0 linesCleared); [exact Hhigh|].
    assert (H : inject_Z 0 <= inject_Z base)
      by (rewrite <- Zle_Qle; exact Hbase).
    change (inject_Z 0) with 0 in H.
    Lqa.lra. }
  split.
  { change 0 with (inject_Z (Z.of_nat 0)). rewrite H0.
    cbn [Nat.ltb Nat.leb]. rewrite andb_false_r.
    rewrite Z.mul_0_l, Z.add_0_r. reflexivity. }
  split.
  { rewrite Hc. destruct (isCombo && Nat.ltb 0 linesCleared);
      [|exact Hcells].
    eapply Qle_trans; [exact Hcells | exact Hlow]. }
  eexists. exact Hc.
Qed.

(** ** Valid moves *)

Section MoveFacts.

Lemma canPlaceBlock_total (grid : GameLogic.Grid)
    (Hgrid : rectangular 8 8 grid) (block : Block) (position : Position) :
  exists fits, GameLogic.canPlaceBlock grid block position = Some fits.
Proof.
  pose proof (canPlaceRows_total grid (Block.shape block) position Hgrid 0)
    as H.
  unfold GameLogic.canPlaceBlock.
  destruct (GameLogic.canPlaceRows grid (Block.shape block) 0 position)
    as [fits|]; [exists fits; reflexivity | contradiction].
Qed.

Lemma validInRow_spec (grid : GameLogic.Grid)
    (Hgrid : rectangular 8 8 grid) (block : Block) (r : Z) (n : nat) :
  forall from,
    exists positions,
      GameLogic.validInRow grid block r n from = Some positions /\
      GameLogic.anyInRow grid block r n from = Some (nonEmpty positions) /\
      forall p,
        In p positions <->
        Position.row p = r /\
        (from <= Position.col p < from + Z.of_nat n)%Z /\
        GameLogic.canPlaceBlock grid block p = Some true.
Proof.
  induction n as [|n IH]; intros from;
    cbn [GameLogic.validInRow GameLogic.anyInRow].
  - exists []. repeat split; try contradiction.
    intros (_ & H & _). lia.
  - destruct (canPlaceBlock_total grid Hgrid block (Position.mk r from))
      as (fits & Hfits).
    destruct (IH (from + 1)%Z) as (positions & Hvalid & Hany & Hin).
    rewrite Hfits, Hvalid. eexists. split; [reflexivity|]. split.
    + destruct fits; [reflexivity | exact Hany].
    + intros p. rewrite in_app_iff, Hin. split.
      * intros [H | (Hr & Hc & Hp)].
        -- destruct fits; [|destruct H]. destruct H as [<- | []].
           cbn. repeat split; auto; lia.
        -- repeat split; auto; lia.
      * intros (Hr & Hc & Hp).
        destruct (Z.eq_dec (Position.col p) from) as [Heq | Hne].
        -- left. destruct p as [pr pc]. cbn in *. subst.
           rewrite Hfits in Hp. injection Hp as ->. left. reflexivity.
        -- right. repeat split; auto; lia.
Qed.

Lemma validFromRow_spec (grid : GameLogic.Grid)
    (Hgrid : rectangular 8 8 grid) (block : Block) (cols : nat) (n : nat) :
  forall from,
    exists positions,
      GameLogic.validFromRow grid block cols n from = Some positions /\
      GameLogic.anyFromRow grid block cols n from
      = Some (nonEmpty positions) /\
      forall p,
        In p positions <->
        (from <= Position.row p < from + Z.of_nat n)%Z /\
        (0 <= Position.col p < Z.of_nat cols)%Z /\
        GameLogic.canPlaceBlock grid block p = Some true.
Proof.
  induction n as [|n IH]; intros from;
    cbn [GameLogic.validFromRow GameLogic.anyFromRow].
  - exists []. repeat split; try contradiction.
    intros (H & _). lia.
  - destruct (validInRow_spec grid Hgrid block from cols 0)
      as (here & Hhere & Hany & Hin).
    destruct (IH (from + 1)%Z) as (below & Hbelow & Hany' & Hin').
    rewrite Hhere, Hbelow, Hany. eexists. split; [reflexivity|]. split.
    + destruct here; [exact Hany' | reflexivity].
    + intros p. rewrite in_app_iff, Hin, Hin'. split.
      * intros [(Hr & Hc & Hp) | (Hr & Hc & Hp)]; repeat split; auto; lia.
      * intros (Hr & Hc & Hp).
        destruct (Z.eq_dec (Position.row p) from) as [Heq | Hne].
        -- left. repeat split; auto; lia.
        -- right. repeat split; auto; lia.
Qed.

Lemma findValidDropPositions_spec (grid : GameLogic.Grid)
    (Hgrid : rectangular 8 8 grid) (block : Block) :
  exists positions,
    GameLogic.findValidDropPositions grid block = Some positions /\
    GameLogic.anyBlock grid [TrayBlock.mk block false]
    = Some (nonEmpty positions) /\
    forall p,
      In p positions <->
      GameLogic.isWithinBounds p GRID_SIZE GRID_SIZE = true /\
      GameLogic.canPlaceBlock grid block p = Some true.
Proof.
  destruct (validFromRow_spec grid Hgrid block 8 8 0)
    as (positions & Hv & Ha & Hin).
  destruct Hgrid as [Hlen Hall].
  destruct grid as [|first rest] eqn:Hg; [discriminate Hlen|].
  assert (Hfirst : List.length first = 8%nat) by (inversion Hall; auto).
  unfold GameLogic.findValidDropPositions.
  cbn [GameLogic.anyBlock TrayBlock.block]. rewrite Hfirst, Hlen.
  rewrite Hv, Ha. exists positions.
  split; [reflexivity|]. split; [destruct positions; reflexivity|].
  intros p. rewrite Hin. unfold GameLogic.isWithinBounds, GRID_SIZE.
  split.
  - intros (Hr & Hc & Hp). split; [|exact Hp].
    repeat (apply andb_true_intro; split);
      first [apply Z.geb_le | apply Z.ltb_lt]; lia.
  - intros (Hb & Hp).
    apply andb_prop in Hb. destruct Hb as [Hb H4].
    apply andb_prop in Hb. destruct Hb as [Hb H3].
    apply andb_prop in Hb. destruct Hb as [H1 H2].
    apply Z.geb_le in H1. apply Z.ltb_lt in H2.
    apply Z.geb_le in H3. apply Z.ltb_lt in H4.
    repeat split; auto; lia.
Qed.

Lemma anyBlock_spec (grid : GameLogic.Grid)
    (Hgrid : rectangular 8 8 grid) (availableBlocks : list TrayBlock) :
  exists any,
    GameLogic.anyBlock grid availableBlocks = Some any /\
    (any = false <->
     forall trayBlock,
       In trayBlock availableBlocks ->
       GameLogic.findValidDropPositions grid (TrayBlock.block trayBlock)
       = Some []).
Proof.
  induction availableBlocks as [|trayBlock rest IH].
  - exists false. split; [reflexivity|]. split; [contradiction | reflexivity].
  - destruct (findValidDropPositions_spec grid Hgrid
                (TrayBlock.block trayBlock))
      as (positions & Hv & Ha & _).
    destruct IH as (any & Hany & Hiff).
    cbn [GameLogic.anyBlock TrayBlock.block] in Ha |- *.
    destruct grid as [|first more] eqn:Hg;
      [destruct Hgrid as [Hlen _]; discriminate Hlen|].
    destruct (GameLogic.anyFromRow (first :: more)
                (TrayBlock.block trayBlock) (List.length first)
                (List.length (first :: more)) 0) as [[|]|] eqn:Hrow;
      try discriminate.
    + exists true. split; [reflexivity|]. split; [discriminate|].
      intros H. specialize (H trayBlock (or_introl eq_refl)).
      rewrite Hv in H. injection H as ->. discriminate Ha.
    + exists any. split; [exact Hany|]. rewrite Hiff. split.
      * intros H tb [<- | Hin]; [|apply H; exact Hin].
        rewrite Hv. destruct positions; [reflexivity | discriminate Ha].
      * intros H tb Hin. apply H. right. exact Hin.
Qed.

End MoveFacts.

(** X28. The game is over exactly when no block of the tray has a move.
    On an 8 by 8 grid [findValidDropPositions] returns exactly the
    positions within the grid at which [canPlaceBlock] is true, and
    [checkGameOver] returns true exactly when it returns no position for
    every block of the tray that is not used. *)
Theorem game_over_iff_no_move (grid : GameLogic.Grid)
    (tray : list TrayBlock) :
  rectangular 8 8 grid ->
  (forall block,
     exists positions,
       GameLogic.findValidDropPositions grid block = Some positions /\
       forall p,
         In p positions <->
         GameLogic.isWithinBounds p GRID_SIZE GRID_SIZE = true /\
         GameLogic.canPlaceBlock grid block p = Some true) /\
  exists over,
    GameLogic.checkGameOver grid tray = Some over /\
    (over = true <->
     forall trayBlock,
       In trayBlock tray -> TrayBlock.used trayBlock = false ->
       GameLogic.findValidDropPositions grid (TrayBlock.block trayBlock)
       = Some []).
Proof.
  intros Hgrid. split.
  - intros block.
    destruct (findValidDropPositions_spec grid Hgrid block)
      as (positions & Hv & _ & Hin).
    exists positions. split; assumption.
  - unfold GameLogic.checkGameOver, GameLogic.canPlaceAnyBlock. cbv zeta.
    destruct (anyBlock_spec grid Hgrid
                (filter (fun tb => negb (TrayBlock.used tb)) tray))
      as (any & Hany & Hiff).
    rewrite Hany. exists (negb any). split; [reflexivity|].
    assert (Hneg : negb any = true <-> any = false)
      by (destruct any; cbn; split; intros H; (discriminate H || reflexivity)).
    rewrite Hneg, Hiff. split.
    + intros H tb Hin Hused. apply H. apply filter_In.
      split; [exact Hin | rewrite Hused; reflexivity].
    + intros H tb Hin. apply filter_In in Hin. destruct Hin as [Hin Hused].
      apply H; [exact Hin|]. destruct (TrayBlock.used tb);
        [discriminate | reflexivity].
Qed.

Lemma game_over_iff_no_move_witness :
  exists over,
    GameLogic.checkGameOver (GameLogic.createEmptyGrid 8 8)
      [TrayBlock.mk (Block.mk "b" [[true; true]] "red" "bar") false]
    = Some over /\
    (over = true <->
     forall trayBlock,
       In trayBlock
          [TrayBlock.mk (Block.mk "b" [[true; true]] "red" "bar") false] ->
       TrayBlock.used trayBlock = false ->
       GameLogic.findValidDropPositions (GameLogic.createEmptyGrid 8 8)
         (TrayBlock.block trayBlock)
       = Some []).
Proof.
  apply (game_over_iff_no_move (GameLogic.createEmptyGrid 8 8)
           [TrayBlock.mk (Block.mk "b" [[true; true]] "red" "bar") false]).
  split; [reflexivity | repeat constructor].
Defined.

(** ** A placement *)

Section PlacementFacts.

Lemma countRow_rowCells (cells : list bool) (position : Position) :
  forall count r c,
    GameLogic.countRow cells count
    = (count + List.length (GameLogic.rowCells cells r c position))%nat.
Proof.
  induction cells as [|cell rest IH]; intros count r c;
    cbn [GameLogic.countRow GameLogic.rowCells];
    [cbn [List.length]; lia|].
  rewrite (IH _ r (c + 1)%Z), length_app.
  destruct cell; cbn [List.length]; lia.
Qed.

Lemma countRows_shapeCells (shape : ShapeMatrix) (position : Position) :
  forall count r,
    GameLogic.countRows shape count
    = (count + List.length (GameLogic.shapeCells shape r position))%nat.
Proof.
  induction shape as [|cells rest IH]; intros count r;
    cbn [GameLogic.countRows GameLogic.shapeCells];
    [cbn [List.length]; lia|].
  rewrite (IH _ (r + 1)%Z), length_app,
    (countRow_rowCells cells position count r 0). lia.
Qed.

Lemma calculateScore_lower (blocksPlaced linesCleared : nat)
    (isCombo : bool) :
  inject_Z (Z.of_nat blocksPlaced)
  <= GameLogic.calculateScore (inject_Z (Z.of_nat blocksPlaced))
                              (inject_Z (Z.of_nat linesCleared)) isCombo.
Proof.
  rewrite calculateScore_nat. cbv zeta.
  set (base := (Z.of_nat blocksPlaced
                + Z.of_nat linesCleared * 10 * Z.of_nat linesCleared)%Z).
  assert (Hbase : (0 <= base)%Z) by (subst base; nia).
  assert (Hcells : inject_Z (Z.of_nat blocksPlaced) <= inject_Z base)
    by (rewrite <- Zle_Qle; subst base; nia).
  destruct (isCombo && Nat.ltb 0 linesCleared); [|exact Hcells].
  eapply Qle_trans; [exact Hcells | apply floor_grows; exact Hbase].
Qed.

End PlacementFacts.

(** X29. A placement, whole.  For a block that fits on an 8 by 8 grid,
    [processPlacement] returns: the new grid is 8 by 8 and has no complete
    line; in it the cells on the cleared lines are empty, the other cells
    of the block are filled with its colour, and every other cell is as it
    was; the placement is a combo exactly when lines were cleared now and
    by the placement before; the points are at least the number of cells
    of the block, which is the length of [getBlockCells], and exactly that
    number when no line is cleared. *)
Theorem processPlacement_spec (grid : GameLogic.Grid) (block : Block)
    (position : Position) (previousLinesCleared : bool) :
  rectangular 8 8 grid ->
  GameLogic.canPlaceBlock grid block position = Some true ->
  exists result,
    GameLogic.processPlacement grid block position previousLinesCleared
    = Some result /\
    rectangular 8 8 (PlacementResult.newGrid result) /\
    GameLogic.findCompletedLines (PlacementResult.newGrid result)
    = Some [] /\
    (forall r c cell,
       GameLogic.cellAt grid r c = Some cell ->
       GameLogic.cellAt (PlacementResult.newGrid result) r c
       = Some (if onLine (PlacementResult.linesCleared result) r c
               then Cell.mk false None
               else if among (map keyOf
                                  (GameLogic.getBlockCells block position))
                             r c
                    then Cell.mk true (Some (Block.color block))
                    else cell)) /\
    PlacementResult.isCombo result
    = previousLinesCleared && nonEmpty (PlacementResult.linesCleared result)
    /\
    GameLogic.getBlockCellCount block
    = List.length (GameLogic.getBlockCells block position) /\
    inject_Z (Z.of_nat (GameLogic.getBlockCellCount block))
    <= PlacementResult.pointsEarned result /\
    (PlacementResult.linesCleared result = [] ->
     PlacementResult.pointsEarned result
     == inject_Z (Z.of_nat (GameLogic.getBlockCellCount block))).
Proof.
  intros Hgrid Hfits.
  destruct (placeBlock_spec grid block position Hfits)
    as (placed & Hplace & Hshape & Hat).
  pose proof (rectangular_map 8 8 grid placed Hshape Hgrid) as Hplaced.
  destruct (sweep_spec 8 8 placed Hplaced) as
    (lines & newGrid & Hfind & _ & Hclear & Hnew & Hcells & Hnone);
    [lia | lia |].
  unfold GameLogic.processPlacement. rewrite Hplace, Hfind, Hclear.
  cbv zeta. eexists. split; [reflexivity|].
  cbn [PlacementResult.newGrid PlacementResult.linesCleared
       PlacementResult.isCombo PlacementResult.pointsEarned].
  split; [exact Hnew|]. split; [exact Hnone|]. split.
  { intros r c cell Hcell.
    assert (Hp : GameLogic.cellAt placed r c
                 = Some (if among (map keyOf
                                     (GameLogic.getBlockCells block position))
                                  r c
                         then Cell.mk true (Some (Block.color block))
                         else cell)).
    { rewrite Hat. destruct (among _ r c); [reflexivity | exact Hcell]. }
    rewrite (Hcells r c _ Hp). destruct (onLine lines r c); reflexivity. }
  split; [destruct lines; reflexivity|]. split.
  { unfold GameLogic.getBlockCellCount, GameLogic.getBlockCells.
    rewrite (countRows_shapeCells (Block.shape block) position 0 0).
    reflexivity. }
  split; [apply calculateScore_lower|].
  intros ->. cbn [List.length Z.of_nat]. rewrite andb_false_r.
  unfold GameLogic.calculateScore.
  replace (inject_Z 0 >? 0) with false by reflexivity. reflexivity.
Qed.

Lemma processPlacement_spec_witness :
  exists result,
    GameLogic.processPlacement (GameLogic.createEmptyGrid 8 8)
      (Block.mk "b" [[true; true]; [true; false]] "red" "corner")
      (Position.mk 6 6) false = Some result /\
    rectangular 8 8 (PlacementResult.newGrid result) /\
    GameLogic.findCompletedLines (PlacementResult.newGrid result)
    = Some [].
Proof.
  destruct (processPlacement_spec (GameLogic.createEmptyGrid 8 8)
              (Block.mk "b" [[true; true]; [true; false]] "red" "corner")
              (Position.mk 6 6) false)
    as (result & Hr & Hnew & Hnone & _).
  - split; [reflexivity | repeat constructor].
  - reflexivity.
  - exists result. split; [exact Hr | split; [exact Hnew | exact Hnone]].
Defined.

(** ** A new game *)

Section NewGameFacts.

Lemma repeatCell_length {A : Type} (n : nat) (v : A) :
  List.length (GameLogic.repeatCell n v) = n.
Proof. induction n as [|n IH]; cbn; congruence. Qed.

Lemma repeatCell_In {A : Type} (n : nat) (v x : A) :
  In x (GameLogic.repeatCell n v) -> x = v.
Proof.
  induction n as [|n IH]; cbn; [contradiction|].
  intros [<- | H]; [reflexivity | apply IH; exact H].
Qed.

Lemma createEmptyGrid_rectangular (rows cols : nat) :
  rectangular rows cols (GameLogic.createEmptyGrid rows cols).
Proof.
  unfold GameLogic.createEmptyGrid. split; [apply repeatCell_length|].
  apply Forall_forall. intros cells Hin.
  rewrite (repeatCell_In rows _ cells Hin). apply repeatCell_length.
Qed.

Lemma createEmptyGrid_cellAt (rows cols : nat) (r c : Z) (cell : Cell) :
  GameLogic.cellAt (GameLogic.createEmptyGrid rows cols) r c = Some cell ->
  cell = Cell.mk false None.
Proof.
  intros H. apply cellAt_Some in H.
  destruct H as (_ & _ & cells & Hcells & Hcell).
  apply nth_error_In in Hcells. apply nth_error_In in Hcell.
  unfold GameLogic.createEmptyGrid in Hcells.
  rewrite (repeatCell_In rows _ cells Hcells) in Hcell.
  exact (repeatCell_In cols _ cell Hcell).
Qed.

Lemma fits_empty_grid (block : Block) :
  fitsGrid (Block.shape block) ->
  GameLogic.canPlaceBlock (GameLogic.createEmptyGrid 8 8) block
                          (Position.mk 0 0) = Some true.
Proof.
  intros Hfit. unfold GameLogic.canPlaceBlock.
  apply canPlaceRows_true. apply Forall_forall. intros p Hin.
  apply shapeCells_In in Hin.
  destruct Hin as (i & j & cells & Hi & Hj & ->).
  destruct (Block.shape block) as [|first rest] eqn:Hshape;
    [destruct Hfit|].
  destruct Hfit as (Hh & Hwd & Hrows).
  assert (Hi' : (i < List.length (first :: rest))%nat)
    by (apply nth_error_Some; rewrite Hi; discriminate).
  assert (Hj' : (j < List.length cells)%nat)
    by (apply nth_error_Some; rewrite Hj; discriminate).
  assert (Hcells : (List.length cells <= List.length first)%nat).
  { apply (proj1 (Forall_forall _ _) Hrows cells).
    eapply nth_error_In. exact Hi. }
  cbn [Position.row Position.col].
  assert (Hr : (0 <= 0 + (0 + Z.of_nat i) < Z.of_nat 8)%Z) by lia.
  assert (Hc : (0 <= 0 + Z.of_nat j < Z.of_nat 8)%Z) by lia.
  split.
  - unfold GameLogic.isWithinBounds, GRID_SIZE.
    cbn [Position.row Position.col].
    repeat (apply andb_true_intro; split);
      first [apply Z.geb_le | apply Z.ltb_lt]; lia.
  - cbn [Position.row Position.col].
    pose proof (proj2 (rectangular_cellAt 8 8 _ _ _
                         (createEmptyGrid_rectangular 8 8))
                      (conj Hr Hc)) as Hex.
    destruct (GameLogic.cellAt (GameLogic.createEmptyGrid 8 8)
                (0 + (0 + Z.of_nat i)) (0 + Z.of_nat j)) as [cell|] eqn:Hcell;
      [|contradiction].
    exists cell. split; [reflexivity|].
    rewrite (createEmptyGrid_cellAt 8 8 _ _ cell Hcell). reflexivity.
Qed.

End NewGameFacts.

(** X30. A new game is not over.  [createEmptyGrid] returns a grid of the
    given numbers of rows and columns with no filled cell; on the empty 8
    by 8 grid every block whose shape fits the grid can be placed in the
    top left corner, so [checkGameOver] is false for every tray that holds
    such a block not yet used. *)
Theorem new_game_is_not_over (tray : list TrayBlock)
    (trayBlock : TrayBlock) :
  In trayBlock tray ->
  TrayBlock.used trayBlock = false ->
  fitsGrid (Block.shape (TrayBlock.block trayBlock)) ->
  (forall rows cols,
     rectangular rows cols (GameLogic.createEmptyGrid rows cols) /\
     forall r c, filledAt (GameLogic.createEmptyGrid rows cols) r c = false)
  /\
  GameLogic.canPlaceBlock (GameLogic.createEmptyGrid 8 8)
    (TrayBlock.block trayBlock) (Position.mk 0 0) = Some true /\
  GameLogic.checkGameOver (GameLogic.createEmptyGrid 8 8) tray = Some false.
Proof.
  intros Hin Hused Hfit. split.
  { intros rows cols. split; [apply createEmptyGrid_rectangular|].
    intros r c. unfold filledAt.
    destruct (GameLogic.cellAt _ r c) as [cell|] eqn:Hcell; [|reflexivity].
    rewrite (createEmptyGrid_cellAt rows cols r c cell Hcell). reflexivity. }
  pose proof (fits_empty_grid (TrayBlock.block trayBlock) Hfit) as Hfits.
  split; [exact Hfits|].
  pose proof (createEmptyGrid_rectangular 8 8) as Hgrid.
  unfold GameLogic.checkGameOver, GameLogic.canPlaceAnyBlock. cbv zeta.
  destruct (anyBlock_spec (GameLogic.createEmptyGrid 8 8) Hgrid
              (filter (fun tb => negb (TrayBlock.used tb)) tray))
    as (any & Hany & Hiff).
  rewrite Hany. destruct any; [reflexivity|]. exfalso.
  assert (Hnone : GameLogic.findValidDropPositions
                    (GameLogic.createEmptyGrid 8 8)
                    (TrayBlock.block trayBlock) = Some []).
  { apply (proj1 Hiff eq_refl). apply filter_In.
    split; [exact Hin | rewrite Hused; reflexivity]. }
  destruct (findValidDropPositions_spec (GameLogic.createEmptyGrid 8 8)
              Hgrid (TrayBlock.block trayBlock))
    as (positions & Hv & _ & Hpos).
  rewrite Hv in Hnone. injection Hnone as ->.
  apply (proj2 (Hpos (Position.mk 0 0))). split; [reflexivity | exact Hfits].
Qed.

Lemma new_game_is_not_over_witness :
  GameLogic.checkGameOver (GameLogic.createEmptyGrid 8 8)
    [TrayBlock.mk (Block.mk "a" [[true]] "red" "dot") true;
     TrayBlock.mk (Block.mk "b" [[true; true]; [true; false]] "red" "corner")
                  false]
  = Some false.
Proof.
  refine (proj2 (proj2
            (new_game_is_not_over
               [TrayBlock.mk (Block.mk "a" [[true]] "red" "dot") true;
                TrayBlock.mk
                  (Block.mk "b" [[true; true]; [true; false]] "red" "corner")
                  false]
               (TrayBlock.mk
                  (Block.mk "b" [[true; true]; [true; false]] "red" "corner")
                  false) _ _ _))).
  - right. left. reflexivity.
  - reflexivity.
  - cbn. repeat split; try lia. repeat constructor.
Defined.
